(** * TicketRush: seat reservation core

    A shallow embedding of the seat entity, the optimistic-locking Prisma
    repository, the Redis cache service, the cache-aside decorator, the
    booking service, the RabbitMQ publisher, the API routes and the
    background worker, together with the properties the specification states
    about them.

    Conventions.  A JavaScript [number] holding a version or a price is an
    integer [Z] (the columns are INTEGER and DECIMAL(10,2); prices are carried
    in minor units and never computed with).  [T | null] is [option T].  A
    thrown exception is the [Err] branch of [Result]; an [async] method is a
    computation in the state-and-exception monad [M], and [await] is its bind.
    Executions are sequential: one operation runs to completion before the
    next one starts. *)

From stdpp Require Import gmap strings list sorting pretty.
From Stdlib Require Import ZArith.

Local Open Scope Z_scope.

(* ===================================================================== *)
(** * Domain: src/core/domain/seat.entity.ts                             *)
(* ===================================================================== *)

Inductive SeatStatus := AVAILABLE | LOCKED | SOLD.

#[global] Instance SeatStatus_eq_dec : EqDecision SeatStatus.
Proof. solve_decision. Defined.

(** The run-time value of an enum member is its string. *)
Definition SeatStatus_str (s : SeatStatus) : string :=
  match s with
  | AVAILABLE => "AVAILABLE"
  | LOCKED => "LOCKED"
  | SOLD => "SOLD"
  end.

Module SeatProps.
Record t := mk {
  id : string;
  status : SeatStatus;
  userId : option string;
  version : Z;
  price : Z;
  seatNumber : string;
  eventId : string;
}.

#[global] Instance eq_dec : EqDecision t.
Proof. solve_decision. Defined.
End SeatProps.

(* ===================================================================== *)
(** * Errors: the exception classes of the repository                    *)
(* ===================================================================== *)

(** Each constructor is one class, with the arguments of its constructor.
    [Error_] is a plain [new Error(message)];
    [PrismaClientKnownRequestError] is what the Prisma client throws when a
    constraint of the database rejects an insert: code P2002 for a unique
    constraint, code P2003 for a foreign key. *)
Inductive JsError :=
| Error_ (message : string)
| SeatNotFoundError (seatId : string)
| SeatNotAvailableError (seatId currentStatus : string)
| UnauthorizedLockError (userId seatId : string)
| ConcurrencyError (entityType entityId : string) (expectedVersion : Z)
| PrismaClientKnownRequestError (code : string).

#[global] Instance JsError_eq_dec : EqDecision JsError.
Proof. solve_decision. Defined.

(** The text handed to [super(...)]. *)
Definition message (e : JsError) : string :=
  match e with
  | Error_ m => m
  | SeatNotFoundError seatId => "Seat " +:+ seatId +:+ " not found"
  | SeatNotAvailableError seatId currentStatus =>
      "Seat " +:+ seatId +:+ " is not available (current status: "
        +:+ currentStatus +:+ ")"
  | UnauthorizedLockError userId seatId =>
      "User " +:+ userId +:+ " does not own the lock on seat " +:+ seatId
  | ConcurrencyError entityType entityId expectedVersion =>
      "Concurrency conflict: " +:+ entityType +:+ " with ID " +:+ entityId
        +:+ " was modified by another process. Expected version "
        +:+ pretty expectedVersion +:+ "."
  | PrismaClientKnownRequestError code =>
      (if decide (code = "P2003") then "Foreign key constraint failed ("
       else "Unique constraint failed (") +:+ code +:+ ")"
  end.

Inductive Result (A : Type) :=
| Ok (a : A)
| Err (e : JsError).
Arguments Ok {A} a.
Arguments Err {A} e.

(* ===================================================================== *)
(** * The seat entity                                                    *)
(* ===================================================================== *)

Module Seat.
(** [class Seat { private constructor(private readonly props) }]: a frozen
    wrapper around its props. *)
Record t := new { props : SeatProps.t }.

#[global] Instance eq_dec : EqDecision t.
Proof. solve_decision. Defined.

Definition create (id eventId seatNumber : string) (price : Z) : t :=
  new {| SeatProps.id := id;
         SeatProps.eventId := eventId;
         SeatProps.seatNumber := seatNumber;
         SeatProps.price := price;
         SeatProps.status := AVAILABLE;
         SeatProps.userId := None;
         SeatProps.version := 1 |}.

Definition fromPersistence (p : SeatProps.t) : t := new p.

Definition id (s : t) : string := SeatProps.id (props s).
Definition status (s : t) : SeatStatus := SeatProps.status (props s).
Definition userId (s : t) : option string := SeatProps.userId (props s).
Definition version (s : t) : Z := SeatProps.version (props s).
Definition price (s : t) : Z := SeatProps.price (props s).
Definition seatNumber (s : t) : string := SeatProps.seatNumber (props s).
Definition eventId (s : t) : string := SeatProps.eventId (props s).

(** [{ ...this.props, status, userId, version }] *)
Definition with_ (p : SeatProps.t) (st : SeatStatus) (u : option string)
    (v : Z) : SeatProps.t :=
  {| SeatProps.id := SeatProps.id p;
     SeatProps.status := st;
     SeatProps.userId := u;
     SeatProps.version := v;
     SeatProps.price := SeatProps.price p;
     SeatProps.seatNumber := SeatProps.seatNumber p;
     SeatProps.eventId := SeatProps.eventId p |}.

Definition lock (userId : string) (s : t) : Result t :=
  if decide (status s ≠ AVAILABLE) then
    Err (Error_ ("Cannot lock seat: current status is "
                   +:+ SeatStatus_str (status s)))
  else
    Ok (new (with_ (props s) LOCKED (Some userId) (version s + 1))).

Definition sell (s : t) : Result t :=
  if decide (status s ≠ LOCKED) then
    Err (Error_ ("Cannot sell seat: current status is "
                   +:+ SeatStatus_str (status s)))
  else
    Ok (new (with_ (props s) SOLD (userId s) (version s + 1))).

Definition release (s : t) : Result t :=
  if decide (status s ≠ LOCKED) then
    Err (Error_ ("Cannot release seat: current status is "
                   +:+ SeatStatus_str (status s)))
  else
    Ok (new (with_ (props s) AVAILABLE None (version s + 1))).

Definition isAvailable (s : t) : bool := bool_decide (status s = AVAILABLE).
Definition isLocked (s : t) : bool := bool_decide (status s = LOCKED).
Definition isSold (s : t) : bool := bool_decide (status s = SOLD).

Definition isLockedBy (userId' : string) (s : t) : bool :=
  bool_decide (status s = LOCKED) && bool_decide (userId s = Some userId').

(** [{ ...this.props }]: a copy of the props. *)
Definition toJSON (s : t) : SeatProps.t :=
  {| SeatProps.id := id s;
     SeatProps.status := status s;
     SeatProps.userId := userId s;
     SeatProps.version := version s;
     SeatProps.price := price s;
     SeatProps.seatNumber := seatNumber s;
     SeatProps.eventId := eventId s |}.
End Seat.

(* ===================================================================== *)
(** * Asynchronous methods: state and exceptions                         *)
(* ===================================================================== *)

(** A computation over a store [S]: it returns a value or throws, and in
    both cases leaves the store as it was at that point. *)
Definition M (S A : Type) : Type := S → Result A * S.

Definition ret {S A} (a : A) : M S A := λ s, (Ok a, s).
Definition throw {S A} (e : JsError) : M S A := λ s, (Err e, s).

Definition bind {S A B} (c : M S A) (k : A → M S B) : M S B :=
  λ s, match c s with
       | (Ok a, s') => k a s'
       | (Err e, s') => (Err e, s')
       end.

(** [try { c } catch (error) { h error }] *)
Definition try_catch {S A} (c : M S A) (h : JsError → M S A) : M S A :=
  λ s, match c s with
       | (Ok a, s') => (Ok a, s')
       | (Err e, s') => h e s'
       end.

(** A synchronous call that may throw. *)
Definition of_result {S A} (r : Result A) : M S A := λ s, (r, s).

Definition gets {S A} (f : S → A) : M S A := λ s, (Ok (f s), s).
Definition modify {S} (f : S → S) : M S unit := λ s, (Ok tt, f s).

Notation "'let*' x ':=' c 'in' k" := (bind c (λ x, k))
  (at level 10, x name, c at level 100, k at level 200, only parsing).
Notation "c ';;;' k" := (bind c (λ _, k))
  (at level 100, k at level 200, right associativity, only parsing).

(* ===================================================================== *)
(** * The repository interface: src/core/interfaces/ISeatRepository.ts   *)
(* ===================================================================== *)

Module ISeatRepository.
Class t (R : Type) := {
  findById : string → M R (option Seat.t);
  findByEventId : string → M R (list Seat.t);
  save : Seat.t → M R Seat.t;
  findByIdWithVersion : string → Z → M R (option Seat.t);
}.
End ISeatRepository.

(* ===================================================================== *)
(** * The database and the Prisma client                                 *)
(* ===================================================================== *)

Module Prisma.
Inductive PrismaSeatStatus := P_AVAILABLE | P_LOCKED | P_SOLD.

#[global] Instance PrismaSeatStatus_eq_dec : EqDecision PrismaSeatStatus.
Proof. solve_decision. Defined.

(** A row as the client returns it.  [createdAt] and [updatedAt] are never
    read by the repository and are left out. *)
Record PrismaSeat := mkSeat {
  id : string;
  eventId : string;
  seatNumber : string;
  status : PrismaSeatStatus;
  price : Z;
  userId : option string;
  version : Z;
}.

#[global] Instance PrismaSeat_eq_dec : EqDecision PrismaSeat.
Proof. solve_decision. Defined.

(** The columns of a row other than its primary key. *)
Record Columns := mkColumns {
  c_eventId : string;
  c_seatNumber : string;
  c_status : PrismaSeatStatus;
  c_price : Z;
  c_userId : option string;
  c_version : Z;
}.

#[global] Instance Columns_eq_dec : EqDecision Columns.
Proof. solve_decision. Defined.

(** Table "seats" of migration.sql: [id] is the primary key, so the table
    is a finite map from [id] to the other columns. *)
Abbreviation Table := (gmap string Columns).

(** The database behind the client, as far as the repository meets it: the
    collation its TEXT columns are ordered by ([collate a b] holds when [a]
    sorts at or before [b]; it is fixed when the database is created), the
    ids of table "events", which "seats_event_id_fkey" refers to, and table
    "seats". *)
Record Database := mkDatabase {
  collate : string → string → bool;
  events : gset string;
  seats : Table;
}.

(** The database once table "seats" has been written. *)
Definition with_seats (t : Table) (db : Database) : Database :=
  {| collate := collate db; events := events db; seats := t |}.

Definition row (id : string) (c : Columns) : PrismaSeat :=
  {| id := id; eventId := c_eventId c; seatNumber := c_seatNumber c;
     status := c_status c; price := c_price c; userId := c_userId c;
     version := c_version c |}.

Definition columns (r : PrismaSeat) : Columns :=
  {| c_eventId := eventId r; c_seatNumber := seatNumber r;
     c_status := status r; c_price := price r; c_userId := userId r;
     c_version := version r |}.

(** [seat.findUnique({ where: { id } })] *)
Definition findUnique (id : string) (db : Database) : option PrismaSeat :=
  row id <$> seats db !! id.

(** [seat.findFirst({ where: { id, version } })] *)
Definition findFirst (id : string) (version : Z) (db : Database)
    : option PrismaSeat :=
  match seats db !! id with
  | Some c => if decide (c_version c = version) then Some (row id c) else None
  | None => None
  end.

(** [ORDER BY "seat_number" ASC]: the column is TEXT and neither the schema
    nor the query names a collation, so the order is that of the
    database's. *)
Definition seatNumber_asc (db : Database) (a b : PrismaSeat) : Prop :=
  collate db (seatNumber a) (seatNumber b) = true.

#[global] Instance seatNumber_asc_dec db a b : Decision (seatNumber_asc db a b).
Proof. unfold seatNumber_asc. apply _. Defined.

(** [seat.findMany({ where: { eventId }, orderBy: { seatNumber: 'asc' } })] *)
Definition findMany (eventId' : string) (db : Database) : list PrismaSeat :=
  merge_sort (seatNumber_asc db)
    (filter (λ r, eventId r = eventId')
            ((λ kc, row kc.1 kc.2) <$> map_to_list (seats db))).

(** Unique index "seats_event_id_seat_number_key". *)
Definition seat_taken (eventId' seatNumber' : string) (db : Table) : Prop :=
  map_Exists (λ _ c, c_eventId c = eventId' ∧ c_seatNumber c = seatNumber') db.

#[global] Instance seat_taken_dec e n db : Decision (seat_taken e n db).
Proof. unfold seat_taken. apply _. Defined.

(** [seat.create({ data })]: the insert is rejected with P2002 when the
    primary key or the (event_id, seat_number) pair is already present, and
    with P2003 when no event has the id the seat names.  The unique indexes
    are checked as the row goes in, the foreign key at the end of the
    statement, so a row that breaks both is rejected with P2002. *)
Definition create (data : PrismaSeat) (db : Database)
    : Result PrismaSeat * Database :=
  if decide (is_Some (seats db !! id data)) then
    (Err (PrismaClientKnownRequestError "P2002"), db)
  else if decide (seat_taken (eventId data) (seatNumber data) (seats db)) then
    (Err (PrismaClientKnownRequestError "P2002"), db)
  else if decide (eventId data ∈ events db) then
    (Ok data, with_seats (<[id data := columns data]> (seats db)) db)
  else
    (Err (PrismaClientKnownRequestError "P2003"), db).

(** [seat.updateMany({ where: { id, version }, data: { status, userId,
    version } })]: returns the number of rows it changed. *)
Definition updateMany (w_id : string) (w_version : Z)
    (d_status : PrismaSeatStatus) (d_userId : option string) (d_version : Z)
    (db : Database) : Z * Database :=
  match seats db !! w_id with
  | Some c =>
      if decide (c_version c = w_version) then
        (1, with_seats
              (<[w_id := {| c_eventId := c_eventId c;
                            c_seatNumber := c_seatNumber c;
                            c_status := d_status;
                            c_price := c_price c;
                            c_userId := d_userId;
                            c_version := d_version |}]> (seats db))
              db)
      else (0, db)
  | None => (0, db)
  end.
End Prisma.

(* ===================================================================== *)
(** * PrismaSeatRepository                                               *)
(* ===================================================================== *)

Module PrismaSeatRepository.
Import Prisma.

Definition mapPrismaStatusToDomain (s : PrismaSeatStatus) : SeatStatus :=
  match s with
  | P_AVAILABLE => AVAILABLE
  | P_LOCKED => LOCKED
  | P_SOLD => SOLD
  end.

Definition mapDomainStatusToPrisma (s : SeatStatus) : PrismaSeatStatus :=
  match s with
  | AVAILABLE => P_AVAILABLE
  | LOCKED => P_LOCKED
  | SOLD => P_SOLD
  end.

Definition mapToDomain (prismaSeat : PrismaSeat) : Seat.t :=
  Seat.fromPersistence
    {| SeatProps.id := id prismaSeat;
       SeatProps.eventId := eventId prismaSeat;
       SeatProps.seatNumber := seatNumber prismaSeat;
       SeatProps.status := mapPrismaStatusToDomain (status prismaSeat);
       SeatProps.price := price prismaSeat;
       SeatProps.userId := userId prismaSeat;
       SeatProps.version := version prismaSeat |}.

Definition findById (id : string) : M Database (option Seat.t) :=
  let* prismaSeat := gets (findUnique id) in
  match prismaSeat with
  | None => ret None
  | Some r => ret (Some (mapToDomain r))
  end.

Definition findByEventId (eventId : string) : M Database (list Seat.t) :=
  let* prismaSeats := gets (findMany eventId) in
  ret (mapToDomain <$> prismaSeats).

Definition findByIdWithVersion (id : string) (expectedVersion : Z)
    : M Database (option Seat.t) :=
  let* prismaSeat := gets (findFirst id expectedVersion) in
  match prismaSeat with
  | None => ret None
  | Some r => ret (Some (mapToDomain r))
  end.

Definition save (seat : Seat.t) : M Database Seat.t :=
  let seatData := Seat.toJSON seat in
  let previousVersion := SeatProps.version seatData - 1 in
  if decide (SeatProps.version seatData = 1) then
    let* created :=
      create {| id := SeatProps.id seatData;
                eventId := SeatProps.eventId seatData;
                seatNumber := SeatProps.seatNumber seatData;
                status := mapDomainStatusToPrisma (SeatProps.status seatData);
                price := SeatProps.price seatData;
                userId := SeatProps.userId seatData;
                version := SeatProps.version seatData |} in
    ret (mapToDomain created)
  else
    let* count :=
      (λ db, let '(n, db') :=
               updateMany (SeatProps.id seatData) previousVersion
                 (mapDomainStatusToPrisma (SeatProps.status seatData))
                 (SeatProps.userId seatData)
                 (SeatProps.version seatData) db
             in (Ok n, db')) in
    if decide (count = 0) then
      throw (ConcurrencyError "Seat" (SeatProps.id seatData) previousVersion)
    else
      ret seat.

#[global] Instance repository : ISeatRepository.t Database := {|
  ISeatRepository.findById := findById;
  ISeatRepository.findByEventId := findByEventId;
  ISeatRepository.save := save;
  ISeatRepository.findByIdWithVersion := findByIdWithVersion;
|}.
End PrismaSeatRepository.

(* ===================================================================== *)
(** * The cache interface: src/core/interfaces/ICache.ts                 *)
(* ===================================================================== *)

Module ICache.
(** What the repository stores: the JSON of one seat, or of a list of
    seats.  [JSON.parse (JSON.stringify v)] gives [v] back for both. *)
Inductive Value :=
| SeatValue (p : SeatProps.t)
| SeatListValue (ps : list SeatProps.t).

Record Entry := mkEntry { value : Value; ttlSeconds : Z }.

(** What a cache holds: under each key a value and the time to live it was
    stored with.  The expiry of an entry is recorded and is not acted
    upon. *)
Abbreviation Store := (gmap string Entry).

(** The interface.  The decorator always gives [set] a TTL;
    [deletePattern], which nothing calls, is left out. *)
Class t (C : Type) := {
  get : string → M C (option Value);
  set : string → Value → Z → M C unit;
  delete : string → M C unit;
  exists_ : string → M C bool;
}.
End ICache.

(** The key/value service as the doc comments of the interface state it:
    [get] returns the cached value or null when there is none, [set] sets
    the value, [delete] deletes it.  Every call takes effect; this is the
    Redis service below when Redis carries out every command
    ([RedisService_refines_contract]). *)
Module CacheContract.
Abbreviation t := ICache.Store.

Definition get (key : string) : M t (option ICache.Value) :=
  gets (λ c : t, ICache.value <$> c !! key).

Definition set (key : string) (v : ICache.Value) (ttl : Z) : M t unit :=
  modify (λ c : t, <[key := ICache.mkEntry v ttl]> c).

Definition delete (key : string) : M t unit :=
  modify (λ c : t, base.delete key c).

Definition exists_ (key : string) : M t bool :=
  gets (λ c : t, bool_decide (is_Some (c !! key))).

#[global] Instance cache : ICache.t t := {|
  ICache.get := get;
  ICache.set := set;
  ICache.delete := delete;
  ICache.exists_ := exists_;
|}.
End CacheContract.

(* ===================================================================== *)
(** * RedisService: src/infrastructure/cache/RedisService.ts             *)
(* ===================================================================== *)

Module RedisService.
(** How a command given to the ioredis client goes: Redis carries it out,
    or the client rejects it (the connection is down and the retries are
    used up) and Redis has not carried it out. *)
Inductive Reply :=
| Served
| Rejected (error : string).

(** The client and the server behind it: what Redis holds, and how the next
    commands go, one reply per command; once the list is used up every
    command is served. *)
Record Redis := {
  entries : ICache.Store;
  replies : list Reply;
}.

Record t := new {
  redis : Redis;
  defaultTtl : Z;
  console : list string;
}.

(** One command: [run] is what Redis does with it when it is served. *)
Definition command {A} (run : ICache.Store → A * ICache.Store) : M t A :=
  λ s,
    let served rest :=
      let '(a, entries') := run (entries (redis s)) in
      (Ok a, new {| entries := entries'; replies := rest |}
                 (defaultTtl s) (console s)) in
    match replies (redis s) with
    | [] => served []
    | Served :: rest => served rest
    | Rejected error :: rest =>
        (Err (Error_ error),
         new {| entries := entries (redis s); replies := rest |}
             (defaultTtl s) (console s))
    end.

(** [redis.get(key)] *)
Definition redis_get (key : string) : M t (option ICache.Entry) :=
  command (λ e, (e !! key, e)).

(** [redis.setex(key, ttl, serialized)] *)
Definition redis_setex (key : string) (ttl : Z) (v : ICache.Value) : M t unit :=
  command (λ e, (tt, <[key := ICache.mkEntry v ttl]> e)).

(** [redis.del(key)]: the number of keys removed. *)
Definition redis_del (key : string) : M t Z :=
  command (λ e, (if decide (is_Some (e !! key)) then 1 else 0,
                 base.delete key e)).

(** [redis.exists(key)] *)
Definition redis_exists (key : string) : M t Z :=
  command (λ e, (if decide (is_Some (e !! key)) then 1 else 0, e)).

(** [console.error(prefix, error)] *)
Definition console_error (prefix : string) (error : JsError) : M t unit :=
  modify (λ s, new (redis s) (defaultTtl s)
                   (console s ++ [prefix +:+ " " +:+ message error])).

Definition get (key : string) : M t (option ICache.Value) :=
  try_catch
    (let* value := redis_get key in
     match value with
     | None => ret None
     | Some entry => ret (Some (ICache.value entry))
     end)
    (λ error,
       console_error ("[Redis] Error getting key " +:+ key +:+ ":") error ;;;
       ret None).

Definition set (key : string) (value : ICache.Value) (ttlSeconds : option Z)
    : M t unit :=
  try_catch
    (let* fallback := gets defaultTtl in
     let ttl := default fallback ttlSeconds in
     redis_setex key ttl value)
    (λ error,
       console_error ("[Redis] Error setting key " +:+ key +:+ ":") error).

Definition delete (key : string) : M t unit :=
  try_catch
    (redis_del key ;;; ret tt)
    (λ error,
       console_error ("[Redis] Error deleting key " +:+ key +:+ ":") error).

Definition exists_ (key : string) : M t bool :=
  try_catch
    (let* result := redis_exists key in
     ret (bool_decide (result = 1)))
    (λ error,
       console_error
         ("[Redis] Error checking existence of key " +:+ key +:+ ":") error ;;;
       ret false).

#[global] Instance cache : ICache.t t := {|
  ICache.get := get;
  ICache.set := λ key value ttlSeconds, set key value (Some ttlSeconds);
  ICache.delete := delete;
  ICache.exists_ := exists_;
|}.
End RedisService.

(* ===================================================================== *)
(** * CachedSeatRepository (decorator)                                   *)
(* ===================================================================== *)

Module CachedSeatRepository.
Definition CACHE_KEYS_seat (id : string) : string := "seat:" +:+ id.
Definition CACHE_KEYS_eventSeats (eventId : string) : string :=
  "event:" +:+ eventId +:+ ":seats".

Definition DEFAULT_TTL_SECONDS : Z := 60.

(** The fields of the decorator: the wrapped repository, the cache, and
    the TTL given to the constructor. *)
Record t (R C : Type) := new {
  repository : R;
  cache : C;
  ttlSeconds : Z;
}.
Arguments new {R C} _ _ _.
Arguments repository {R C} _.
Arguments cache {R C} _.
Arguments ttlSeconds {R C} _.

Section Decorator.
Context {R : Type} `{!ISeatRepository.t R}.
Context {C : Type} `{!ICache.t C}.

(** [await this.repository.m(...)] *)
Definition on_repository {A} (c : M R A) : M (t R C) A :=
  λ s, let '(r, repo') := c (repository s) in
       (r, new repo' (cache s) (ttlSeconds s)).

(** [await this.cache.m(...)] *)
Definition on_cache {A} (c : M C A) : M (t R C) A :=
  λ s, let '(r, cache') := c (cache s) in
       (r, new (repository s) cache' (ttlSeconds s)).

(** The two key families are disjoint (see [CACHE_KEYS_disjoint]) and each
    is only written with its own shape, so a value of the other shape
    under a key is not met; it is read as a miss. *)
Definition findById (id : string) : M (t R C) (option Seat.t) :=
  let cacheKey := CACHE_KEYS_seat id in
  let* cached := on_cache (ICache.get cacheKey) in
  match cached with
  | Some (ICache.SeatValue p) => ret (Some (Seat.fromPersistence p))
  | _ =>
      let* seat := on_repository (ISeatRepository.findById id) in
      match seat with
      | None => ret None
      | Some seat =>
          let* ttl := gets ttlSeconds in
          on_cache (ICache.set cacheKey
                      (ICache.SeatValue (Seat.toJSON seat)) ttl) ;;;
          ret (Some seat)
      end
  end.

Definition findByEventId (eventId : string) : M (t R C) (list Seat.t) :=
  let cacheKey := CACHE_KEYS_eventSeats eventId in
  let* cached := on_cache (ICache.get cacheKey) in
  match cached with
  | Some (ICache.SeatListValue ps) => ret (Seat.fromPersistence <$> ps)
  | _ =>
      let* seats := on_repository (ISeatRepository.findByEventId eventId) in
      (if decide (0 < Z.of_nat (length seats)) then
         let* ttl := gets ttlSeconds in
         on_cache (ICache.set cacheKey
                     (ICache.SeatListValue (Seat.toJSON <$> seats)) ttl)
       else ret tt) ;;;
      ret seats
  end.

Definition findByIdWithVersion (id : string) (expectedVersion : Z)
    : M (t R C) (option Seat.t) :=
  on_repository (ISeatRepository.findByIdWithVersion id expectedVersion).

Definition save (seat : Seat.t) : M (t R C) Seat.t :=
  let* savedSeat := on_repository (ISeatRepository.save seat) in
  on_cache (ICache.delete (CACHE_KEYS_seat (Seat.id seat))) ;;;
  on_cache (ICache.delete (CACHE_KEYS_eventSeats (Seat.eventId seat))) ;;;
  ret savedSeat.

#[global] Instance repository_ : ISeatRepository.t (t R C) := {|
  ISeatRepository.findById := findById;
  ISeatRepository.findByEventId := findByEventId;
  ISeatRepository.save := save;
  ISeatRepository.findByIdWithVersion := findByIdWithVersion;
|}.
End Decorator.
End CachedSeatRepository.

(* ===================================================================== *)
(** * InMemorySeatRepository (test double)                               *)
(* ===================================================================== *)

Module InMemorySeatRepository.
(** A JavaScript [Map<string, Seat>]: it iterates in insertion order, and
    setting a present key keeps its place. *)
Abbreviation t := (list (string * Seat.t)).

Fixpoint Map_set (k : string) (v : Seat.t) (m : t) : t :=
  match m with
  | [] => [(k, v)]
  | (k', v') :: rest =>
      if decide (k' = k) then (k, v) :: rest else (k', v') :: Map_set k v rest
  end.

Fixpoint Map_get (k : string) (m : t) : option Seat.t :=
  match m with
  | [] => None
  | (k', v') :: rest => if decide (k' = k) then Some v' else Map_get k rest
  end.

Definition seed (seats : list Seat.t) (m : t) : t :=
  foldl (λ acc seat, Map_set (Seat.id seat) seat acc) m seats.

Definition clear (m : t) : t := [].

Definition findById (id : string) : M t (option Seat.t) :=
  gets (Map_get id).

Definition findByEventId (eventId : string) : M t (list Seat.t) :=
  gets (λ m : t, filter (λ seat, Seat.eventId seat = eventId) (m.*2)).

Definition save (seat : Seat.t) : M t Seat.t :=
  modify (Map_set (Seat.id seat) seat) ;;; ret seat.

Definition findByIdWithVersion (id : string) (expectedVersion : Z)
    : M t (option Seat.t) :=
  let* seat := gets (Map_get id) in
  match seat with
  | None => ret None
  | Some seat =>
      if decide (Seat.version seat ≠ expectedVersion) then ret None
      else ret (Some seat)
  end.

#[global] Instance repository : ISeatRepository.t t := {|
  ISeatRepository.findById := findById;
  ISeatRepository.findByEventId := findByEventId;
  ISeatRepository.save := save;
  ISeatRepository.findByIdWithVersion := findByIdWithVersion;
|}.
End InMemorySeatRepository.

(* ===================================================================== *)
(** * Domain events: src/core/events                                     *)
(* ===================================================================== *)

(** [new Date()] is a reading of the clock, in milliseconds. *)
Inductive DomainEvent :=
| SeatLockedEvent (seatId eventId userId seatNumber : string) (price : Z)
    (lockedAt expiresAt timestamp : Z) (correlationId : option string)
| SeatSoldEvent (seatId eventId userId seatNumber : string) (price : Z)
    (soldAt timestamp : Z) (correlationId : option string).

Definition eventType (e : DomainEvent) : string :=
  match e with
  | SeatLockedEvent _ _ _ _ _ _ _ _ _ => "SEAT_LOCKED"
  | SeatSoldEvent _ _ _ _ _ _ _ _ => "SEAT_SOLD"
  end.

Definition correlationId (e : DomainEvent) : option string :=
  match e with
  | SeatLockedEvent _ _ _ _ _ _ _ _ c => c
  | SeatSoldEvent _ _ _ _ _ _ _ c => c
  end.

Definition createSeatLockedEvent (seatId eventId userId seatNumber : string)
    (price : Z) (lockDurationMs : option Z) (correlationId : option string)
    (now : Z) : DomainEvent :=
  let lockDuration := default (15 * 60 * 1000) lockDurationMs in
  SeatLockedEvent seatId eventId userId seatNumber price
    now (now + lockDuration) now correlationId.

Definition createSeatSoldEvent (seatId eventId userId seatNumber : string)
    (price : Z) (correlationId : option string) (now : Z) : DomainEvent :=
  SeatSoldEvent seatId eventId userId seatNumber price now now correlationId.

(** [EVENT_QUEUES] of src/core/events/DomainEvent.ts: the two queue names the
    booking service publishes to. *)
Record EventQueues := {
  NOTIFICATION : string;
  TICKET_GENERATION : string;
}.

Module IEventPublisher.
Class t (P : Type) := {
  publish : string → DomainEvent → M P unit;
}.
End IEventPublisher.

(* ===================================================================== *)
(** * RabbitMQClient: src/infrastructure/messaging/RabbitMQClient.ts     *)
(* ===================================================================== *)

Module RabbitMQClient.
Record RetryConfig := {
  maxRetries : nat;
  initialDelayMs : Z;
  maxDelayMs : Z;
  backoffMultiplier : Z;
}.

Definition DEFAULT_RETRY_CONFIG : RetryConfig :=
  {| maxRetries := 5; initialDelayMs := 1000; maxDelayMs := 30000;
     backoffMultiplier := 2 |}.

(** What one pass through the body of the retry loop meets. *)
Inductive AttemptOutcome :=
| ConnectFails (msg : string)
| CreateChannelFails (msg : string)
| Connects.

(** [amqp.Options.Publish], as far as the repository uses it: the two
    fields the client has defaults for, and the headers.  A field that is
    absent is [None].  (The [timestamp] the client adds and the fields of
    the library that nothing here sets are left out.) *)
Record PublishOptions := {
  o_persistent : option bool;
  o_contentType : option string;
  o_headers : option (list (string * string));
}.

(** [{ headers }] *)
Definition headers_only (headers : list (string * string)) : PublishOptions :=
  {| o_persistent := None; o_contentType := None; o_headers := Some headers |}.

(** A message as the channel was given it. *)
Record Published := {
  p_queue : string;
  p_message : DomainEvent;
  p_persistent : bool;
  p_contentType : string;
  p_headers : list (string * string);
}.

(** The amqplib side: how the next connection attempts go, whether
    [assertQueue] and [sendToQueue] throw, and what has been handed to the
    broker. *)
Record Amqp := {
  attempts : list AttemptOutcome;
  assertQueue_error : option string;
  sendToQueue_outcome : Result bool;
  sent : list Published;
}.

Record t := {
  connection : bool;
  channel : bool;
  retryConfig : RetryConfig;
  isConnecting : bool;
  assertedQueues : gset string;
  amqp : Amqp;
  slept : list Z;
  console : list string;
}.

Definition set_link (conn chan : bool) (s : t) : t :=
  {| connection := conn; channel := chan; retryConfig := retryConfig s;
     isConnecting := isConnecting s; assertedQueues := assertedQueues s;
     amqp := amqp s; slept := slept s; console := console s |}.

Definition set_isConnecting (b : bool) (s : t) : t :=
  {| connection := connection s; channel := channel s;
     retryConfig := retryConfig s; isConnecting := b;
     assertedQueues := assertedQueues s; amqp := amqp s; slept := slept s;
     console := console s |}.

Definition set_assertedQueues (q : gset string) (s : t) : t :=
  {| connection := connection s; channel := channel s;
     retryConfig := retryConfig s; isConnecting := isConnecting s;
     assertedQueues := q; amqp := amqp s; slept := slept s;
     console := console s |}.

Definition set_amqp (a : Amqp) (s : t) : t :=
  {| connection := connection s; channel := channel s;
     retryConfig := retryConfig s; isConnecting := isConnecting s;
     assertedQueues := assertedQueues s; amqp := a; slept := slept s;
     console := console s |}.

Definition sleep (ms : Z) : M t unit :=
  modify (λ s,
    {| connection := connection s; channel := channel s;
       retryConfig := retryConfig s; isConnecting := isConnecting s;
       assertedQueues := assertedQueues s; amqp := amqp s;
       slept := slept s ++ [ms]; console := console s |}).

Definition console_log (line : string) : M t unit :=
  modify (λ s,
    {| connection := connection s; channel := channel s;
       retryConfig := retryConfig s; isConnecting := isConnecting s;
       assertedQueues := assertedQueues s; amqp := amqp s;
       slept := slept s; console := console s ++ [line] |}).

(** The next attempt of [amqp.connect] followed by [createChannel]; with
    nothing listening the connection is refused. *)
Definition next_attempt : M t AttemptOutcome :=
  λ s, match attempts (amqp s) with
       | [] => (Ok (ConnectFails "connect ECONNREFUSED"), s)
       | o :: rest =>
           (Ok o, set_amqp {| attempts := rest;
                              assertQueue_error := assertQueue_error (amqp s);
                              sendToQueue_outcome := sendToQueue_outcome (amqp s);
                              sent := sent (amqp s) |} s)
       end.

Definition isConnected (s : t) : bool := connection s && channel s.

Definition handleDisconnect : M t unit :=
  modify (λ s, set_assertedQueues ∅ (set_link false false s)).

(** [waitForConnection]: nothing else runs while this call waits, so
    [isConnecting] keeps its value until the timeout. *)
Definition waitForConnection : M t unit :=
  let* connected := gets isConnected in
  if connected then ret tt else throw (Error_ "[RabbitMQ] Connection timeout").

(** The [for] loop of [connect], with [remaining] iterations left;
    [attempt < maxRetries] holds exactly when another iteration follows. *)
Fixpoint connect_loop (remaining : nat) (delay : Z) (lastError : option string)
    : M t unit :=
  match remaining with
  | O =>
      modify (set_isConnecting false) ;;;
      let* cfg := gets retryConfig in
      throw (Error_ ("[RabbitMQ] Failed to connect after "
                       +:+ pretty (maxRetries cfg) +:+ " attempts: "
                       +:+ default "undefined" lastError))
  | S k =>
      let* outcome := next_attempt in
      let retry (msg : string) : M t unit :=
        console_log ("[RabbitMQ] Connection attempt failed: " +:+ msg) ;;;
        match k with
        | O => connect_loop k delay (Some msg)
        | S _ =>
            sleep delay ;;;
            let* cfg := gets retryConfig in
            connect_loop k
              (Z.min (delay * backoffMultiplier cfg) (maxDelayMs cfg))
              (Some msg)
        end in
      match outcome with
      | Connects =>
          modify (set_link true true) ;;;
          console_log "[RabbitMQ] Connected successfully" ;;;
          modify (set_isConnecting false)
      | ConnectFails msg => retry msg
      | CreateChannelFails msg =>
          modify (λ s, set_link true (channel s) s) ;;; retry msg
      end
  end.

Definition connect : M t unit :=
  let* connected := gets isConnected in
  if connected then ret tt
  else
    let* connecting := gets isConnecting in
    if connecting then waitForConnection
    else
      modify (set_isConnecting true) ;;;
      let* cfg := gets retryConfig in
      connect_loop (maxRetries cfg) (initialDelayMs cfg) None.

Definition ensureConnection : M t unit :=
  let* connected := gets isConnected in
  if connected then ret tt else connect.

Definition assertQueue (queue : string) : M t unit :=
  let* err := gets (λ s, assertQueue_error (amqp s)) in
  match err with
  | Some msg => throw (Error_ msg)
  | None => ret tt
  end.

(** [channel.sendToQueue(queue, buffer, options)], with the options already
    merged. *)
Definition sendToQueue (queue : string) (message : DomainEvent)
    (persistent : bool) (contentType : string)
    (headers : list (string * string)) : M t bool :=
  λ s, match sendToQueue_outcome (amqp s) with
       | Err e => (Err e, s)
       | Ok b =>
           (Ok b,
            set_amqp {| attempts := attempts (amqp s);
                        assertQueue_error := assertQueue_error (amqp s);
                        sendToQueue_outcome := sendToQueue_outcome (amqp s);
                        sent := sent (amqp s) ++
                          [{| p_queue := queue; p_message := message;
                              p_persistent := persistent;
                              p_contentType := contentType;
                              p_headers := headers |}] |} s)
       end.

(** [options?: amqp.Options.Publish], spread after the defaults
    [{ persistent: true, contentType: 'application/json', ...options }]: a
    field the caller gives replaces the default. *)
Definition publish (queue : string) (message : DomainEvent)
    (options : option PublishOptions) : M t bool :=
  ensureConnection ;;;
  let* chan := gets channel in
  if negb chan then throw (Error_ "[RabbitMQ] Channel not available")
  else
    let* asserted := gets (λ s, bool_decide (queue ∈ assertedQueues s)) in
    (if asserted then ret tt
     else
       assertQueue queue ;;;
       modify (λ s, set_assertedQueues ({[queue]} ∪ assertedQueues s) s)) ;;;
    let* published :=
      sendToQueue queue message
        (default true (options ≫= o_persistent))
        (default "application/json" (options ≫= o_contentType))
        (default [] (options ≫= o_headers)) in
    (if published
     then console_log ("[RabbitMQ] Published message to queue '" +:+ queue +:+ "'")
     else console_log ("[RabbitMQ] Message buffered (queue '" +:+ queue +:+ "' full)")) ;;;
    ret published.
End RabbitMQClient.

(* ===================================================================== *)
(** * RabbitMQEventPublisher and NoOpEventPublisher                      *)
(* ===================================================================== *)

Module RabbitMQEventPublisher.
Inductive Level := info | error.

Record LogLine := { level : Level; text : string; meta : list (string * string) }.

(** The client, the ambient request context ([getCorrelationId] reads it
    and falls back on a generated identifier) and the logger's output. *)
Record t := new {
  client : RabbitMQClient.t;
  requestContext : option string;
  uuidv4 : string;
  logger : list LogLine;
}.

Definition getCorrelationId (s : t) : string :=
  default (uuidv4 s) (requestContext s).

Definition on_client {A} (c : M RabbitMQClient.t A) : M t A :=
  λ s, let '(r, client') := c (client s) in
       (r, new client' (requestContext s) (uuidv4 s) (logger s)).

Definition log (l : Level) (msg : string) (m : list (string * string))
    : M t unit :=
  modify (λ s, new (client s) (requestContext s) (uuidv4 s)
                   (logger s ++ [{| level := l; text := msg; meta := m |}])).

Definition publish (queue : string) (event : DomainEvent) : M t unit :=
  try_catch
    (let* ambient := gets getCorrelationId in
     let correlationId' := default ambient (correlationId event) in
     on_client (RabbitMQClient.publish queue event
                  (Some (RabbitMQClient.headers_only
                           [("x-correlation-id", correlationId')]))) ;;;
     log info "Event published"
       [("eventType", eventType event); ("queue", queue)])
    (λ err,
       log error "Failed to publish event"
         [("eventType", eventType event); ("queue", queue);
          ("error", message err)]).

#[global] Instance publisher : IEventPublisher.t t := {|
  IEventPublisher.publish := publish;
|}.
End RabbitMQEventPublisher.

Module NoOpEventPublisher.
Definition publish (_queue : string) (_event : DomainEvent) : M unit unit :=
  ret tt.

#[global] Instance publisher : IEventPublisher.t unit := {|
  IEventPublisher.publish := publish;
|}.
End NoOpEventPublisher.

(* ===================================================================== *)
(** * BookingService: src/core/services/BookingService.ts                *)
(* ===================================================================== *)

Module BookingService.
(** The service's two collaborators, the clock read by [new Date()], and
    the lines written with [console.error]. *)
Record t (R P : Type) := new {
  seatRepository : R;
  eventPublisher : P;
  clock : Z;
  console : list string;
}.
Arguments new {R P} _ _ _ _.
Arguments seatRepository {R P} _.
Arguments eventPublisher {R P} _.
Arguments clock {R P} _.
Arguments console {R P} _.

Section Service.
Context {R : Type} `{!ISeatRepository.t R}.
Context {P : Type}.
(** [private readonly eventPublisher?: IEventPublisher] *)
Variable publisher : option (IEventPublisher.t P).
Variable EVENT_QUEUES : EventQueues.

Definition on_seatRepository {A} (c : M R A) : M (t R P) A :=
  λ s, let '(r, repo') := c (seatRepository s) in
       (r, new repo' (eventPublisher s) (clock s) (console s)).

(** [publish(...).catch(err => console.error(prefix, err))], not awaited:
    whatever the promise settles to, the caller goes on. *)
Definition fire_and_forget (c : M P unit) (prefix : string) : M (t R P) unit :=
  λ s, match c (eventPublisher s) with
       | (Ok _, pub') =>
           (Ok tt, new (seatRepository s) pub' (clock s) (console s))
       | (Err err, pub') =>
           (Ok tt, new (seatRepository s) pub' (clock s)
                       (console s ++ [prefix +:+ " " +:+ message err]))
       end.

Definition lockSeat (seatId userId : string) : M (t R P) Seat.t :=
  let* seat := on_seatRepository (ISeatRepository.findById seatId) in
  match seat with
  | None => throw (SeatNotFoundError seatId)
  | Some seat =>
      if negb (Seat.isAvailable seat) then
        throw (SeatNotAvailableError seatId (SeatStatus_str (Seat.status seat)))
      else
        let* lockedSeat := of_result (Seat.lock userId seat) in
        on_seatRepository (ISeatRepository.save lockedSeat) ;;;
        match publisher with
        | Some pub =>
            let* now := gets clock in
            let event :=
              createSeatLockedEvent (Seat.id lockedSeat)
                (Seat.eventId lockedSeat) userId
                (Seat.seatNumber lockedSeat) (Seat.price lockedSeat)
                None None now in
            fire_and_forget
              (@IEventPublisher.publish P pub (NOTIFICATION EVENT_QUEUES) event)
              "[BookingService] Failed to publish SeatLockedEvent:"
        | None => ret tt
        end ;;;
        ret lockedSeat
  end.

Definition releaseSeat (seatId userId : string) : M (t R P) Seat.t :=
  let* seat := on_seatRepository (ISeatRepository.findById seatId) in
  match seat with
  | None => throw (SeatNotFoundError seatId)
  | Some seat =>
      if negb (Seat.isLockedBy userId seat) then
        throw (UnauthorizedLockError userId seatId)
      else
        let* releasedSeat := of_result (Seat.release seat) in
        on_seatRepository (ISeatRepository.save releasedSeat) ;;;
        ret releasedSeat
  end.

Definition confirmSale (seatId userId : string) : M (t R P) Seat.t :=
  let* seat := on_seatRepository (ISeatRepository.findById seatId) in
  match seat with
  | None => throw (SeatNotFoundError seatId)
  | Some seat =>
      if negb (Seat.isLockedBy userId seat) then
        throw (UnauthorizedLockError userId seatId)
      else
        let* soldSeat := of_result (Seat.sell seat) in
        on_seatRepository (ISeatRepository.save soldSeat) ;;;
        match publisher with
        | Some pub =>
            let* now := gets clock in
            let event :=
              createSeatSoldEvent (Seat.id soldSeat)
                (Seat.eventId soldSeat) userId
                (Seat.seatNumber soldSeat) (Seat.price soldSeat)
                None now in
            fire_and_forget
              (@IEventPublisher.publish P pub (TICKET_GENERATION EVENT_QUEUES)
                 event)
              "[BookingService] Failed to publish SeatSoldEvent:"
        | None => ret tt
        end ;;;
        ret soldSeat
  end.
End Service.
End BookingService.

(* ===================================================================== *)
(** * The background worker: src/worker.ts                               *)
(* ===================================================================== *)

Module Worker.
(** A delivered message: the [x-correlation-id] header if present, and the
    bytes of the body. *)
Record ConsumeMessage := {
  deliveryTag : Z;
  header_correlationId : option string;
  content : string;
}.

#[global] Instance ConsumeMessage_eq_dec : EqDecision ConsumeMessage.
Proof. solve_decision. Defined.

(** The body of a SeatSoldEvent once parsed. *)
Record MessageContent := {
  seatId : string;
  eventId : string;
  userId : string;
  seatNumber : string;
  price : Z;
  soldAt : string;
  body_correlationId : option string;
}.

(** The queue as the consumer's channel sees it, under [prefetch(1)] and
    [noAck: false]: the messages waiting, and the one delivered and not yet
    settled.  [ack] removes the message for good; [nack] with [requeue]
    puts it back on the queue, without it the broker discards it. *)
Record Channel := {
  ready : list ConsumeMessage;
  unacked : option ConsumeMessage;
}.

Inductive Settlement :=
| Ack (msg : ConsumeMessage)
| Nack (msg : ConsumeMessage) (allUpTo requeue : bool).

(** The worker's view: the channel, the module variable
    [currentCorrelationId], and three traces kept for the properties: the
    settlements sent on the channel, the tasks entered, and the log. *)
Record t := new {
  channel : Channel;
  currentCorrelationId : string;
  settlements : list Settlement;
  tasks : list string;
  logger : list string;
}.

Definition set_channel (c : Channel) (s : t) : t :=
  new c (currentCorrelationId s) (settlements s) (tasks s) (logger s).

Definition set_currentCorrelationId (c : string) : M t unit :=
  modify (λ s, new (channel s) c (settlements s) (tasks s) (logger s)).

Definition log (line : string) : M t unit :=
  modify (λ s, new (channel s) (currentCorrelationId s) (settlements s)
                   (tasks s) (logger s ++ [line])).

Definition task_started (name : string) : M t unit :=
  modify (λ s, new (channel s) (currentCorrelationId s) (settlements s)
                   (tasks s ++ [name]) (logger s)).

Definition settle (x : Settlement) (c : Channel) : Channel :=
  match x with
  | Ack msg =>
      {| ready := ready c;
         unacked := if decide (unacked c = Some msg) then None else unacked c |}
  | Nack msg _ requeue =>
      {| ready := if requeue then msg :: ready c else ready c;
         unacked := if decide (unacked c = Some msg) then None else unacked c |}
  end.

Definition channel_ack (msg : ConsumeMessage) : M t unit :=
  modify (λ s, new (settle (Ack msg) (channel s)) (currentCorrelationId s)
                   (settlements s ++ [Ack msg]) (tasks s) (logger s)).

Definition channel_nack (msg : ConsumeMessage) (allUpTo requeue : bool)
    : M t unit :=
  modify (λ s, new (settle (Nack msg allUpTo requeue) (channel s))
                   (currentCorrelationId s)
                   (settlements s ++ [Nack msg allUpTo requeue])
                   (tasks s) (logger s)).

(** [try { c } finally { f }] *)
Definition try_finally {A} (c : M t A) (f : M t unit) : M t A :=
  λ s, match c s with
       | (r, s') => match f s' with
                    | (Ok _, s'') => (r, s'')
                    | (Err e, s'') => (Err e, s'')
                    end
       end.

Section Handler.
(** [JSON.parse(msg.content.toString())], which throws on a body that is
    not JSON. *)
Variable JSON_parse : string → Result MessageContent.
(** [uuidv4()] *)
Variable uuidv4 : string.
(** The work awaited inside each of the two downstream tasks.  The source
    simulates it with a timer, which never fails ([simulated_work] below);
    it is taken as a parameter so that a task may throw. *)
Variable pdf_work : string → string → Result unit.
Variable email_work : string → string → Result unit.

Definition generatePDF (seatId seatNumber : string) : M t unit :=
  log ("Generating PDF for Seat " +:+ seatNumber) ;;;
  of_result (pdf_work seatId seatNumber) ;;;
  log ("PDF generated for Seat " +:+ seatNumber).

Definition sendEmailNotification (userId seatNumber : string) : M t unit :=
  log "Sending email" ;;;
  of_result (email_work userId seatNumber) ;;;
  log "Email sent to user".

Definition processSeatSoldEvent (message : MessageContent) : M t unit :=
  log "Processing SeatSoldEvent" ;;;
  task_started "generatePDF" ;;;
  generatePDF (seatId message) (seatNumber message) ;;;
  task_started "sendEmailNotification" ;;;
  sendEmailNotification (userId message) (seatNumber message) ;;;
  log "All processing complete".

(** The callback given to [channel.consume]; [None] is the [null] the
    library passes when the consumer is cancelled. *)
Definition on_message (msg : option ConsumeMessage) : M t unit :=
  match msg with
  | None => ret tt
  | Some msg =>
      try_finally
        (try_catch
           (let correlationIdFromHeader := header_correlationId msg in
            let* messageContent := of_result (JSON_parse (content msg)) in
            set_currentCorrelationId
              (default (default uuidv4 (body_correlationId messageContent))
                 correlationIdFromHeader) ;;;
            log "Message received" ;;;
            processSeatSoldEvent messageContent ;;;
            channel_ack msg ;;;
            log "Processing complete")
           (λ err,
              log ("Error processing message: " +:+ message err) ;;;
              channel_nack msg false true ;;;
              log "Message requeued for retry"))
        (set_currentCorrelationId "idle")
  end.

(** The broker hands over the next waiting message when none is
    outstanding, and the callback runs on it. *)
Definition deliver : M t unit :=
  λ s, match unacked (channel s), ready (channel s) with
       | None, msg :: rest =>
           on_message (Some msg)
             (set_channel {| ready := rest; unacked := Some msg |} s)
       | _, _ => (Ok tt, s)
       end.
End Handler.

(** [await new Promise((resolve) => setTimeout(resolve, ms))] *)
Definition simulated_work (_ _ : string) : Result unit := Ok tt.
End Worker.

(* ===================================================================== *)
(** * GET /api/v1/events/[eventId]/seats                                 *)
(* ===================================================================== *)

Module SeatsRoute.
Inductive Response :=
| Json (status : Z) (body : list Seat.t)
| JsonError (status : Z) (error : string).

Section Route.
(** The repository [getSeatRepository()] hands out. *)
Context {R : Type} `{!ISeatRepository.t R}.
(** [a.localeCompare(b, undefined, { numeric: true })]: the comparison is
    the runtime's, by its collator for the default locale; [sort] reads
    the sign of the number it returns. *)
Variable localeCompare : string → string → Z.

(** The order the comparator of [seats.sort(...)] induces on seats. *)
Definition numeric_asc (a b : Seat.t) : Prop :=
  localeCompare (Seat.seatNumber a) (Seat.seatNumber b) ≤ 0.

#[global] Instance numeric_asc_dec a b : Decision (numeric_asc a b).
Proof. unfold numeric_asc. apply _. Defined.

Definition GET (eventId : string) : M R Response :=
  try_catch
    (if decide (eventId = "") then
       ret (JsonError 400 "Event ID is required")
     else
       let* seats := ISeatRepository.findByEventId eventId in
       let sortedSeats := merge_sort numeric_asc seats in
       ret (Json 200 sortedSeats))
    (λ _, ret (JsonError 500 "Internal Server Error")).
End Route.
End SeatsRoute.

(* ===================================================================== *)
(** * Vocabulary of the properties                                       *)
(* ===================================================================== *)

(** The seats one gets from [Seat.create] by [lock], [sell] and [release]. *)
Inductive reachable : Seat.t → Prop :=
| reachable_create id eventId seatNumber price :
    reachable (Seat.create id eventId seatNumber price)
| reachable_lock userId s s' :
    reachable s → Seat.lock userId s = Ok s' → reachable s'
| reachable_sell s s' :
    reachable s → Seat.sell s = Ok s' → reachable s'
| reachable_release s s' :
    reachable s → Seat.release s = Ok s' → reachable s'.

(** The three requests of the booking service and the entity method each
    one applies. *)
Inductive Transition := Lock | Sell | Release.

Definition transition (tr : Transition) (userId : string) (s : Seat.t)
    : Result Seat.t :=
  match tr with
  | Lock => Seat.lock userId s
  | Sell => Seat.sell s
  | Release => Seat.release s
  end.

(** The service over the Prisma repository behind the cache decorator.
    [Wired] is the production wiring of src/app/api/container.ts, whose
    cache is the Redis service; [App] is the same wiring with the cache of
    the interface's contract, that is, while Redis carries out every
    command. *)
Abbreviation App P :=
  (BookingService.t (CachedSeatRepository.t Prisma.Database CacheContract.t) P).
Abbreviation Wired P :=
  (BookingService.t (CachedSeatRepository.t Prisma.Database RedisService.t) P).

Definition request {R} `{!ISeatRepository.t R} {P}
    (publisher : option (IEventPublisher.t P))
    (Q : EventQueues) (tr : Transition) (seatId userId : string)
    : M (BookingService.t R P) Seat.t :=
  match tr with
  | Lock => BookingService.lockSeat publisher Q seatId userId
  | Sell => BookingService.confirmSale publisher Q seatId userId
  | Release => BookingService.releaseSeat seatId userId
  end.

(** The error a request answers with when the seat it read does not admit
    the transition. *)
Definition rejection (tr : Transition) (seatId userId : string) (s : Seat.t)
    : JsError :=
  match tr with
  | Lock => SeatNotAvailableError seatId (SeatStatus_str (Seat.status s))
  | Sell | Release => UnauthorizedLockError userId seatId
  end.

(** The guard each request puts before the entity method. *)
Definition admits (tr : Transition) (userId : string) (s : Seat.t) : bool :=
  match tr with
  | Lock => Seat.isAvailable s
  | Sell | Release => Seat.isLockedBy userId s
  end.

(** The database, its rows of table "seats", and the cache behind a
    service. *)
Definition database {C P}
    (st : BookingService.t (CachedSeatRepository.t Prisma.Database C) P)
    : Prisma.Database :=
  CachedSeatRepository.repository (BookingService.seatRepository st).

Definition durable {C P}
    (st : BookingService.t (CachedSeatRepository.t Prisma.Database C) P)
    : Prisma.Table :=
  Prisma.seats (database st).

Definition cached {P} (st : App P) : ICache.Store :=
  CachedSeatRepository.cache (BookingService.seatRepository st).

(** What Redis holds behind a decorator wired to the Redis service, and how
    its next commands go. *)
Definition redis_entries {R} (s : CachedSeatRepository.t R RedisService.t)
    : ICache.Store :=
  RedisService.entries (RedisService.redis (CachedSeatRepository.cache s)).

Definition redis_replies {R} (s : CachedSeatRepository.t R RedisService.t)
    : list RedisService.Reply :=
  RedisService.replies (RedisService.redis (CachedSeatRepository.cache s)).

(** Redis carries out the command that comes [n] commands from now. *)
Definition serves (n : nat) (replies : list RedisService.Reply) : Prop :=
  ∀ error, replies !! n ≠ Some (RedisService.Rejected error).

#[global] Instance serves_dec n replies : Decision (serves n replies).
Proof.
  unfold serves. destruct (replies !! n) as [[|error]|].
  - left. by intros error.
  - right. intros H. by apply (H error).
  - left. by intros error.
Defined.

(** The seat a row stands for, and the columns a seat is stored as. *)
Definition seat_of_row (id : string) (c : Prisma.Columns) : Seat.t :=
  PrismaSeatRepository.mapToDomain (Prisma.row id c).

Definition columns_of_seat (s : Seat.t) : Prisma.Columns :=
  {| Prisma.c_eventId := Seat.eventId s;
     Prisma.c_seatNumber := Seat.seatNumber s;
     Prisma.c_status := PrismaSeatRepository.mapDomainStatusToPrisma (Seat.status s);
     Prisma.c_price := Seat.price s;
     Prisma.c_userId := Seat.userId s;
     Prisma.c_version := Seat.version s |}.

(** What the conditional update writes into a row: status, holder and
    version; the other columns stay. *)
Definition updated (c : Prisma.Columns) (s : Seat.t) : Prisma.Columns :=
  {| Prisma.c_eventId := Prisma.c_eventId c;
     Prisma.c_seatNumber := Prisma.c_seatNumber c;
     Prisma.c_status := PrismaSeatRepository.mapDomainStatusToPrisma (Seat.status s);
     Prisma.c_price := Prisma.c_price c;
     Prisma.c_userId := Seat.userId s;
     Prisma.c_version := Seat.version s |}.

(** Every cached seat is the row of that id as it stands in the table. *)
Definition mirrors (db : Prisma.Table) (cache : ICache.Store) : Prop :=
  ∀ id e, cache !! CachedSeatRepository.CACHE_KEYS_seat id = Some e →
    ∃ c, db !! id = Some c ∧
         ICache.value e = ICache.SeatValue (Seat.toJSON (seat_of_row id c)).

(** Versions start at 1. *)
Definition positive_versions (db : Prisma.Table) : Prop :=
  ∀ id c, db !! id = Some c → 1 ≤ Prisma.c_version c.

Definition coherent (s : CachedSeatRepository.t Prisma.Database CacheContract.t)
    : Prop :=
  mirrors (Prisma.seats (CachedSeatRepository.repository s))
    (CachedSeatRepository.cache s)
  ∧ positive_versions (Prisma.seats (CachedSeatRepository.repository s)).

(** A cache none of whose methods throws. *)
Class Quiet (C : Type) `{!ICache.t C} : Prop := {
  get_returns key (c : C) : ∃ v c', ICache.get key c = (Ok v, c');
  set_returns key v ttl (c : C) : ∃ c', ICache.set key v ttl c = (Ok tt, c');
  delete_returns key (c : C) : ∃ c', ICache.delete key c = (Ok tt, c');
}.

(** The same of the wiring with the Redis service. *)
Definition wired_coherent (s : CachedSeatRepository.t Prisma.Database RedisService.t)
    : Prop :=
  mirrors (Prisma.seats (CachedSeatRepository.repository s)) (redis_entries s)
  ∧ positive_versions (Prisma.seats (CachedSeatRepository.repository s)).

(* ===================================================================== *)
(** * Sample data                                                        *)
(* ===================================================================== *)

Module Sample.
Definition queues : EventQueues :=
  {| NOTIFICATION := "notification_queue";
     TICKET_GENERATION := "ticket_generation_queue" |}.

(** Seat s1 of event evt-1, as seed.sql creates it. *)
Definition available_s1 : Prisma.Columns :=
  {| Prisma.c_eventId := "evt-1"; Prisma.c_seatNumber := "A-1";
     Prisma.c_status := Prisma.P_AVAILABLE; Prisma.c_price := 1500;
     Prisma.c_userId := None; Prisma.c_version := 1 |}.

(** The same seat once u1 holds it. *)
Definition locked_s1 : Prisma.Columns :=
  {| Prisma.c_eventId := "evt-1"; Prisma.c_seatNumber := "A-1";
     Prisma.c_status := Prisma.P_LOCKED; Prisma.c_price := 1500;
     Prisma.c_userId := Some "u1"; Prisma.c_version := 2 |}.

(** A database with the C collation, which compares code point by code
    point, holding event evt-1 and the given seats. *)
Definition database (seats : Prisma.Table) : Prisma.Database :=
  {| Prisma.collate := String.leb;
     Prisma.events := {[ "evt-1" ]};
     Prisma.seats := seats |}.

Definition db_available : Prisma.Database := database {[ "s1" := available_s1 ]}.
Definition db_locked : Prisma.Database := database {[ "s1" := locked_s1 ]}.

(** Two seats of one event whose numbers differ in the length of their
    digits. *)
Definition db_two_seats : Prisma.Database :=
  database
  {[ "s2" := {| Prisma.c_eventId := "evt-1"; Prisma.c_seatNumber := "A-2";
                Prisma.c_status := Prisma.P_AVAILABLE; Prisma.c_price := 1500;
                Prisma.c_userId := None; Prisma.c_version := 1 |};
     "s10" := {| Prisma.c_eventId := "evt-1"; Prisma.c_seatNumber := "A-10";
                 Prisma.c_status := Prisma.P_AVAILABLE; Prisma.c_price := 1500;
                 Prisma.c_userId := None; Prisma.c_version := 1 |} ]}.

(** A broker that nobody listens on, and one that accepts everything. *)
Definition amqp_down : RabbitMQClient.Amqp :=
  {| RabbitMQClient.attempts := [];
     RabbitMQClient.assertQueue_error := None;
     RabbitMQClient.sendToQueue_outcome := Ok true;
     RabbitMQClient.sent := [] |}.

Definition amqp_up : RabbitMQClient.Amqp :=
  {| RabbitMQClient.attempts := [RabbitMQClient.Connects];
     RabbitMQClient.assertQueue_error := None;
     RabbitMQClient.sendToQueue_outcome := Ok true;
     RabbitMQClient.sent := [] |}.

Definition client (a : RabbitMQClient.Amqp) : RabbitMQClient.t :=
  {| RabbitMQClient.connection := false;
     RabbitMQClient.channel := false;
     RabbitMQClient.retryConfig := RabbitMQClient.DEFAULT_RETRY_CONFIG;
     RabbitMQClient.isConnecting := false;
     RabbitMQClient.assertedQueues := ∅;
     RabbitMQClient.amqp := a;
     RabbitMQClient.slept := [];
     RabbitMQClient.console := [] |}.

Definition publisher_state (a : RabbitMQClient.Amqp) : RabbitMQEventPublisher.t :=
  RabbitMQEventPublisher.new (client a) (Some "req-1") "generated-uuid" [].

(** The service over a database, with the cache of the contract, empty. *)
Definition app (db : Prisma.Database) (a : RabbitMQClient.Amqp)
    : App RabbitMQEventPublisher.t :=
  BookingService.new
    (CachedSeatRepository.new db ∅ 60) (publisher_state a) 1000 [].

(** The decorator and the service as container.ts wires them, over a
    database: Redis holds [entries] and answers the next commands with
    [replies]. *)
Definition wired_repository (db : Prisma.Database) (entries : ICache.Store)
    (replies : list RedisService.Reply)
    : CachedSeatRepository.t Prisma.Database RedisService.t :=
  CachedSeatRepository.new db
    (RedisService.new
       {| RedisService.entries := entries; RedisService.replies := replies |}
       60 [])
    60.

Definition wired (db : Prisma.Database) (entries : ICache.Store)
    (replies : list RedisService.Reply) (a : RabbitMQClient.Amqp)
    : Wired RabbitMQEventPublisher.t :=
  BookingService.new (wired_repository db entries replies) (publisher_state a)
    1000 [].

Definition rabbit : option (IEventPublisher.t RabbitMQEventPublisher.t) :=
  Some RabbitMQEventPublisher.publisher.

(** A seat record that names row s1 but carries another event, number and
    price. *)
Definition relabelled_s1 : Seat.t :=
  Seat.fromPersistence
    {| SeatProps.id := "s1"; SeatProps.status := LOCKED;
       SeatProps.userId := Some "u1"; SeatProps.version := 2;
       SeatProps.price := 99; SeatProps.seatNumber := "B-7";
       SeatProps.eventId := "evt-2" |}.

Definition locked_seat : Seat.t :=
  Seat.fromPersistence
    {| SeatProps.id := "s1"; SeatProps.status := LOCKED;
       SeatProps.userId := Some "u1"; SeatProps.version := 2;
       SeatProps.price := 1500; SeatProps.seatNumber := "A-1";
       SeatProps.eventId := "evt-1" |}.


(** A decorator whose cache holds seat s1 and the list of its event as they
    were read before the lock. *)
Definition cached_before_lock
    : CachedSeatRepository.t Prisma.Database CacheContract.t :=
  CachedSeatRepository.new db_available
    {[ "seat:s1" :=
         ICache.mkEntry (ICache.SeatValue (Seat.toJSON (seat_of_row "s1" available_s1))) 60;
       "event:evt-1:seats" :=
         ICache.mkEntry
           (ICache.SeatListValue [Seat.toJSON (seat_of_row "s1" available_s1)]) 60 ]}
    60.

(** A delivered SeatSoldEvent and the body its content parses to. *)
Definition sold_message : Worker.ConsumeMessage :=
  {| Worker.deliveryTag := 1;
     Worker.header_correlationId := Some "req-1";
     Worker.content := "{seat sold}" |}.

Definition sold_body : Worker.MessageContent :=
  {| Worker.seatId := "s1"; Worker.eventId := "evt-1"; Worker.userId := "u1";
     Worker.seatNumber := "A-1"; Worker.price := 1500;
     Worker.soldAt := "2026-01-04T21:11:42.000Z";
     Worker.body_correlationId := None |}.

Definition parse (content : string) : Result Worker.MessageContent :=
  if decide (content = "{seat sold}") then Ok sold_body
  else Err (Error_ "Unexpected token in JSON").

Definition idle_worker : Worker.t :=
  Worker.new {| Worker.ready := []; Worker.unacked := None |} "startup" [] [] [].

Definition sold_seat : Seat.t :=
  Seat.fromPersistence
    {| SeatProps.id := "s1"; SeatProps.status := SOLD;
       SeatProps.userId := Some "u1"; SeatProps.version := 3;
       SeatProps.price := 1500; SeatProps.seatNumber := "A-1";
       SeatProps.eventId := "evt-1" |}.
(** A comparator for the examples of the seats route: the order of the
    strings' characters.  It stands for no collator of a runtime; the
    properties of the route are stated for any comparator. *)
Definition compare_characters (a b : string) : Z :=
  if String.leb a b then (if String.leb b a then 0 else -1) else 1.
End Sample.

(* ===================================================================== *)
(** * Vocabulary of the further properties                               *)
(* ===================================================================== *)

(** Unique index "seats_event_id_seat_number_key" as a property of the
    table: no two rows share event and seat number. *)
Definition unique_seats (db : Prisma.Table) : Prop :=
  ∀ id1 id2 c1 c2,
    db !! id1 = Some c1 → db !! id2 = Some c2 →
    Prisma.c_eventId c1 = Prisma.c_eventId c2 →
    Prisma.c_seatNumber c1 = Prisma.c_seatNumber c2 →
    id1 = id2.

(** Further sample data. *)
Module Scenario.
(** The service when another writer has locked seat s1 in the table and the
    cache still holds the seat as it was read before. *)
Definition stale_app : App RabbitMQEventPublisher.t :=
  BookingService.new
    (CachedSeatRepository.new Sample.db_locked
       (CachedSeatRepository.cache Sample.cached_before_lock) 60)
    (Sample.publisher_state Sample.amqp_up) 1000 [].
End Scenario.

(** The delays the retry loop of [connect] sleeps, one after each attempt
    that is followed by another: the first is the initial delay, each next
    one the previous times the multiplier, capped at the maximum. *)
Fixpoint backoff (cfg : RabbitMQClient.RetryConfig) (n : nat) (delay : Z) : list Z :=
  match n with
  | O => []
  | S k =>
      delay :: backoff cfg k
                 (Z.min (delay * RabbitMQClient.backoffMultiplier cfg)
                    (RabbitMQClient.maxDelayMs cfg))
  end.

(** Whether the worker's processing of a message goes through: the body
    parses and the work of both tasks succeeds. *)
Definition processes (JSON_parse : string → Result Worker.MessageContent)
    (pdf_work email_work : string → string → Result unit)
    (msg : Worker.ConsumeMessage) : bool :=
  match JSON_parse (Worker.content msg) with
  | Ok body =>
      match pdf_work (Worker.seatId body) (Worker.seatNumber body),
            email_work (Worker.userId body) (Worker.seatNumber body) with
      | Ok _, Ok _ => true
      | _, _ => false
      end
  | Err _ => false
  end.

(** [n] hand-overs by the broker, one after the other. *)
Fixpoint deliveries (JSON_parse : string → Result Worker.MessageContent)
    (uuidv4 : string) (pdf_work email_work : string → string → Result unit)
    (n : nat) (s : Worker.t) : Worker.t :=
  match n with
  | O => s
  | S k =>
      deliveries JSON_parse uuidv4 pdf_work email_work k
        (Worker.deliver JSON_parse uuidv4 pdf_work email_work s).2
  end.

(* ===================================================================== *)
(** * The POST routes: api/v1/seats/lock and api/v1/payments/confirm     *)
(* ===================================================================== *)

Module NextRequest.
(** One issue of a ZodError. *)
Record ZodIssue := {
  path : list string;
  issue_message : string;
}.

(** What [schema.parse(await request.json())] comes to.  The schemas of
    both routes are an object with a [seatId] and a [userId], both uuid
    strings. *)
Inductive t :=
| SyntaxError_                       (* [request.json()] throws *)
| ZodError (issues : list ZodIssue)  (* [schema.parse(body)] throws *)
| Validated (seatId userId : string).
End NextRequest.

Module NextResponse.
Record Data := {
  id : string;
  seatNumber : string;
  status : SeatStatus;
  userId : option string;
  version : Z;
}.

Record Detail := {
  field : string;
  detail_message : string;
}.

(** The error object of a failure; [details] and [retryable] are absent
    from most. *)
Record ErrorBody := {
  code : string;
  error_message : string;
  details : option (list Detail);
  retryable : option bool;
}.

Inductive Body :=
| Success (data : Data) (message : string)
| Failure (error : ErrorBody).

(** [NextResponse.json(body, { status })] *)
Record t := json {
  body : Body;
  init_status : Z;
}.

Definition data_of (seat : Seat.t) : Data :=
  {| id := Seat.id seat;
     seatNumber := Seat.seatNumber seat;
     status := Seat.status seat;
     userId := Seat.userId seat;
     version := Seat.version seat |}.

Definition INTERNAL_ERROR : t :=
  json (Failure {| code := "INTERNAL_ERROR";
                   error_message := "An unexpected error occurred";
                   details := None; retryable := None |}) 500.
End NextResponse.

(** The routes answer with a response and leave the service in a state;
    the lines they write to the console are left out. *)
Module LockRoute.
Import NextResponse.
Section Route.
(** The service [getBookingService()] hands out. *)
Context {R : Type} `{!ISeatRepository.t R}.
Context {P : Type}.
Variable publisher : option (IEventPublisher.t P).
Variable EVENT_QUEUES : EventQueues.

Definition POST (request : NextRequest.t) (st : BookingService.t R P)
    : NextResponse.t * BookingService.t R P :=
  match request with
  | NextRequest.SyntaxError_ => (INTERNAL_ERROR, st)
  | NextRequest.ZodError issues =>
      (json (Failure
               {| code := "VALIDATION_ERROR";
                  error_message := "Invalid request body";
                  details :=
                    Some ((λ issue,
                             {| field := String.concat "." (NextRequest.path issue);
                                detail_message := NextRequest.issue_message issue |})
                            <$> issues);
                  retryable := None |}) 400,
       st)
  | NextRequest.Validated seatId userId =>
      match BookingService.lockSeat publisher EVENT_QUEUES seatId userId st with
      | (Ok lockedSeat, st') =>
          (json (Success (data_of lockedSeat) "Seat locked successfully") 200, st')
      | (Err error, st') =>
          (match error with
           | SeatNotFoundError _ =>
               json (Failure {| code := "SEAT_NOT_FOUND";
                                error_message := message error;
                                details := None; retryable := None |}) 404
           | SeatNotAvailableError _ _ =>
               json (Failure {| code := "SEAT_NOT_AVAILABLE";
                                error_message := message error;
                                details := None; retryable := None |}) 422
           | ConcurrencyError _ _ _ =>
               json (Failure
                       {| code := "CONCURRENCY_CONFLICT";
                          error_message :=
                            "The seat was modified by another process. Please retry.";
                          details := None; retryable := Some true |}) 409
           | _ => INTERNAL_ERROR
           end,
           st')
      end
  end.
End Route.
End LockRoute.

Module ConfirmRoute.
Import NextResponse.
Section Route.
Context {R : Type} `{!ISeatRepository.t R}.
Context {P : Type}.
Variable publisher : option (IEventPublisher.t P).
Variable EVENT_QUEUES : EventQueues.

Definition POST (request : NextRequest.t) (st : BookingService.t R P)
    : NextResponse.t * BookingService.t R P :=
  match request with
  | NextRequest.SyntaxError_ => (INTERNAL_ERROR, st)
  | NextRequest.ZodError _ =>
      (json (Failure {| code := "VALIDATION_ERROR";
                        error_message := "Invalid body";
                        details := None; retryable := None |}) 400,
       st)
  | NextRequest.Validated seatId userId =>
      match BookingService.confirmSale publisher EVENT_QUEUES seatId userId st with
      | (Ok soldSeat, st') =>
          (json (Success (data_of soldSeat) "Purchase confirmed successfully") 200, st')
      | (Err error, st') =>
          (match error with
           | SeatNotFoundError _ =>
               json (Failure {| code := "SEAT_NOT_FOUND";
                                error_message := message error;
                                details := None; retryable := None |}) 404
           | UnauthorizedLockError _ _ =>
               json (Failure {| code := "UNAUTHORIZED_LOCK";
                                error_message := message error;
                                details := None; retryable := None |}) 403
           | _ => INTERNAL_ERROR
           end,
           st')
      end
  end.
End Route.
End ConfirmRoute.

(* ===================================================================== *)
(** * The seat entity                                                    *)
(* ===================================================================== *)

Lemma fromPersistence_toJSON_id (s : Seat.t) :
  Seat.fromPersistence (Seat.toJSON s) = s.
Proof. by destruct s as [[]]. Qed.

(** C10.  Serialising a seat with [toJSON] and reconstituting it with
    [fromPersistence] gives a seat with the same id, eventId, seatNumber,
    price, status, userId and version. *)
Theorem fromPersistence_toJSON (s : Seat.t) :
  let s' := Seat.fromPersistence (Seat.toJSON s) in
  Seat.id s' = Seat.id s
  ∧ Seat.eventId s' = Seat.eventId s
  ∧ Seat.seatNumber s' = Seat.seatNumber s
  ∧ Seat.price s' = Seat.price s
  ∧ Seat.status s' = Seat.status s
  ∧ Seat.userId s' = Seat.userId s
  ∧ Seat.version s' = Seat.version s.
Proof. intros s'. subst s'. by rewrite fromPersistence_toJSON_id. Qed.

Lemma lock_Ok userId s s' :
  Seat.lock userId s = Ok s' →
  Seat.status s = AVAILABLE
  ∧ s' = Seat.new (Seat.with_ (Seat.props s) LOCKED (Some userId) (Seat.version s + 1)).
Proof.
  unfold Seat.lock. case_decide as Hst; [done|].
  intros [= <-]. split; [|done].
  by destruct (Seat.status s).
Qed.

Lemma sell_Ok s s' :
  Seat.sell s = Ok s' →
  Seat.status s = LOCKED
  ∧ s' = Seat.new (Seat.with_ (Seat.props s) SOLD (Seat.userId s) (Seat.version s + 1)).
Proof.
  unfold Seat.sell. case_decide as Hst; [done|].
  intros [= <-]. split; [|done].
  by destruct (Seat.status s).
Qed.

Lemma release_Ok s s' :
  Seat.release s = Ok s' →
  Seat.status s = LOCKED
  ∧ s' = Seat.new (Seat.with_ (Seat.props s) AVAILABLE None (Seat.version s + 1)).
Proof.
  unfold Seat.release. case_decide as Hst; [done|].
  intros [= <-]. split; [|done].
  by destruct (Seat.status s).
Qed.

Lemma transition_version tr userId s s' :
  transition tr userId s = Ok s' → Seat.version s' = Seat.version s + 1.
Proof.
  destruct tr; simpl; intros H.
  - by apply lock_Ok in H as [_ ->].
  - by apply sell_Ok in H as [_ ->].
  - by apply release_Ok in H as [_ ->].
Qed.

Lemma reachable_holder s :
  reachable s → (Seat.userId s = None ↔ Seat.status s = AVAILABLE).
Proof.
  induction 1 as [| u s s' _ IH H | s s' _ IH H | s s' _ IH H].
  - done.
  - apply lock_Ok in H as [_ ->]. by split.
  - apply sell_Ok in H as [Hst ->]. cbn. split.
    + intros Hu. apply IH in Hu. congruence.
    + done.
  - apply release_Ok in H as [_ ->]. by split.
Qed.

(** C5, as the code has it.  On every seat reachable from creation the
    holder is absent exactly when the seat is AVAILABLE, so it is present on
    LOCKED and on SOLD seats alike; and [sell] takes a LOCKED seat to a SOLD
    one with the same, present, holder. *)
Theorem holder_present_iff_not_available (s : Seat.t) :
  reachable s →
  (Seat.userId s ≠ None ↔ Seat.status s = LOCKED ∨ Seat.status s = SOLD)
  ∧ (∀ s', Seat.sell s = Ok s' →
       Seat.status s = LOCKED ∧ Seat.status s' = SOLD
       ∧ Seat.userId s' = Seat.userId s ∧ Seat.userId s' ≠ None).
Proof.
  intros Hr. pose proof (reachable_holder s Hr) as Hh. split.
  - destruct (Seat.status s) eqn:Hst.
    + split; [intros Hu; destruct Hu; by apply Hh | intros [|]; done].
    + split; [by left | intros _ Hu; apply Hh in Hu; done].
    + split; [by right | intros _ Hu; apply Hh in Hu; done].
  - intros s' Hs. apply sell_Ok in Hs as [Hst ->]. cbn.
    repeat split; try done.
    intros Hu. apply Hh in Hu. congruence.
Qed.

Lemma sold_seat_reachable : reachable Sample.sold_seat.
Proof.
  eapply reachable_sell; [eapply reachable_lock with (userId := "u1")|].
  - apply (reachable_create "s1" "evt-1" "A-1" 1500).
  - reflexivity.
  - reflexivity.
Defined.

Lemma holder_present_iff_not_available_witness :
  reachable Sample.sold_seat
  ∧ (Seat.userId Sample.sold_seat ≠ None
     ↔ Seat.status Sample.sold_seat = LOCKED ∨ Seat.status Sample.sold_seat = SOLD).
Proof.
  split; [apply sold_seat_reachable|].
  apply (holder_present_iff_not_available Sample.sold_seat), sold_seat_reachable.
Defined.

(** C5, as stated, fails on the seat created, locked by u1 and sold: it is
    reachable, its holder is present, and its status is SOLD, not LOCKED. *)
Lemma holder_iff_locked_fails_on_sold :
  reachable Sample.sold_seat
  ∧ ¬ (Seat.userId Sample.sold_seat ≠ None ↔ Seat.status Sample.sold_seat = LOCKED).
Proof.
  split; [apply sold_seat_reachable|].
  intros [H _]. by specialize (H ltac:(done)).
Qed.

(* ===================================================================== *)
(** * PrismaSeatRepository                                               *)
(* ===================================================================== *)

(** Unfolds the plumbing of [M]. *)
Ltac run :=
  unfold bind, ret, throw, gets, modify, of_result, try_catch in *; simpl in *.

Lemma mapPrismaStatusToDomain_inv s :
  PrismaSeatRepository.mapPrismaStatusToDomain
    (PrismaSeatRepository.mapDomainStatusToPrisma s) = s.
Proof. by destruct s. Qed.

Lemma mapDomainStatusToPrisma_inv s :
  PrismaSeatRepository.mapDomainStatusToPrisma
    (PrismaSeatRepository.mapPrismaStatusToDomain s) = s.
Proof. by destruct s. Qed.

Lemma seat_of_row_columns (s : Seat.t) :
  seat_of_row (Seat.id s) (columns_of_seat s) = s.
Proof.
  destruct s as [[i st u v p n e]].
  unfold seat_of_row, PrismaSeatRepository.mapToDomain, columns_of_seat; cbn.
  by rewrite mapPrismaStatusToDomain_inv.
Qed.

Lemma columns_of_seat_of_row id c : columns_of_seat (seat_of_row id c) = c.
Proof.
  destruct c. unfold columns_of_seat, seat_of_row; cbn.
  by rewrite mapDomainStatusToPrisma_inv.
Qed.

Lemma findById_row id (db : Prisma.Database) :
  PrismaSeatRepository.findById id db =
    (Ok (seat_of_row id <$> Prisma.seats db !! id), db).
Proof.
  unfold PrismaSeatRepository.findById, Prisma.findUnique. run.
  by destruct (Prisma.seats db !! id).
Qed.

(** The version-1 branch of [save]. *)
Lemma save_create (seat : Seat.t) (db : Prisma.Database) :
  Seat.version seat = 1 →
  PrismaSeatRepository.save seat db =
    if decide (is_Some (Prisma.seats db !! Seat.id seat)
               ∨ Prisma.seat_taken (Seat.eventId seat) (Seat.seatNumber seat)
                   (Prisma.seats db))
    then (Err (PrismaClientKnownRequestError "P2002"), db)
    else if decide (Seat.eventId seat ∈ Prisma.events db)
    then (Ok seat,
          Prisma.with_seats
            (<[Seat.id seat := columns_of_seat seat]> (Prisma.seats db)) db)
    else (Err (PrismaClientKnownRequestError "P2003"), db).
Proof.
  intros Hv. destruct seat as [[i st u v p n e]]. cbn in Hv. subst v.
  unfold PrismaSeatRepository.save, Prisma.create. run.
  unfold Seat.id, Seat.eventId, Seat.seatNumber; cbn.
  destruct (decide (is_Some (Prisma.seats db !! i))) as [Hi|Hi]; cbn.
  { rewrite decide_True; [done | by left]. }
  destruct (decide (Prisma.seat_taken e n (Prisma.seats db))) as [Ht|Ht]; cbn.
  { rewrite decide_True; [done | by right]. }
  rewrite (decide_False (P := is_Some _ ∨ _)) by (intros [|]; done).
  destruct (decide (e ∈ Prisma.events db)); cbn; [|done].
  unfold PrismaSeatRepository.mapToDomain, columns_of_seat, Prisma.columns; cbn.
  by rewrite mapPrismaStatusToDomain_inv.
Qed.

(** The conditional-update branch of [save]. *)
Lemma save_update (seat : Seat.t) (db : Prisma.Database) :
  Seat.version seat ≠ 1 →
  PrismaSeatRepository.save seat db =
    match Prisma.seats db !! Seat.id seat with
    | Some c =>
        if decide (Prisma.c_version c = Seat.version seat - 1)
        then (Ok seat,
              Prisma.with_seats
                (<[Seat.id seat := updated c seat]> (Prisma.seats db)) db)
        else (Err (ConcurrencyError "Seat" (Seat.id seat) (Seat.version seat - 1)), db)
    | None =>
        (Err (ConcurrencyError "Seat" (Seat.id seat) (Seat.version seat - 1)), db)
    end.
Proof.
  intros Hv. destruct seat as [[i st u v p n e]]. cbn in Hv.
  unfold PrismaSeatRepository.save, Prisma.updateMany. run.
  unfold Seat.id, Seat.version; cbn.
  rewrite decide_False by done.
  destruct (Prisma.seats db !! i) as [c|]; [|done].
  by destruct (decide (Prisma.c_version c = v - 1)).
Qed.

(** C1, as the code has it.  For a record with version v >= 2, [save] makes
    one conditional update on the record's id and version v-1: when no row
    matches it raises ConcurrencyError("Seat", id, v-1) and leaves the table
    as it was, without a second attempt; when the row matches, its status,
    userId and version become those of the record while its eventId,
    seatNumber and price stay as stored.  For a record with version 1,
    [save] inserts it as a new row, unless a constraint rejects the insert:
    the primary key or the (eventId, seatNumber) index with P2002, the
    foreign key to the events with P2003; a rejected insert leaves the table
    as it was. *)
Theorem save_optimistic_locking (seat : Seat.t) (db : Prisma.Database) :
  (2 ≤ Seat.version seat →
     let conflict :=
       ConcurrencyError "Seat" (Seat.id seat) (Seat.version seat - 1) in
     match Prisma.seats db !! Seat.id seat with
     | Some c =>
         if decide (Prisma.c_version c = Seat.version seat - 1) then
           PrismaSeatRepository.save seat db =
             (Ok seat,
              Prisma.with_seats
                (<[Seat.id seat := updated c seat]> (Prisma.seats db)) db)
         else PrismaSeatRepository.save seat db = (Err conflict, db)
     | None => PrismaSeatRepository.save seat db = (Err conflict, db)
     end)
  ∧ (Seat.version seat = 1 →
       if decide (is_Some (Prisma.seats db !! Seat.id seat)
                  ∨ Prisma.seat_taken (Seat.eventId seat) (Seat.seatNumber seat)
                      (Prisma.seats db))
       then PrismaSeatRepository.save seat db =
              (Err (PrismaClientKnownRequestError "P2002"), db)
       else if decide (Seat.eventId seat ∈ Prisma.events db)
       then PrismaSeatRepository.save seat db =
              (Ok seat,
               Prisma.with_seats
                 (<[Seat.id seat := columns_of_seat seat]> (Prisma.seats db)) db)
       else PrismaSeatRepository.save seat db =
              (Err (PrismaClientKnownRequestError "P2003"), db)).
Proof.
  split.
  - intros Hv conflict. rewrite save_update by lia.
    destruct (Prisma.seats db !! Seat.id seat) as [c|]; [|done].
    by case_decide.
  - intros Hv. rewrite save_create by done. by repeat case_decide.
Qed.

Lemma save_optimistic_locking_witness :
  PrismaSeatRepository.save Sample.relabelled_s1 Sample.db_available =
    (Ok Sample.relabelled_s1,
     Prisma.with_seats
       (<["s1" := updated Sample.available_s1 Sample.relabelled_s1]>
          (Prisma.seats Sample.db_available))
       Sample.db_available)
  ∧ PrismaSeatRepository.save Sample.relabelled_s1 Sample.db_locked =
      (Err (ConcurrencyError "Seat" "s1" 1), Sample.db_locked)
  ∧ PrismaSeatRepository.save (Seat.create "s9" "evt-1" "A-9" 1500) Sample.db_locked =
      (Ok (Seat.create "s9" "evt-1" "A-9" 1500),
       Prisma.with_seats
         (<["s9" := columns_of_seat (Seat.create "s9" "evt-1" "A-9" 1500)]>
            (Prisma.seats Sample.db_locked))
         Sample.db_locked)
  ∧ PrismaSeatRepository.save (Seat.create "s9" "evt-404" "A-9" 1500) Sample.db_locked =
      (Err (PrismaClientKnownRequestError "P2003"), Sample.db_locked).
Proof.
  split; [|split; [|split]].
  - apply (proj1 (save_optimistic_locking Sample.relabelled_s1 Sample.db_available)).
    vm_compute. discriminate.
  - apply (proj1 (save_optimistic_locking Sample.relabelled_s1 Sample.db_locked)).
    vm_compute. discriminate.
  - apply (proj2 (save_optimistic_locking (Seat.create "s9" "evt-1" "A-9" 1500)
                    Sample.db_locked)).
    reflexivity.
  - apply (proj2 (save_optimistic_locking (Seat.create "s9" "evt-404" "A-9" 1500)
                    Sample.db_locked)).
    reflexivity.
Defined.

(** C1, as stated, fails where it says the stored record becomes the given
    one: a record of version 2 is saved over row s1 of version 1, the update
    matches, and the row read back still has the stored event, seat number
    and price, not the given ones. *)
Lemma save_keeps_event_number_price :
  2 ≤ Seat.version Sample.relabelled_s1
  ∧ ∃ db',
      PrismaSeatRepository.save Sample.relabelled_s1 Sample.db_available =
        (Ok Sample.relabelled_s1, db')
      ∧ PrismaSeatRepository.findById "s1" db' =
          (Ok (Some (Seat.fromPersistence
                       {| SeatProps.id := "s1"; SeatProps.status := LOCKED;
                          SeatProps.userId := Some "u1"; SeatProps.version := 2;
                          SeatProps.price := 1500; SeatProps.seatNumber := "A-1";
                          SeatProps.eventId := "evt-1" |})), db')
      ∧ PrismaSeatRepository.findById "s1" db' ≠ (Ok (Some Sample.relabelled_s1), db').
Proof.
  split; [vm_compute; discriminate|].
  eexists. split; [vm_compute; reflexivity|].
  split; [vm_compute; reflexivity|].
  vm_compute. discriminate.
Qed.

Lemma findMany_sorted eventId (db : Prisma.Database) :
  Total (Prisma.seatNumber_asc db) →
  Sorted (Prisma.seatNumber_asc db) (Prisma.findMany eventId db).
Proof. intros Htotal. unfold Prisma.findMany. apply (Sorted_merge_sort _). Qed.

Lemma elem_of_findMany r eventId (db : Prisma.Database) :
  r ∈ Prisma.findMany eventId db ↔
  ∃ id c, Prisma.seats db !! id = Some c ∧ Prisma.c_eventId c = eventId
          ∧ r = Prisma.row id c.
Proof.
  unfold Prisma.findMany. rewrite merge_sort_Permutation.
  rewrite list_elem_of_filter, list_elem_of_fmap. split.
  - intros [He [[id c] [-> Hin]]]. apply elem_of_map_to_list in Hin.
    exists id, c. done.
  - intros (id & c & Hdb & He & ->). split; [done|].
    exists (id, c). split; [done|]. by apply elem_of_map_to_list.
Qed.

(** No row is listed twice. *)
Lemma findMany_NoDup eventId (db : Prisma.Database) :
  NoDup (Prisma.id <$> Prisma.findMany eventId db).
Proof.
  unfold Prisma.findMany. rewrite merge_sort_Permutation.
  eapply (sublist_NoDup _
            (Prisma.id <$> ((λ kc, Prisma.row kc.1 kc.2) <$> map_to_list (Prisma.seats db)))).
  - rewrite <-list_fmap_compose. apply (NoDup_fst_map_to_list (Prisma.seats db)).
  - apply fmap_sublist, sublist_filter.
Qed.

(** C7, as the code has it.  [findByEventId] returns the rows of the event,
    each once, in ascending order of the seat number under the collation of
    the database, whichever it is: the query asks for [seatNumber] ascending
    on a TEXT column and adds no comparison of its own.  The table is left
    as it was. *)
Theorem findByEventId_collation_order (eventId : string) (db : Prisma.Database) :
  (∀ a b, Prisma.collate db a b = true ∨ Prisma.collate db b a = true) →
  ∃ seats,
    PrismaSeatRepository.findByEventId eventId db = (Ok seats, db)
    ∧ Sorted (λ a b, Prisma.collate db (Seat.seatNumber a) (Seat.seatNumber b) = true)
        seats
    ∧ NoDup (Seat.id <$> seats)
    ∧ ∀ s, s ∈ seats ↔
        ∃ id c, Prisma.seats db !! id = Some c ∧ Prisma.c_eventId c = eventId
                ∧ s = seat_of_row id c.
Proof.
  intros Htotal.
  exists (PrismaSeatRepository.mapToDomain <$> Prisma.findMany eventId db).
  split; [done|]. split; [|split].
  - eapply Sorted_fmap; [|apply findMany_sorted].
    + by intros a b.
    + intros a b. apply Htotal.
  - rewrite <-list_fmap_compose. apply findMany_NoDup.
  - intros s. rewrite list_elem_of_fmap. split.
    + intros (r & -> & Hr). apply elem_of_findMany in Hr as (id & c & ? & ? & ->).
      by exists id, c.
    + intros (id & c & Hdb & He & ->). exists (Prisma.row id c). split; [done|].
      apply elem_of_findMany. by exists id, c.
Qed.

Lemma findByEventId_collation_order_witness :
  ∃ seats,
    PrismaSeatRepository.findByEventId "evt-1" Sample.db_two_seats =
      (Ok seats, Sample.db_two_seats)
    ∧ Sorted (λ a b, String.leb (Seat.seatNumber a) (Seat.seatNumber b) = true) seats.
Proof.
  destruct (findByEventId_collation_order "evt-1" Sample.db_two_seats)
    as (seats & Hfind & Hsorted & _).
  - intros a b. apply String.leb_total.
  - exists seats. split; [exact Hfind | exact Hsorted].
Defined.

(** C7, as stated, fails on an event with seats A-2 and A-10 in a database
    with the C collation: [findByEventId] returns A-10 first and A-2 second,
    where the claim has A-2 before A-10. *)
Lemma findByEventId_not_numeric_order :
  ∃ a b,
    PrismaSeatRepository.findByEventId "evt-1" Sample.db_two_seats =
      (Ok [a; b], Sample.db_two_seats)
    ∧ Seat.seatNumber a = "A-10" ∧ Seat.seatNumber b = "A-2".
Proof.
  eexists _, _. split; [vm_compute; reflexivity|].
  split; reflexivity.
Qed.


(* ===================================================================== *)
(** * The cache                                                          *)
(* ===================================================================== *)

Lemma CACHE_KEYS_seat_inj a b :
  CachedSeatRepository.CACHE_KEYS_seat a = CachedSeatRepository.CACHE_KEYS_seat b →
  a = b.
Proof. unfold CachedSeatRepository.CACHE_KEYS_seat. intros H. by injection H. Qed.

Lemma CACHE_KEYS_disjoint a b :
  CachedSeatRepository.CACHE_KEYS_seat a ≠ CachedSeatRepository.CACHE_KEYS_eventSeats b.
Proof. discriminate. Qed.

#[global] Instance CacheContract_quiet : Quiet CacheContract.t.
Proof.
  split.
  - intros key c. by eexists _, _.
  - intros key v ttl c. by eexists.
  - intros key c. by eexists.
Qed.

(** ** The Redis service *)

Ltac run_redis :=
  unfold RedisService.get, RedisService.set, RedisService.delete,
    RedisService.exists_, RedisService.redis_get, RedisService.redis_setex,
    RedisService.redis_del, RedisService.redis_exists, RedisService.command,
    RedisService.console_error in *;
  unfold bind, ret, throw, gets, modify, of_result, try_catch in *; simpl in *.

Lemma serves_nil n : serves n [].
Proof. intros error. by rewrite lookup_nil. Qed.

Lemma serves_0_cons r rest :
  serves 0 (r :: rest) ↔ r = RedisService.Served.
Proof.
  unfold serves. cbn. split.
  - intros H. destruct r as [|error]; [done|]. by destruct (H error).
  - intros -> error. done.
Qed.

Lemma serves_S n r rest : serves (S n) (r :: rest) ↔ serves n rest.
Proof. done. Qed.

Lemma serves_tail n replies : serves (S n) replies → serves n (tail replies).
Proof. destruct replies as [|r rest]; [intros _; apply serves_nil|done]. Qed.

(** [get] never throws: when Redis serves the command it answers with what
    Redis holds under the key, and when the command is rejected it answers
    null, as on a miss.  Either way Redis holds what it held. *)
Lemma redis_get_outcome key (c : RedisService.t) :
  ∃ c',
    RedisService.get key c =
      (Ok (if decide (serves 0 (RedisService.replies (RedisService.redis c)))
           then ICache.value <$> RedisService.entries (RedisService.redis c) !! key
           else None), c')
    ∧ RedisService.entries (RedisService.redis c') =
        RedisService.entries (RedisService.redis c)
    ∧ RedisService.replies (RedisService.redis c') =
        tail (RedisService.replies (RedisService.redis c)).
Proof.
  destruct c as [[entries replies] ttl console]. run_redis.
  destruct replies as [|[|error] rest]; cbn.
  - rewrite decide_True by apply serves_nil.
    destruct (entries !! key); by eexists.
  - rewrite decide_True by (by apply serves_0_cons).
    destruct (entries !! key); by eexists.
  - rewrite decide_False by (by rewrite serves_0_cons). by eexists.
Qed.

(** [set] never throws: the entry is stored when Redis serves the command,
    and is not when the command is rejected. *)
Lemma redis_set_outcome key v ttl (c : RedisService.t) :
  ∃ c',
    RedisService.set key v (Some ttl) c = (Ok tt, c')
    ∧ RedisService.entries (RedisService.redis c') =
        (if decide (serves 0 (RedisService.replies (RedisService.redis c)))
         then <[key := ICache.mkEntry v ttl]>
                (RedisService.entries (RedisService.redis c))
         else RedisService.entries (RedisService.redis c))
    ∧ RedisService.replies (RedisService.redis c') =
        tail (RedisService.replies (RedisService.redis c)).
Proof.
  destruct c as [[entries replies] dttl console]. run_redis.
  destruct replies as [|[|error] rest]; cbn.
  - rewrite decide_True by apply serves_nil. by eexists.
  - rewrite decide_True by (by apply serves_0_cons). by eexists.
  - rewrite decide_False by (by rewrite serves_0_cons). by eexists.
Qed.

(** [delete] never throws either: the key is removed when Redis serves the
    command; when the command is rejected the error is written to the
    console and the key stays. *)
Lemma redis_delete_outcome key (c : RedisService.t) :
  ∃ c',
    RedisService.delete key c = (Ok tt, c')
    ∧ RedisService.entries (RedisService.redis c') =
        (if decide (serves 0 (RedisService.replies (RedisService.redis c)))
         then delete key (RedisService.entries (RedisService.redis c))
         else RedisService.entries (RedisService.redis c))
    ∧ RedisService.replies (RedisService.redis c') =
        tail (RedisService.replies (RedisService.redis c)).
Proof.
  destruct c as [[entries replies] dttl console]. run_redis.
  destruct replies as [|[|error] rest]; cbn.
  - rewrite decide_True by apply serves_nil. by eexists.
  - rewrite decide_True by (by apply serves_0_cons). by eexists.
  - rewrite decide_False by (by rewrite serves_0_cons). by eexists.
Qed.

#[global] Instance RedisService_quiet : Quiet RedisService.t.
Proof.
  split.
  - intros key c. destruct (redis_get_outcome key c) as (c' & H & _).
    eexists _, c'. exact H.
  - intros key v ttl c. destruct (redis_set_outcome key v ttl c) as (c' & H & _).
    exists c'. exact H.
  - intros key c. destruct (redis_delete_outcome key c) as (c' & H & _).
    exists c'. exact H.
Qed.

(** While Redis carries out every command, the Redis service does what the
    contract of the interface says, on what Redis holds. *)
Lemma RedisService_refines_contract key v ttl (c : RedisService.t) :
  RedisService.replies (RedisService.redis c) = [] →
  let over (r : CacheContract.t) :=
    RedisService.new {| RedisService.entries := r; RedisService.replies := [] |}
      (RedisService.defaultTtl c) (RedisService.console c) in
  let held := RedisService.entries (RedisService.redis c) in
  ICache.get key c = ((ICache.get key held).1, over (ICache.get key held).2)
  ∧ ICache.set key v ttl c = ((ICache.set key v ttl held).1, over (ICache.set key v ttl held).2)
  ∧ ICache.delete key c = ((ICache.delete key held).1, over (ICache.delete key held).2)
  ∧ ICache.exists_ key c = ((ICache.exists_ key held).1, over (ICache.exists_ key held).2).
Proof.
  destruct c as [[entries replies] dttl console]. cbn. intros ->.
  unfold CacheContract.get, CacheContract.set, CacheContract.delete,
    CacheContract.exists_. run_redis.
  split; [by destruct (entries !! key)|]. split; [done|]. split; [done|].
  destruct (entries !! key) as [e|] eqn:He; cbn.
  - by rewrite decide_True by (by eexists).
  - by rewrite decide_False by (by intros [? ?]).
Qed.

(* ===================================================================== *)
(** * CachedSeatRepository                                               *)
(* ===================================================================== *)

Ltac run_cached :=
  unfold CachedSeatRepository.findById, CachedSeatRepository.save,
    CachedSeatRepository.on_cache, CachedSeatRepository.on_repository,
    ICache.get, ICache.set, ICache.delete,
    CacheContract.get, CacheContract.set, CacheContract.delete in *;
  run.

(** ** Over any repository, with a cache that does not throw *)

Section AnyQuietCache.
Context {R : Type} `{!ISeatRepository.t R}.
Context {C : Type} `{!ICache.t C} `{!Quiet C}.
Implicit Types s : CachedSeatRepository.t R C.

(** [save] answers with what the wrapped repository answers, and leaves the
    wrapped repository as its [save] leaves it. *)
Lemma cached_save_wrapped seat s :
  ∃ s',
    CachedSeatRepository.save seat s =
      ((ISeatRepository.save seat (CachedSeatRepository.repository s)).1, s')
    ∧ CachedSeatRepository.repository s' =
        (ISeatRepository.save seat (CachedSeatRepository.repository s)).2
    ∧ CachedSeatRepository.ttlSeconds s' = CachedSeatRepository.ttlSeconds s.
Proof.
  destruct s as [repo cache ttl].
  unfold CachedSeatRepository.save, CachedSeatRepository.on_cache,
    CachedSeatRepository.on_repository. run.
  destruct (ISeatRepository.save seat repo) as [[saved|err] repo']; cbn; [|by eexists].
  destruct (delete_returns (CachedSeatRepository.CACHE_KEYS_seat (Seat.id seat)) cache)
    as (c1 & ->). cbn.
  destruct (delete_returns (CachedSeatRepository.CACHE_KEYS_eventSeats (Seat.eventId seat)) c1)
    as (c2 & ->). cbn.
  by eexists.
Qed.

(** [findById] answers from the cache and leaves the wrapped repository
    alone, or answers with what the wrapped repository answers. *)
Lemma cached_findById_wrapped id s :
  ∃ r s',
    CachedSeatRepository.findById id s = (r, s')
    ∧ ((∃ p, r = Ok (Some (Seat.fromPersistence p))
             ∧ CachedSeatRepository.repository s' = CachedSeatRepository.repository s)
       ∨ (r = (ISeatRepository.findById id (CachedSeatRepository.repository s)).1
          ∧ CachedSeatRepository.repository s' =
              (ISeatRepository.findById id (CachedSeatRepository.repository s)).2)).
Proof.
  destruct s as [repo cache ttl].
  unfold CachedSeatRepository.findById, CachedSeatRepository.on_cache,
    CachedSeatRepository.on_repository. run.
  destruct (get_returns (CachedSeatRepository.CACHE_KEYS_seat id) cache)
    as (got & c1 & ->). cbn.
  assert (Hmiss : ∃ r s',
    match ISeatRepository.findById id repo with
    | (Ok (Some seat), repo') =>
        match ICache.set (CachedSeatRepository.CACHE_KEYS_seat id)
                (ICache.SeatValue (Seat.toJSON seat)) ttl c1 with
        | (Ok _, s') => (Ok (Some seat), CachedSeatRepository.new repo' s' ttl)
        | (Err e, s') => (Err e, CachedSeatRepository.new repo' s' ttl)
        end
    | (Ok None, repo') => (Ok None, CachedSeatRepository.new repo' c1 ttl)
    | (Err e, repo') => (Err e, CachedSeatRepository.new repo' c1 ttl)
    end = (r, s')
    ∧ r = (ISeatRepository.findById id repo).1
    ∧ CachedSeatRepository.repository s' = (ISeatRepository.findById id repo).2).
  { destruct (ISeatRepository.findById id repo) as [[[seat|]|err] repo']; cbn;
      [|by eexists _, _|by eexists _, _].
    destruct (set_returns (CachedSeatRepository.CACHE_KEYS_seat id)
                (ICache.SeatValue (Seat.toJSON seat)) ttl c1) as (c2 & ->).
    by eexists _, _. }
  destruct Hmiss as (r & s' & Hrun & Hr & Hs).
  destruct got as [[p|ps]|].
  - eexists _, _. split; [done|]. left. by exists p.
  - exists r, s'. split; [|by right].
    rewrite <-Hrun. cbn.
    destruct (ISeatRepository.findById id repo) as [[[seat|]|err] repo']; cbn; [|done|done].
    by destruct (ICache.set _ _ _ c1) as [[|] ?].
  - exists r, s'. split; [|by right].
    rewrite <-Hrun. cbn.
    destruct (ISeatRepository.findById id repo) as [[[seat|]|err] repo']; cbn; [|done|done].
    by destruct (ICache.set _ _ _ c1) as [[|] ?].
Qed.
End AnyQuietCache.

(** ** Over any repository, with the cache of the contract *)

Section AnyRepository.
Context {R : Type} `{!ISeatRepository.t R}.
Implicit Types s : CachedSeatRepository.t R CacheContract.t.

Lemma cached_findById_hit id s e p :
  CachedSeatRepository.cache s !! CachedSeatRepository.CACHE_KEYS_seat id = Some e →
  ICache.value e = ICache.SeatValue p →
  CachedSeatRepository.findById id s = (Ok (Some (Seat.fromPersistence p)), s).
Proof.
  intros He Hv. destruct s as [repo cache ttl]. run_cached.
  by rewrite He; cbn; rewrite Hv.
Qed.

Lemma cached_findById_miss id s :
  (∀ e p, CachedSeatRepository.cache s !! CachedSeatRepository.CACHE_KEYS_seat id = Some e →
          ICache.value e ≠ ICache.SeatValue p) →
  CachedSeatRepository.findById id s =
    match ISeatRepository.findById id (CachedSeatRepository.repository s) with
    | (Ok (Some seat), repo') =>
        (Ok (Some seat),
         CachedSeatRepository.new repo'
           (<[CachedSeatRepository.CACHE_KEYS_seat id :=
                ICache.mkEntry (ICache.SeatValue (Seat.toJSON seat))
                  (CachedSeatRepository.ttlSeconds s)]>
              (CachedSeatRepository.cache s))
           (CachedSeatRepository.ttlSeconds s))
    | (Ok None, repo') =>
        (Ok None,
         CachedSeatRepository.new repo' (CachedSeatRepository.cache s)
           (CachedSeatRepository.ttlSeconds s))
    | (Err e, repo') =>
        (Err e,
         CachedSeatRepository.new repo' (CachedSeatRepository.cache s)
           (CachedSeatRepository.ttlSeconds s))
    end.
Proof.
  intros Hmiss. destruct s as [repo cache ttl]. run_cached.
  destruct (cache !! CachedSeatRepository.CACHE_KEYS_seat id) as [e|] eqn:He; cbn.
  - destruct (ICache.value e) as [p|ps] eqn:Hv; [by destruct (Hmiss e p)|]. cbn.
    by destruct (ISeatRepository.findById id repo) as [[[seat|]|err] repo'].
  - by destruct (ISeatRepository.findById id repo) as [[[seat|]|err] repo'].
Qed.

Lemma cached_save_outcome seat s :
  CachedSeatRepository.save seat s =
    match ISeatRepository.save seat (CachedSeatRepository.repository s) with
    | (Ok saved, repo') =>
        (Ok saved,
         CachedSeatRepository.new repo'
           (delete (CachedSeatRepository.CACHE_KEYS_eventSeats (Seat.eventId seat))
              (delete (CachedSeatRepository.CACHE_KEYS_seat (Seat.id seat))
                 (CachedSeatRepository.cache s)))
           (CachedSeatRepository.ttlSeconds s))
    | (Err e, repo') =>
        (Err e,
         CachedSeatRepository.new repo' (CachedSeatRepository.cache s)
           (CachedSeatRepository.ttlSeconds s))
    end.
Proof.
  destruct s as [repo cache ttl]. run_cached.
  by destruct (ISeatRepository.save seat repo) as [[saved|err] repo'].
Qed.
End AnyRepository.

(** ** Over any repository, with the Redis service *)

Section WiredRepository.
Context {R : Type} `{!ISeatRepository.t R}.
Implicit Types s : CachedSeatRepository.t R RedisService.t.

Lemma serves_0_tail replies : serves 0 (tail replies) ↔ serves 1 replies.
Proof. destruct replies as [|r rest]; [|done]. split; intros _; apply serves_nil. Qed.

(** [save] through the decorator: the write goes to the wrapped repository;
    when it succeeds, the two deletions are asked of Redis, each removing
    its key if Redis serves it and leaving it if not; when it fails, Redis
    is not asked anything. *)
Lemma wired_save_outcome seat s :
  match ISeatRepository.save seat (CachedSeatRepository.repository s) with
  | (Ok saved, repo') =>
      ∃ s',
        CachedSeatRepository.save seat s = (Ok saved, s')
        ∧ CachedSeatRepository.repository s' = repo'
        ∧ redis_entries s' =
            (let after_seat_key :=
               if decide (serves 0 (redis_replies s))
               then delete (CachedSeatRepository.CACHE_KEYS_seat (Seat.id seat))
                      (redis_entries s)
               else redis_entries s in
             if decide (serves 1 (redis_replies s))
             then delete (CachedSeatRepository.CACHE_KEYS_eventSeats (Seat.eventId seat))
                    after_seat_key
             else after_seat_key)
        ∧ redis_replies s' = drop 2 (redis_replies s)
  | (Err e, repo') =>
      CachedSeatRepository.save seat s =
        (Err e,
         CachedSeatRepository.new repo' (CachedSeatRepository.cache s)
           (CachedSeatRepository.ttlSeconds s))
  end.
Proof.
  destruct s as [repo c ttl]. unfold redis_entries, redis_replies.
  unfold CachedSeatRepository.save, CachedSeatRepository.on_cache,
    CachedSeatRepository.on_repository. run.
  destruct (ISeatRepository.save seat repo) as [[saved|err] repo']; cbn; [|done].
  destruct (redis_delete_outcome (CachedSeatRepository.CACHE_KEYS_seat (Seat.id seat)) c)
    as (c1 & -> & He1 & Hr1). cbn.
  destruct (redis_delete_outcome
              (CachedSeatRepository.CACHE_KEYS_eventSeats (Seat.eventId seat)) c1)
    as (c2 & -> & He2 & Hr2). cbn.
  eexists. split; [done|]. split; [done|]. cbn. split.
  - rewrite He2, He1, Hr1.
    apply decide_ext, serves_0_tail.
  - rewrite Hr2, Hr1. by destruct (RedisService.replies (RedisService.redis c)) as [|? [|? ?]].
Qed.

(** [findById] through the decorator: a seat Redis hands over is the
    answer; otherwise, Redis having nothing under the key or rejecting the
    command, the answer is the wrapped repository's, and a seat found is
    offered to Redis. *)
Lemma wired_findById_outcome id s :
  let key := CachedSeatRepository.CACHE_KEYS_seat id in
  let got :=
    if decide (serves 0 (redis_replies s))
    then ICache.value <$> redis_entries s !! key else None in
  match got with
  | Some (ICache.SeatValue p) =>
      ∃ s',
        CachedSeatRepository.findById id s = (Ok (Some (Seat.fromPersistence p)), s')
        ∧ CachedSeatRepository.repository s' = CachedSeatRepository.repository s
        ∧ redis_entries s' = redis_entries s
        ∧ redis_replies s' = tail (redis_replies s)
  | _ =>
      match ISeatRepository.findById id (CachedSeatRepository.repository s) with
      | (Ok (Some seat), repo') =>
          ∃ s',
            CachedSeatRepository.findById id s = (Ok (Some seat), s')
            ∧ CachedSeatRepository.repository s' = repo'
            ∧ redis_entries s' =
                (if decide (serves 1 (redis_replies s))
                 then <[key := ICache.mkEntry (ICache.SeatValue (Seat.toJSON seat))
                                 (CachedSeatRepository.ttlSeconds s)]>
                        (redis_entries s)
                 else redis_entries s)
            ∧ redis_replies s' = drop 2 (redis_replies s)
      | (r, repo') =>
          ∃ s',
            CachedSeatRepository.findById id s = (r, s')
            ∧ CachedSeatRepository.repository s' = repo'
            ∧ redis_entries s' = redis_entries s
            ∧ redis_replies s' = tail (redis_replies s)
      end
  end.
Proof.
  intros key got. subst key got.
  destruct s as [repo c ttl]. unfold redis_entries, redis_replies.
  cbn [CachedSeatRepository.cache CachedSeatRepository.repository
       CachedSeatRepository.ttlSeconds].
  destruct (redis_get_outcome (CachedSeatRepository.CACHE_KEYS_seat id) c)
    as (c1 & Hget & He1 & Hr1).
  unfold CachedSeatRepository.findById, CachedSeatRepository.on_cache,
    CachedSeatRepository.on_repository. run. rewrite Hget. clear Hget.
  set (got := if decide (serves 0 (RedisService.replies (RedisService.redis c)))
              then _ else None).
  assert (Hmiss : ∀ seat repo',
    ∃ s',
      (let (r, s'0) :=
         let '(r, cache') :=
           RedisService.set (CachedSeatRepository.CACHE_KEYS_seat id)
             (ICache.SeatValue (Seat.toJSON seat)) (Some ttl) c1 in
         (r, CachedSeatRepository.new repo' cache' ttl) in
       match r with
       | Ok _ => (Ok (Some seat), s'0)
       | Err e => (Err e, s'0)
       end) = (Ok (Some seat), s')
      ∧ CachedSeatRepository.repository s' = repo'
      ∧ RedisService.entries (RedisService.redis (CachedSeatRepository.cache s')) =
          (if decide (serves 1 (RedisService.replies (RedisService.redis c)))
           then <[CachedSeatRepository.CACHE_KEYS_seat id :=
                    ICache.mkEntry (ICache.SeatValue (Seat.toJSON seat)) ttl]>
                  (RedisService.entries (RedisService.redis c))
           else RedisService.entries (RedisService.redis c))
      ∧ RedisService.replies (RedisService.redis (CachedSeatRepository.cache s')) =
          drop 2 (RedisService.replies (RedisService.redis c))).
  { intros seat repo'.
    destruct (redis_set_outcome (CachedSeatRepository.CACHE_KEYS_seat id)
                (ICache.SeatValue (Seat.toJSON seat)) ttl c1)
      as (c2 & -> & He2 & Hr2).
    eexists. split; [done|]. split; [done|]. cbn. split.
    - rewrite He2, He1, Hr1. apply decide_ext, serves_0_tail.
    - rewrite Hr2, Hr1.
      by destruct (RedisService.replies (RedisService.redis c)) as [|? [|? ?]]. }
  destruct got as [[p|ps]|]; cbn.
  - by eexists.
  - destruct (ISeatRepository.findById id repo) as [[[seat|]|err] repo']; cbn;
      [apply Hmiss| |]; by eexists.
  - destruct (ISeatRepository.findById id repo) as [[[seat|]|err] repo']; cbn;
      [apply Hmiss| |]; by eexists.
Qed.

(** Where the invalidation holds.  When [save] through the cached
    repository succeeds and Redis has served the deletion of the seat's key,
    Redis holds nothing under that key and the next [findById] for the id
    answers with what the wrapped repository holds after the write, whatever
    Redis held before and whatever it does with the commands of that read.
    The same goes for the key of the event's list when its deletion was
    served. *)
Lemma save_invalidates seat s saved s' :
  CachedSeatRepository.save seat s = (Ok saved, s') →
  serves 0 (redis_replies s) →
  ISeatRepository.save seat (CachedSeatRepository.repository s) =
    (Ok saved, CachedSeatRepository.repository s')
  ∧ redis_entries s' !! CachedSeatRepository.CACHE_KEYS_seat (Seat.id seat) = None
  ∧ (CachedSeatRepository.findById (Seat.id seat) s').1 =
      (ISeatRepository.findById (Seat.id seat) (CachedSeatRepository.repository s')).1
  ∧ (serves 1 (redis_replies s) →
     redis_entries s' !! CachedSeatRepository.CACHE_KEYS_eventSeats (Seat.eventId seat)
       = None).
Proof.
  intros Hsave Hserved.
  pose proof (wired_save_outcome seat s) as Hout.
  destruct (ISeatRepository.save seat (CachedSeatRepository.repository s))
    as [[saved'|err] repo'] eqn:Hwrapped; [|congruence].
  destruct Hout as (s1 & Hsave1 & Hrepo & Hentries & _).
  rewrite Hsave in Hsave1. injection Hsave1 as -> <-.
  cbv zeta in Hentries. rewrite (decide_True (P := serves 0 _)) in Hentries by done.
  assert (Hgone : redis_entries s'
                    !! CachedSeatRepository.CACHE_KEYS_seat (Seat.id seat) = None).
  { rewrite Hentries. case_decide.
    - rewrite lookup_delete_ne by (symmetry; apply CACHE_KEYS_disjoint).
      apply lookup_delete_eq.
    - apply lookup_delete_eq. }
  split; [by rewrite Hrepo|]. split; [done|]. split.
  - pose proof (wired_findById_outcome (Seat.id seat) s') as Hfind.
    cbv zeta in Hfind. rewrite Hgone in Hfind.
    replace (if decide (serves 0 (redis_replies s')) then ICache.value <$> None else None)
      with (@None ICache.Value) in Hfind by (by case_decide).
    destruct (ISeatRepository.findById (Seat.id seat) (CachedSeatRepository.repository s'))
      as [[[found|]|err] repo'']; destruct Hfind as (s'' & -> & _); done.
  - intros Hserved1. rewrite Hentries, (decide_True (P := serves 1 _)) by done.
    apply lookup_delete_eq.
Qed.
End WiredRepository.

Lemma save_invalidates_witness :
  let s := Sample.wired_repository Sample.db_available
             (CachedSeatRepository.cache Sample.cached_before_lock)
             [RedisService.Served; RedisService.Rejected "Connection is closed."] in
  let s' := (CachedSeatRepository.save Sample.locked_seat s).2 in
  redis_entries s' !! CachedSeatRepository.CACHE_KEYS_seat "s1" = None
  ∧ (CachedSeatRepository.findById "s1" s').1 =
      (ISeatRepository.findById "s1" (CachedSeatRepository.repository s')).1.
Proof.
  intros s s'.
  destruct (save_invalidates Sample.locked_seat s Sample.locked_seat s')
    as (_ & Hgone & Hfind & _).
  - vm_compute. reflexivity.
  - apply serves_0_cons. reflexivity.
  - split; [exact Hgone | exact Hfind].
Defined.

(** C6 against the code.  The decorator is documented to ensure that no
    stale data is seen after a write, and the Redis service swallows a
    rejected deletion.  Redis holds seat s1 as it was read, AVAILABLE at
    version 1; the locked seat is saved, the write reaches the table and
    [save] succeeds, while Redis rejects both deletions; the [findById] that
    follows answers with the AVAILABLE seat of before the write, the value
    cached before it, and not with the LOCKED seat the table holds. *)
Theorem failed_delete_leaves_stale_seat :
  let s := Sample.wired_repository Sample.db_available
             (CachedSeatRepository.cache Sample.cached_before_lock)
             [RedisService.Rejected "Connection is closed.";
              RedisService.Rejected "Connection is closed."] in
  ∃ s',
    CachedSeatRepository.save Sample.locked_seat s = (Ok Sample.locked_seat, s')
    ∧ (PrismaSeatRepository.findById "s1" (CachedSeatRepository.repository s')).1
        = Ok (Some Sample.locked_seat)
    ∧ (CachedSeatRepository.findById "s1" s).1
        = Ok (Some (seat_of_row "s1" Sample.available_s1))
    ∧ (CachedSeatRepository.findById "s1" s').1
        = Ok (Some (seat_of_row "s1" Sample.available_s1))
    ∧ seat_of_row "s1" Sample.available_s1 ≠ Sample.locked_seat.
Proof.
  cbv zeta. eexists. split; [vm_compute; reflexivity|].
  split; [vm_compute; reflexivity|].
  split; [vm_compute; reflexivity|].
  split; [vm_compute; reflexivity|].
  vm_compute. discriminate.
Qed.

(** ** The decorator over the Prisma repository *)

Lemma prisma_findById id (db : Prisma.Database) :
  ISeatRepository.findById id db = (Ok (seat_of_row id <$> Prisma.seats db !! id), db).
Proof. apply findById_row. Qed.

(** Reading through the cache never throws and never writes to the
    database, whatever the cache. *)
Lemma cached_findById_durable {C : Type} `{!ICache.t C} `{!Quiet C} id
    (s : CachedSeatRepository.t Prisma.Database C) :
  ∃ found s',
    CachedSeatRepository.findById id s = (Ok found, s')
    ∧ CachedSeatRepository.repository s' = CachedSeatRepository.repository s.
Proof.
  destruct (cached_findById_wrapped id s) as (r & s' & Hfind & [(p & -> & Hrepo)|[-> Hrepo]]).
  - by eexists _, _.
  - rewrite prisma_findById in Hfind, Hrepo. by eexists _, _.
Qed.

Lemma prisma_save_durable seat (db db' : Prisma.Database) e :
  PrismaSeatRepository.save seat db = (Err e, db') → db' = db.
Proof.
  destruct (decide (Seat.version seat = 1)) as [Hv|Hv].
  - rewrite save_create by done. repeat case_decide; congruence.
  - rewrite save_update by done.
    destruct (Prisma.seats db !! Seat.id seat); [case_decide|]; congruence.
Qed.

(** What a successful [save] did to the table. *)
Lemma prisma_save_Ok seat (db db' : Prisma.Database) saved :
  PrismaSeatRepository.save seat db = (Ok saved, db') →
  saved = seat
  ∧ ((Seat.version seat = 1 ∧ Prisma.seats db !! Seat.id seat = None
      ∧ db' = Prisma.with_seats
                (<[Seat.id seat := columns_of_seat seat]> (Prisma.seats db)) db)
     ∨ (∃ c, Prisma.seats db !! Seat.id seat = Some c
             ∧ Prisma.c_version c = Seat.version seat - 1
             ∧ db' = Prisma.with_seats
                       (<[Seat.id seat := updated c seat]> (Prisma.seats db)) db)).
Proof.
  destruct (decide (Seat.version seat = 1)) as [Hv|Hv].
  - rewrite save_create by done. case_decide as Hfree; [done|].
    case_decide; [|done].
    intros [= <- <-]. split; [done|]. left. split; [done|]. split; [|done].
    apply eq_None_not_Some. tauto.
  - rewrite save_update by done.
    destruct (Prisma.seats db !! Seat.id seat) as [c|]; [|done].
    case_decide; [|done]. intros [= <- <-]. split; [done|]. right. by exists c.
Qed.

(** [save] keeps versions at 1 or above, and a cached seat other than the
    one saved goes on mirroring its row. *)
Lemma prisma_save_mirrors seat (db db' : Prisma.Database) r (held : ICache.Store) :
  mirrors (Prisma.seats db) held → positive_versions (Prisma.seats db) →
  PrismaSeatRepository.save seat db = (r, db') →
  positive_versions (Prisma.seats db')
  ∧ ∀ held' : ICache.Store,
      (∀ id e, held' !! CachedSeatRepository.CACHE_KEYS_seat id = Some e →
               held !! CachedSeatRepository.CACHE_KEYS_seat id = Some e
               ∧ (id = Seat.id seat → db' = db)) →
      mirrors (Prisma.seats db') held'.
Proof.
  intros Hm Hp Hsave. destruct r as [saved|err].
  - apply prisma_save_Ok in Hsave as [_ [(Hv & Hnone & ->)|(c & Hc & Hcv & ->)]]; cbn.
    + split.
      * intros id' c' Hl. apply lookup_insert_Some in Hl as [[_ <-]|[_ Hl]].
        -- cbn. lia.
        -- by apply (Hp id').
      * intros held' Hsub id e He. destruct (Hsub id e He) as [He0 Hid].
        destruct (decide (id = Seat.id seat)) as [->|Hne].
        -- destruct (Hm _ _ He0) as (c & Hc & _). congruence.
        -- rewrite lookup_insert_ne by done. by apply Hm.
    + split.
      * intros id' c' Hl. apply lookup_insert_Some in Hl as [[_ <-]|[_ Hl]].
        -- cbn. specialize (Hp _ _ Hc). lia.
        -- by apply (Hp id').
      * intros held' Hsub id e He. destruct (Hsub id e He) as [He0 Hid].
        destruct (decide (id = Seat.id seat)) as [->|Hne].
        -- specialize (Hid eq_refl). apply (f_equal Prisma.seats) in Hid. cbn in Hid.
           rewrite Hid. by apply Hm.
        -- rewrite lookup_insert_ne by done. by apply Hm.
  - apply prisma_save_durable in Hsave as ->. split; [done|].
    intros held' Hsub id e He. destruct (Hsub id e He) as [He0 _]. by apply Hm.
Qed.

Section OverPrisma.
Implicit Types s : CachedSeatRepository.t Prisma.Database CacheContract.t.

Lemma mirrors_value db cache id e :
  mirrors db cache →
  cache !! CachedSeatRepository.CACHE_KEYS_seat id = Some e →
  ∃ c, db !! id = Some c
       ∧ ICache.value e = ICache.SeatValue (Seat.toJSON (seat_of_row id c)).
Proof. intros Hm He. by apply Hm. Qed.

Lemma cached_findById_coherent id s :
  coherent s →
  ∃ s',
    CachedSeatRepository.findById id s =
      (Ok (seat_of_row id <$> Prisma.seats (CachedSeatRepository.repository s) !! id), s')
    ∧ CachedSeatRepository.repository s' = CachedSeatRepository.repository s
    ∧ coherent s'.
Proof.
  intros [Hm Hp].
  destruct (CachedSeatRepository.cache s !! CachedSeatRepository.CACHE_KEYS_seat id)
    as [e|] eqn:He.
  - destruct (Hm id e He) as (c & Hc & Hv).
    rewrite (cached_findById_hit id s e _ He Hv), Hc, fromPersistence_toJSON_id.
    by exists s.
  - rewrite cached_findById_miss by (intros ? ?; congruence).
    rewrite prisma_findById.
    destruct (Prisma.seats (CachedSeatRepository.repository s) !! id) as [c|] eqn:Hc; cbn.
    + eexists. split; [done|]. split; [done|]. split; [|done].
      intros id' e'. cbn. intros He'.
      destruct (decide (id' = id)) as [->|Hne].
      * rewrite lookup_insert_eq in He'. injection He' as <-. by exists c.
      * rewrite lookup_insert_ne in He'
          by (intros Hk; apply CACHE_KEYS_seat_inj in Hk; done).
        by apply Hm.
    + eexists. by split.
Qed.

Lemma cached_save_coherent seat s r s' :
  coherent s → CachedSeatRepository.save seat s = (r, s') → coherent s'.
Proof.
  intros [Hm Hp]. rewrite cached_save_outcome.
  destruct (ISeatRepository.save seat (CachedSeatRepository.repository s))
    as [[saved|err] db'] eqn:Hsave.
  - intros [= <- <-].
    destruct (prisma_save_mirrors _ _ _ _ _ Hm Hp Hsave) as [Hp' Hm'].
    split; [|done]. apply Hm'. cbn. intros id e He.
    apply lookup_delete_Some in He as [_ He].
    apply lookup_delete_Some in He as [Hk He]. split; [done|]. congruence.
  - intros [= <- <-]. apply prisma_save_durable in Hsave as ->. by split.
Qed.
End OverPrisma.

(* ===================================================================== *)
(** * BookingService                                                     *)
(* ===================================================================== *)


Lemma admits_transition tr userId seat :
  admits tr userId seat = true → ∃ next, transition tr userId seat = Ok next.
Proof.
  destruct tr; cbn; unfold Seat.isAvailable, Seat.isLockedBy,
    Seat.lock, Seat.sell, Seat.release.
  - intros H%bool_decide_eq_true. rewrite decide_False by (by intros []). by eexists.
  - intros [H%bool_decide_eq_true _]%andb_true_iff.
    rewrite decide_False by (by intros []). by eexists.
  - intros [H%bool_decide_eq_true _]%andb_true_iff.
    rewrite decide_False by (by intros []). by eexists.
Qed.


Lemma transition_fields tr userId seat next :
  transition tr userId seat = Ok next →
  Seat.id next = Seat.id seat
  ∧ Seat.eventId next = Seat.eventId seat
  ∧ Seat.seatNumber next = Seat.seatNumber seat
  ∧ Seat.price next = Seat.price seat
  ∧ Seat.version next = Seat.version seat + 1.
Proof.
  destruct tr; cbn; intros H.
  - by apply lock_Ok in H as [_ ->].
  - by apply sell_Ok in H as [_ ->].
  - by apply release_Ok in H as [_ ->].
Qed.

Lemma updated_columns_of_seat id c tr userId next :
  transition tr userId (seat_of_row id c) = Ok next →
  updated c next = columns_of_seat next.
Proof.
  intros (_ & He & Hn & Hp & _)%transition_fields.
  unfold updated, columns_of_seat. rewrite He, Hn, Hp. by destruct c.
Qed.

(** ** Whatever the cache *)

Section AnyCache.
Context {C : Type} `{!ICache.t C} `{!Quiet C}.
Context {P : Type}.
Variable publisher : option (IEventPublisher.t P).
Variable Q : EventQueues.
Implicit Types st : BookingService.t (CachedSeatRepository.t Prisma.Database C) P.

(** The course of a request, step by step: the read through the cache, the
    guard, the entity method, the write through the cache. *)
Lemma request_outcome tr seatId userId st :
  ∃ found repo1,
    CachedSeatRepository.findById seatId (BookingService.seatRepository st) =
      (Ok found, repo1)
    ∧ CachedSeatRepository.repository repo1 = database st
    ∧ match found with
      | None =>
          request publisher Q tr seatId userId st =
            (Err (SeatNotFoundError seatId),
             BookingService.new repo1 (BookingService.eventPublisher st)
               (BookingService.clock st) (BookingService.console st))
      | Some seat =>
          if admits tr userId seat then
            ∃ next, transition tr userId seat = Ok next ∧
              match CachedSeatRepository.save next repo1 with
              | (Ok _, repo2) =>
                  ∃ pub' console',
                    request publisher Q tr seatId userId st =
                      (Ok next,
                       BookingService.new repo2 pub' (BookingService.clock st)
                         console')
              | (Err e, repo2) =>
                  request publisher Q tr seatId userId st =
                    (Err e,
                     BookingService.new repo2 (BookingService.eventPublisher st)
                       (BookingService.clock st) (BookingService.console st))
              end
          else
            request publisher Q tr seatId userId st =
              (Err (rejection tr seatId userId seat),
               BookingService.new repo1 (BookingService.eventPublisher st)
                 (BookingService.clock st) (BookingService.console st))
      end.
Proof.
  destruct st as [repo pub clk con].
  destruct (cached_findById_durable seatId repo) as (found & repo1 & Hfind & Hdb).
  exists found, repo1. split; [done|]. split; [done|].
  destruct found as [seat|].
  - destruct (admits tr userId seat) eqn:Ha.
    + destruct (admits_transition _ _ _ Ha) as [next Hnext]. exists next.
      split; [done|].
      destruct (CachedSeatRepository.save next repo1) as [[saved|err] repo2] eqn:Hsave.
      * destruct tr; cbn in Ha, Hnext |- *;
          unfold BookingService.lockSeat, BookingService.confirmSale,
            BookingService.releaseSeat, BookingService.on_seatRepository,
            BookingService.fire_and_forget; run;
          rewrite Hfind; cbn; rewrite Ha; cbn; rewrite Hnext; cbn; rewrite Hsave; cbn.
        -- destruct publisher as [pub0|]; cbn; [|by eexists _, _].
           match goal with |- context [IEventPublisher.publish ?q ?e ?p] =>
             destruct (IEventPublisher.publish q e p) as [[|] ?] end;
             by eexists _, _.
        -- destruct publisher as [pub0|]; cbn; [|by eexists _, _].
           match goal with |- context [IEventPublisher.publish ?q ?e ?p] =>
             destruct (IEventPublisher.publish q e p) as [[|] ?] end;
             by eexists _, _.
        -- by eexists _, _.
      * destruct tr; cbn in Ha, Hnext |- *;
          unfold BookingService.lockSeat, BookingService.confirmSale,
            BookingService.releaseSeat, BookingService.on_seatRepository; run;
          by rewrite Hfind; cbn; rewrite Ha; cbn; rewrite Hnext; cbn; rewrite Hsave.
    + destruct tr; cbn in Ha |- *;
        unfold BookingService.lockSeat, BookingService.confirmSale,
          BookingService.releaseSeat, BookingService.on_seatRepository; run;
        by rewrite Hfind; cbn; rewrite Ha.
  - destruct tr; cbn;
      unfold BookingService.lockSeat, BookingService.confirmSale,
        BookingService.releaseSeat, BookingService.on_seatRepository; run;
      by rewrite Hfind.
Qed.

End AnyCache.

(** ** With the cache of the contract *)

Section Production.
Context {P : Type}.
Variable publisher : option (IEventPublisher.t P).
Variable Q : EventQueues.
Implicit Types st : App P.

(** The course of a request from a coherent state, in terms of the row the
    table holds for the seat. *)
Lemma request_coherent tr seatId userId st :
  coherent (BookingService.seatRepository st) →
  ∃ st',
    coherent (BookingService.seatRepository st')
    ∧ match durable st !! seatId with
      | None =>
          request publisher Q tr seatId userId st =
            (Err (SeatNotFoundError seatId), st')
          ∧ durable st' = durable st
      | Some c =>
          if admits tr userId (seat_of_row seatId c) then
            ∃ next,
              transition tr userId (seat_of_row seatId c) = Ok next
              ∧ request publisher Q tr seatId userId st = (Ok next, st')
              ∧ durable st' = <[seatId := columns_of_seat next]> (durable st)
              ∧ cached st' !! CachedSeatRepository.CACHE_KEYS_seat seatId = None
              ∧ cached st'
                  !! CachedSeatRepository.CACHE_KEYS_eventSeats (Seat.eventId next)
                  = None
          else
            request publisher Q tr seatId userId st =
              (Err (rejection tr seatId userId (seat_of_row seatId c)), st')
            ∧ durable st' = durable st
      end.
Proof.
  intros Hco.
  destruct (request_outcome publisher Q tr seatId userId st)
    as (found & repo1 & Hfind & Hdb & Hreq).
  destruct (cached_findById_coherent seatId _ Hco) as (repo1' & Hfind' & _ & Hco1).
  rewrite Hfind in Hfind'. injection Hfind' as -> <-.
  unfold durable, database in *.
  destruct (Prisma.seats (CachedSeatRepository.repository (BookingService.seatRepository st))
              !! seatId) as [c|] eqn:Hc; cbn in Hreq.
  - destruct (admits tr userId (seat_of_row seatId c)) eqn:Ha.
    + destruct Hreq as (next & Hnext & Hreq).
      pose proof (transition_fields _ _ _ _ Hnext) as (Hid & _ & _ & _ & Hver).
      assert (Hsave : CachedSeatRepository.save next repo1 =
        (Ok next,
         CachedSeatRepository.new
           (Prisma.with_seats
              (<[seatId := columns_of_seat next]>
                 (Prisma.seats (CachedSeatRepository.repository repo1)))
              (CachedSeatRepository.repository repo1))
           (delete (CachedSeatRepository.CACHE_KEYS_eventSeats (Seat.eventId next))
              (delete (CachedSeatRepository.CACHE_KEYS_seat seatId)
                 (CachedSeatRepository.cache repo1)))
           (CachedSeatRepository.ttlSeconds repo1))).
      { rewrite cached_save_outcome. cbn.
        destruct Hco as [_ Hp]. specialize (Hp _ _ Hc).
        change (Seat.id (seat_of_row seatId c)) with seatId in Hid.
        change (Seat.version (seat_of_row seatId c)) with (Prisma.c_version c) in Hver.
        rewrite save_update by lia. rewrite Hid, Hdb, Hc.
        rewrite decide_True by lia.
        by rewrite (updated_columns_of_seat _ _ _ _ _ Hnext). }
      rewrite Hsave in Hreq. destruct Hreq as (pub' & console' & Hreq).
      eexists. split; [|exists next; split; [done|]; split; [exact Hreq|]].
      * cbn. eapply cached_save_coherent; [exact Hco1|exact Hsave].
      * cbn. rewrite Hdb. split; [done|]. split.
        -- rewrite lookup_delete_ne by (symmetry; apply CACHE_KEYS_disjoint).
           apply lookup_delete_eq.
        -- apply lookup_delete_eq.
    + eexists. split; [|split; [exact Hreq|]]; [done|]. cbn. by rewrite Hdb.
  - eexists. split; [|split; [exact Hreq|]]; [done|]. cbn. by rewrite Hdb.
Qed.

(** C4.  The entity methods [lock], [sell] and [release], when they succeed,
    return a seat whose version is the receiver's plus one.  A request that
    succeeds returns the seat it read with the version plus one and leaves
    the row at that version, one above the version the row had; a request
    that fails, whether refused by a guard or by [save], leaves the table as
    it was. *)
Theorem transition_steps_version tr seatId userId st :
  (∀ s : Seat.t,
     match transition tr userId s with
     | Ok s' => Seat.version s' = Seat.version s + 1
     | Err _ => True
     end)
  ∧ match request publisher Q tr seatId userId st with
    | (Ok next, st') =>
        (∃ seat,
           (CachedSeatRepository.findById seatId (BookingService.seatRepository st)).1
             = Ok (Some seat)
           ∧ transition tr userId seat = Ok next
           ∧ Seat.version next = Seat.version seat + 1)
        ∧ Prisma.c_version <$> durable st' !! Seat.id next = Some (Seat.version next)
        ∧ match durable st !! Seat.id next with
          | Some c => Seat.version next = Prisma.c_version c + 1
          | None => Seat.version next = 1
          end
    | (Err e, st') => durable st' = durable st
    end.
Proof.
  split.
  { intros s. destruct (transition tr userId s) eqn:Ht; [|done].
    by eapply transition_version. }
  destruct (request_outcome publisher Q tr seatId userId st) as (found & repo1 & Hfind & Hdb & Hreq).
  assert (Hkept : Prisma.seats (CachedSeatRepository.repository repo1) = durable st).
  { by rewrite Hdb. }
  destruct found as [seat|]; [|by rewrite Hreq].
  destruct (admits tr userId seat); [|by rewrite Hreq].
  destruct Hreq as (next & Hnext & Hreq).
  rewrite cached_save_outcome in Hreq. cbn in Hreq.
  destruct (PrismaSeatRepository.save next (CachedSeatRepository.repository repo1))
    as [[saved|err] db'] eqn:Hsave.
  - destruct Hreq as (pub' & console' & ->). rewrite Hfind. cbn.
    split; [exists seat; split; [done|]; split; [done|]; by eapply transition_version|].
    rewrite <-Hkept. unfold durable, database; cbn.
    apply prisma_save_Ok in Hsave as [_ [(Hv & Hnone & ->)|(c & Hc & Hcv & ->)]]; cbn.
    + by rewrite lookup_insert_eq, Hnone.
    + rewrite lookup_insert_eq, Hc. cbn. split; [done|lia].
  - rewrite Hreq. rewrite <-Hkept. unfold durable, database; cbn.
    apply prisma_save_durable in Hsave. by rewrite Hsave.
Qed.


End Production.

(** ** With the Redis service: the wiring of container.ts *)

Section Container.
Context {P : Type}.
Variable publisher : option (IEventPublisher.t P).
Variable Q : EventQueues.
Implicit Types st : Wired P.

(** C3, as the code has it.  [lockSeat] reads the seat through the cache,
    which never throws, and leaves the database as it was up to the write.
    When the read finds no seat it fails with SeatNotFoundError; when the
    seat read is not AVAILABLE it fails with SeatNotAvailableError carrying
    the status read.  Otherwise it builds the seat read with status LOCKED,
    the requester as holder and the version plus one, and saves exactly that
    record through the decorator, whose write is the Prisma repository's:
    when that write succeeds, [lockSeat] returns the record and the row of
    its id is LOCKED, held by the requester, at the record's version; when
    it fails, as the conditional update does on a seat read from a stale
    cache entry, the error of [save] is the error of [lockSeat] and the
    database is as it was. *)
Theorem lockSeat_outcome seatId userId st :
  ∃ found repo1,
    CachedSeatRepository.findById seatId (BookingService.seatRepository st) =
      (Ok found, repo1)
    ∧ CachedSeatRepository.repository repo1 = database st
    ∧ match found with
      | None =>
          ∃ st',
            BookingService.lockSeat publisher Q seatId userId st =
              (Err (SeatNotFoundError seatId), st')
            ∧ database st' = database st
      | Some seat =>
          if decide (Seat.status seat = AVAILABLE) then
            let locked :=
              Seat.new (Seat.with_ (Seat.props seat) LOCKED (Some userId)
                          (Seat.version seat + 1)) in
            ∃ st',
              BookingService.seatRepository st' =
                (CachedSeatRepository.save locked repo1).2
              ∧ match PrismaSeatRepository.save locked (database st) with
                | (Ok _, db') =>
                    BookingService.lockSeat publisher Q seatId userId st =
                      (Ok locked, st')
                    ∧ database st' = db'
                    ∧ ∃ c, durable st' !! Seat.id locked = Some c
                           ∧ Prisma.c_status c = Prisma.P_LOCKED
                           ∧ Prisma.c_userId c = Some userId
                           ∧ Prisma.c_version c = Seat.version seat + 1
                | (Err e, _) =>
                    BookingService.lockSeat publisher Q seatId userId st = (Err e, st')
                    ∧ database st' = database st
                end
          else
            ∃ st',
              BookingService.lockSeat publisher Q seatId userId st =
                (Err (SeatNotAvailableError seatId (SeatStatus_str (Seat.status seat))),
                 st')
              ∧ database st' = database st
      end.
Proof.
  destruct (request_outcome publisher Q Lock seatId userId st)
    as (found & repo1 & Hfind & Hdb & Hreq).
  exists found, repo1. split; [done|]. split; [done|].
  cbn [request] in Hreq.
  destruct found as [seat|]; [|by eexists].
  cbn [admits rejection transition] in Hreq. unfold Seat.isAvailable in Hreq.
  destruct (decide (Seat.status seat = AVAILABLE)) as [Hst|Hst].
  - rewrite bool_decide_eq_true_2 in Hreq by done.
    destruct Hreq as (next & [_ ->]%lock_Ok & Hreq). cbv zeta.
    destruct (cached_save_wrapped
                (Seat.new (Seat.with_ (Seat.props seat) LOCKED (Some userId)
                             (Seat.version seat + 1))) repo1)
      as (repo2 & Hsave & Hrepo & _).
    rewrite Hsave in Hreq |- *. cbn [snd]. rewrite Hdb in Hrepo, Hreq.
    cbn [ISeatRepository.save PrismaSeatRepository.repository] in Hreq, Hrepo.
    destruct (PrismaSeatRepository.save _ (database st)) as [[saved|err] db'] eqn:Hprisma;
      cbn [fst snd] in Hreq, Hrepo.
    + destruct Hreq as (pub' & console' & Hreq). eexists. split; [|split; [exact Hreq|]].
      * done.
      * split; [done|]. unfold durable, database. cbn. rewrite Hrepo.
        apply prisma_save_Ok in Hprisma as [_ [(_ & _ & ->)|(c & _ & _ & ->)]]; cbn;
          rewrite lookup_insert_eq; by eexists.
    + eexists. split; [|split; [exact Hreq|]]; [done|].
      unfold database at 1. cbn. rewrite Hrepo.
      by apply prisma_save_durable in Hprisma.
  - rewrite bool_decide_eq_false_2 in Hreq by done. by eexists.
Qed.

End Container.


(** ** The properties at the sample data *)

Lemma coherent_empty_cache (db : Prisma.Database) ttl :
  positive_versions (Prisma.seats db) → coherent (CachedSeatRepository.new db ∅ ttl).
Proof. intros Hp. split; [|done]. intros id e He. cbn in He. by rewrite lookup_empty in He. Qed.

Lemma positive_versions_singleton id c :
  1 ≤ Prisma.c_version c → positive_versions {[ id := c ]}.
Proof. intros Hv id' c' [_ <-]%lookup_singleton_Some. done. Qed.

(** After the write of the locked seat, the read that follows answers with
    the locked seat although the cache held the available one. *)
Example findById_after_save :
  (CachedSeatRepository.findById "s1"
     (CachedSeatRepository.save Sample.locked_seat Sample.cached_before_lock).2).1
  = Ok (Some Sample.locked_seat).
Proof. vm_compute. reflexivity. Qed.

(** With Redis empty and serving, the lock of the AVAILABLE seat s1 by u1
    returns the LOCKED seat and leaves the row LOCKED. *)
Example lockSeat_locks_available :
  ∃ st',
    BookingService.lockSeat Sample.rabbit Sample.queues "s1" "u1"
      (Sample.wired Sample.db_available ∅ [] Sample.amqp_up) =
      (Ok Sample.locked_seat, st')
    ∧ database st' = Sample.db_locked.
Proof. eexists. split; vm_compute; reflexivity. Qed.

(** C3, as stated, fails on a seat read from a stale cache entry.  Row s1
    is LOCKED by u1 at version 2, and Redis, which serves every command,
    still holds the seat as it was read before that lock, AVAILABLE at
    version 1.  The lock by u2 reads that entry and fails with
    ConcurrencyError on version 1: not with
    SeatNotAvailableError("LOCKED"), though the seat is present and LOCKED,
    and not by returning a record.  The database stays as it was. *)
Lemma lockSeat_stale_read_conflicts :
  let st :=
    Sample.wired Sample.db_locked
      (CachedSeatRepository.cache Sample.cached_before_lock) [] Sample.amqp_up in
  durable st !! "s1" = Some Sample.locked_s1
  ∧ Prisma.c_status Sample.locked_s1 = Prisma.P_LOCKED
  ∧ ∃ st',
      BookingService.lockSeat Sample.rabbit Sample.queues "s1" "u2" st =
        (Err (ConcurrencyError "Seat" "s1" 1), st')
      ∧ (BookingService.lockSeat Sample.rabbit Sample.queues "s1" "u2" st).1
          ≠ Err (SeatNotAvailableError "s1" "LOCKED")
      ∧ database st' = database st.
Proof.
  cbv zeta. split; [vm_compute; reflexivity|]. split; [reflexivity|].
  eexists. split; [vm_compute; reflexivity|].
  split; [vm_compute; discriminate|].
  vm_compute. reflexivity.
Qed.

(** Such an entry is also what two rejected deletions leave.  Redis serves
    the read and the write of the entry and rejects the deletions of the
    [save]: the lock of seat s1 by u1 succeeds, the row is LOCKED by u1 at
    version 2, and the lock by u2 that follows fails with ConcurrencyError
    on version 1. *)
Example lockSeat_after_rejected_deletions :
  let st :=
    Sample.wired Sample.db_available ∅
      [RedisService.Served; RedisService.Served;
       RedisService.Rejected "Connection is closed.";
       RedisService.Rejected "Connection is closed."]
      Sample.amqp_up in
  ∃ st1 st2,
    BookingService.lockSeat Sample.rabbit Sample.queues "s1" "u1" st =
      (Ok Sample.locked_seat, st1)
    ∧ durable st1 !! "s1" = Some Sample.locked_s1
    ∧ BookingService.lockSeat Sample.rabbit Sample.queues "s1" "u2" st1 =
        (Err (ConcurrencyError "Seat" "s1" 1), st2)
    ∧ database st2 = database st1.
Proof.
  cbv zeta. eexists _, _. split; [vm_compute; reflexivity|].
  split; [vm_compute; reflexivity|].
  split; [vm_compute; reflexivity|].
  vm_compute. reflexivity.
Qed.



(* ===================================================================== *)
(** * RabbitMQEventPublisher                                             *)
(* ===================================================================== *)

Lemma publisher_publish_outcome queue event (s : RabbitMQEventPublisher.t) :
  RabbitMQEventPublisher.publish queue event s =
    match RabbitMQClient.publish queue event
            (Some (RabbitMQClient.headers_only
                     [("x-correlation-id",
                       default (RabbitMQEventPublisher.getCorrelationId s)
                         (correlationId event))]))
            (RabbitMQEventPublisher.client s) with
    | (Ok _, client') =>
        (Ok tt,
         RabbitMQEventPublisher.new client'
           (RabbitMQEventPublisher.requestContext s) (RabbitMQEventPublisher.uuidv4 s)
           (RabbitMQEventPublisher.logger s ++
              [{| RabbitMQEventPublisher.level := RabbitMQEventPublisher.info;
                  RabbitMQEventPublisher.text := "Event published";
                  RabbitMQEventPublisher.meta :=
                    [("eventType", eventType event); ("queue", queue)] |}]))
    | (Err err, client') =>
        (Ok tt,
         RabbitMQEventPublisher.new client'
           (RabbitMQEventPublisher.requestContext s) (RabbitMQEventPublisher.uuidv4 s)
           (RabbitMQEventPublisher.logger s ++
              [{| RabbitMQEventPublisher.level := RabbitMQEventPublisher.error;
                  RabbitMQEventPublisher.text := "Failed to publish event";
                  RabbitMQEventPublisher.meta :=
                    [("eventType", eventType event); ("queue", queue);
                     ("error", message err)] |}]))
    end.
Proof.
  destruct s as [client ctx uuid lines].
  unfold RabbitMQEventPublisher.publish, RabbitMQEventPublisher.on_client,
    RabbitMQEventPublisher.log. run.
  by destruct (RabbitMQClient.publish _ _ _ client) as [[b|err] client'].
Qed.

(** The connection can fail for good: with nothing listening, the client's
    [publish] throws after its five attempts, having waited 1, 2, 4 and 8
    seconds between them. *)
Example client_publish_fails :
  ∃ c',
    RabbitMQClient.publish "ticket_generation_queue"
      (createSeatSoldEvent "s1" "evt-1" "u1" "A-1" 1500 None 1000) None
      (Sample.client Sample.amqp_down) =
      (Err (Error_ "[RabbitMQ] Failed to connect after 5 attempts: connect ECONNREFUSED"),
       c')
    ∧ RabbitMQClient.slept c' = [1000; 2000; 4000; 8000].
Proof. eexists. split; vm_compute; reflexivity. Qed.

(** C8.  [publish] of the RabbitMQ publisher returns normally whatever the
    client does: when the client's [publish] throws, while connecting or
    while delivering, the error is logged and nothing is raised.  And a
    request of the booking service gives the same result and leaves the same
    repository with any publisher, even a throwing one, as with none. *)
Theorem publish_never_raises :
  (∀ queue event (s : RabbitMQEventPublisher.t),
     ∃ s',
       RabbitMQEventPublisher.publish queue event s = (Ok tt, s')
       ∧ match RabbitMQClient.publish queue event
                 (Some (RabbitMQClient.headers_only
                          [("x-correlation-id",
                            default (RabbitMQEventPublisher.getCorrelationId s)
                              (correlationId event))]))
                 (RabbitMQEventPublisher.client s) with
         | (Ok _, client') =>
             RabbitMQEventPublisher.client s' = client'
             ∧ RabbitMQEventPublisher.logger s' =
                 RabbitMQEventPublisher.logger s ++
                   [{| RabbitMQEventPublisher.level := RabbitMQEventPublisher.info;
                       RabbitMQEventPublisher.text := "Event published";
                       RabbitMQEventPublisher.meta :=
                         [("eventType", eventType event); ("queue", queue)] |}]
         | (Err err, client') =>
             RabbitMQEventPublisher.client s' = client'
             ∧ RabbitMQEventPublisher.logger s' =
                 RabbitMQEventPublisher.logger s ++
                   [{| RabbitMQEventPublisher.level := RabbitMQEventPublisher.error;
                       RabbitMQEventPublisher.text := "Failed to publish event";
                       RabbitMQEventPublisher.meta :=
                         [("eventType", eventType event); ("queue", queue);
                          ("error", message err)] |}]
         end)
  ∧ (∀ (P : Type) (pub : IEventPublisher.t P) (Q : EventQueues) tr seatId userId
       (st : App P),
       (request (Some pub) Q tr seatId userId st).1 =
         (request None Q tr seatId userId st).1
       ∧ BookingService.seatRepository (request (Some pub) Q tr seatId userId st).2 =
           BookingService.seatRepository (request None Q tr seatId userId st).2).
Proof.
  split.
  - intros queue event s. rewrite publisher_publish_outcome.
    destruct (RabbitMQClient.publish _ _ _ (RabbitMQEventPublisher.client s))
      as [[b|err] client']; by eexists.
  - intros P pub Q tr seatId userId st.
    destruct (request_outcome (Some pub) Q tr seatId userId st)
      as (found & repo1 & Hfind & _ & Hsome).
    destruct (request_outcome None Q tr seatId userId st)
      as (found' & repo1' & Hfind' & _ & Hnone).
    rewrite Hfind in Hfind'. injection Hfind' as <- <-.
    destruct found as [seat|]; [|by rewrite Hsome, Hnone].
    destruct (admits tr userId seat); [|by rewrite Hsome, Hnone].
    destruct Hsome as (next & Hnext & Hsome).
    destruct Hnone as (next' & Hnext' & Hnone).
    rewrite Hnext in Hnext'. injection Hnext' as <-.
    destruct (CachedSeatRepository.save next repo1) as [[saved|err] repo2].
    + destruct Hsome as (? & ? & ->). by destruct Hnone as (? & ? & ->).
    + by rewrite Hsome, Hnone.
Qed.

(* ===================================================================== *)
(** * The worker                                                         *)
(* ===================================================================== *)

Section WorkerHandler.
Variable JSON_parse : string → Result Worker.MessageContent.
Variable uuidv4 : string.
Variable pdf_work email_work : string → string → Result unit.

(** C9.  The broker hands the worker the message at the head of the queue.
    The callback returns normally and leaves no message outstanding.  When
    the body parses and both tasks succeed, generatePDF and then
    sendEmailNotification have run and the one settlement sent is the
    acknowledgement, after which the message is in the queue no more.  When
    the parse or a task throws, the one settlement sent is the negative
    acknowledgement with requeue set, and the message is back at the head of
    the queue. *)
Theorem on_message_acks_or_requeues (msg : Worker.ConsumeMessage)
    (rest : list Worker.ConsumeMessage) (s0 : Worker.t) :
  let s := Worker.set_channel {| Worker.ready := msg :: rest; Worker.unacked := None |} s0 in
  ∃ s',
    Worker.deliver JSON_parse uuidv4 pdf_work email_work s = (Ok tt, s')
    ∧ Worker.unacked (Worker.channel s') = None
    ∧ match JSON_parse (Worker.content msg) with
      | Ok body =>
          match pdf_work (Worker.seatId body) (Worker.seatNumber body),
                email_work (Worker.userId body) (Worker.seatNumber body) with
          | Ok _, Ok _ =>
              Worker.settlements s' = Worker.settlements s0 ++ [Worker.Ack msg]
              ∧ Worker.ready (Worker.channel s') = rest
              ∧ Worker.tasks s' =
                  Worker.tasks s0 ++ ["generatePDF"; "sendEmailNotification"]
          | Ok _, Err _ =>
              Worker.settlements s' =
                Worker.settlements s0 ++ [Worker.Nack msg false true]
              ∧ Worker.ready (Worker.channel s') = msg :: rest
              ∧ Worker.tasks s' =
                  Worker.tasks s0 ++ ["generatePDF"; "sendEmailNotification"]
          | Err _, _ =>
              Worker.settlements s' =
                Worker.settlements s0 ++ [Worker.Nack msg false true]
              ∧ Worker.ready (Worker.channel s') = msg :: rest
              ∧ Worker.tasks s' = Worker.tasks s0 ++ ["generatePDF"]
          end
      | Err _ =>
          Worker.settlements s' =
            Worker.settlements s0 ++ [Worker.Nack msg false true]
          ∧ Worker.ready (Worker.channel s') = msg :: rest
          ∧ Worker.tasks s' = Worker.tasks s0
      end.
Proof.
  intros s. subst s. destruct s0 as [chan cid setl tsk lines].
  unfold Worker.deliver, Worker.on_message, Worker.try_finally,
    Worker.processSeatSoldEvent, Worker.generatePDF, Worker.sendEmailNotification,
    Worker.channel_ack, Worker.channel_nack, Worker.set_currentCorrelationId,
    Worker.log, Worker.task_started, Worker.set_channel. run.
  destruct (JSON_parse (Worker.content msg)) as [body|err]; cbn.
  - destruct (pdf_work (Worker.seatId body) (Worker.seatNumber body)) as [[]|err1]; cbn.
    + destruct (email_work (Worker.userId body) (Worker.seatNumber body)) as [[]|err2]; cbn.
      * eexists. split; [done|]. cbn. rewrite decide_True by done.
        split; [done|]. split; [done|]. split; [done|]. by rewrite <-(assoc_L (++)).
      * eexists. split; [done|]. cbn. rewrite decide_True by done.
        split; [done|]. split; [done|]. split; [done|]. by rewrite <-(assoc_L (++)).
    + eexists. split; [done|]. cbn. rewrite decide_True by done.
      by destruct (email_work (Worker.userId body) (Worker.seatNumber body)).
  - eexists. split; [done|]. cbn. by rewrite decide_True by done.
Qed.

End WorkerHandler.

(** A message whose processing fails is delivered again by the next
    hand-over, and settles for good once the work succeeds. *)
Example failed_message_is_redelivered :
  let s := Worker.set_channel
             {| Worker.ready := [Sample.sold_message]; Worker.unacked := None |}
             Sample.idle_worker in
  let failing (_ _ : string) : Result unit := Err (Error_ "SMTP down") in
  let s1 := (Worker.deliver Sample.parse "generated" Worker.simulated_work failing s).2 in
  let s2 := (Worker.deliver Sample.parse "generated" Worker.simulated_work
               Worker.simulated_work s1).2 in
  Worker.ready (Worker.channel s1) = [Sample.sold_message]
  ∧ Worker.settlements s1 = [Worker.Nack Sample.sold_message false true]
  ∧ Worker.ready (Worker.channel s2) = []
  ∧ Worker.settlements s2 =
      [Worker.Nack Sample.sold_message false true; Worker.Ack Sample.sold_message].
Proof. repeat split; vm_compute; reflexivity. Qed.

(* ===================================================================== *)
(** * The list of an event's seats, and the test double                  *)
(* ===================================================================== *)

(** Reading the seats of an event through the cache keeps a state
    coherent: it writes under the list key only. *)
Lemma cached_findByEventId_coherent eventId
    (s : CachedSeatRepository.t Prisma.Database CacheContract.t) r s' :
  coherent s → CachedSeatRepository.findByEventId eventId s = (r, s') →
  coherent s' ∧ CachedSeatRepository.repository s' = CachedSeatRepository.repository s.
Proof.
  intros [Hm Hp]. destruct s as [db cache ttl].
  unfold CachedSeatRepository.findByEventId, CachedSeatRepository.on_cache,
    CachedSeatRepository.on_repository, ICache.get, ICache.set,
    CacheContract.get, CacheContract.set. run.
  unfold PrismaSeatRepository.findByEventId. run.
  assert (Hset : ∀ v, mirrors (Prisma.seats db)
    (<[CachedSeatRepository.CACHE_KEYS_eventSeats eventId := v]> cache)).
  { intros v id e He. rewrite lookup_insert_ne in He by (symmetry; apply CACHE_KEYS_disjoint).
    by apply Hm. }
  destruct (cache !! CachedSeatRepository.CACHE_KEYS_eventSeats eventId) as [e|]; cbn.
  - destruct (ICache.value e) as [p|ps]; cbn.
    + case_decide; cbn; intros [= <- <-];
        (split; [split; [first [apply Hset | exact Hm] | exact Hp] | done]).
    + intros [= <- <-]. by split.
  - case_decide; cbn; intros [= <- <-];
      (split; [split; [first [apply Hset | exact Hm] | exact Hp] | done]).
Qed.

(** The service over the in-memory repository, without a publisher, as the
    unit tests of the service build it: a lock then a sale by the holder,
    and a second sale that is refused. *)
Example in_memory_lock_sell_sell :
  let service : BookingService.t InMemorySeatRepository.t unit :=
    BookingService.new
      (InMemorySeatRepository.seed [Seat.create "seat-1" "event-1" "A1" 100] [])
      tt 0 [] in
  let lock := BookingService.lockSeat None Sample.queues "seat-1" "user-123" service in
  let sale := BookingService.confirmSale None Sample.queues "seat-1" "user-123" lock.2 in
  let again := BookingService.confirmSale None Sample.queues "seat-1" "user-123" sale.2 in
  (∃ locked, lock.1 = Ok locked ∧ Seat.status locked = LOCKED
             ∧ Seat.userId locked = Some "user-123" ∧ Seat.version locked = 2)
  ∧ (∃ sold, sale.1 = Ok sold ∧ Seat.status sold = SOLD
             ∧ Seat.userId sold = Some "user-123" ∧ Seat.version sold = 3)
  ∧ again.1 = Err (UnauthorizedLockError "user-123" "seat-1").
Proof.
  cbv zeta. split; [|split].
  - eexists. split; [vm_compute; reflexivity|]. by repeat split.
  - eexists. split; [vm_compute; reflexivity|]. by repeat split.
  - vm_compute. reflexivity.
Qed.

(* ===================================================================== *)
(** * Further properties of the seat entity                              *)
(* ===================================================================== *)

(** X1.  The transition table of the entity.  An AVAILABLE seat can only be
    locked, a LOCKED seat can only be sold or released, a SOLD seat admits
    nothing; every refused call throws an Error naming the method and the
    current status. *)
Theorem seat_transition_table (userId : string) (s : Seat.t) :
  match Seat.status s with
  | AVAILABLE =>
      (∃ s', Seat.lock userId s = Ok s' ∧ Seat.status s' = LOCKED)
      ∧ Seat.sell s = Err (Error_ "Cannot sell seat: current status is AVAILABLE")
      ∧ Seat.release s =
          Err (Error_ "Cannot release seat: current status is AVAILABLE")
  | LOCKED =>
      Seat.lock userId s = Err (Error_ "Cannot lock seat: current status is LOCKED")
      ∧ (∃ s', Seat.sell s = Ok s' ∧ Seat.status s' = SOLD)
      ∧ (∃ s', Seat.release s = Ok s' ∧ Seat.status s' = AVAILABLE)
  | SOLD =>
      Seat.lock userId s = Err (Error_ "Cannot lock seat: current status is SOLD")
      ∧ Seat.sell s = Err (Error_ "Cannot sell seat: current status is SOLD")
      ∧ Seat.release s = Err (Error_ "Cannot release seat: current status is SOLD")
  end.
Proof.
  unfold Seat.lock, Seat.sell, Seat.release.
  destruct (Seat.status s) eqn:Hst; cbn; repeat split; by eexists.
Qed.

(** X2.  A transition changes status, holder and version only: the id, the
    event, the seat number and the price of the seat returned are those of
    the receiver; the holder is the user given to [lock], is kept by [sell]
    and is cleared by [release]. *)
Theorem transition_keeps_identity (tr : Transition) (userId : string) (s : Seat.t) :
  match transition tr userId s with
  | Ok s' =>
      Seat.id s' = Seat.id s
      ∧ Seat.eventId s' = Seat.eventId s
      ∧ Seat.seatNumber s' = Seat.seatNumber s
      ∧ Seat.price s' = Seat.price s
      ∧ Seat.userId s' =
          match tr with
          | Lock => Some userId
          | Sell => Seat.userId s
          | Release => None
          end
  | Err _ => True
  end.
Proof.
  destruct (transition tr userId s) as [s'|] eqn:Ht; [|done].
  destruct tr; cbn in Ht.
  - by apply lock_Ok in Ht as [_ ->].
  - by apply sell_Ok in Ht as [_ ->].
  - by apply release_Ok in Ht as [_ ->].
Qed.

(** X3.  Locking an AVAILABLE seat and releasing it gives the seat back as
    AVAILABLE, without holder, two versions later, and with everything else
    as it was. *)
Theorem lock_release_round_trip (userId : string) (s : Seat.t) :
  Seat.status s = AVAILABLE →
  ∃ locked,
    Seat.lock userId s = Ok locked
    ∧ Seat.release locked =
        Ok (Seat.new (Seat.with_ (Seat.props s) AVAILABLE None (Seat.version s + 2))).
Proof.
  intros Hst. unfold Seat.lock. rewrite decide_False by (by intros []).
  eexists. split; [done|].
  unfold Seat.release. cbn. do 3 f_equal. unfold Seat.version; cbn. lia.
Qed.

Lemma lock_release_round_trip_witness :
  ∃ locked,
    Seat.lock "u1" (Seat.create "s1" "evt-1" "A-1" 1500) = Ok locked
    ∧ Seat.release locked =
        Ok (Seat.new (Seat.with_ (Seat.props (Seat.create "s1" "evt-1" "A-1" 1500))
                        AVAILABLE None 3)).
Proof.
  apply (lock_release_round_trip "u1" (Seat.create "s1" "evt-1" "A-1" 1500)).
  reflexivity.
Defined.

(** X4.  On a seat reachable from creation the version is at least 1 and its
    parity tells whether the seat is held: the seat is LOCKED exactly when
    its version is even. *)
Theorem reachable_version_parity (s : Seat.t) :
  reachable s →
  1 ≤ Seat.version s
  ∧ (Seat.status s = LOCKED ↔ Z.even (Seat.version s) = true).
Proof.
  induction 1 as [| u s s' _ [IH1 IH2] H | s s' _ [IH1 IH2] H | s s' _ [IH1 IH2] H].
  - cbn. split; [lia|]. split; done.
  - apply lock_Ok in H as [Hst ->]. cbn. split; [lia|]. split; [intros _|done].
    assert (He : Z.even (Seat.version s) = false).
    { apply not_true_is_false. intros He. apply IH2 in He. congruence. }
    unfold Seat.version in *. rewrite Z.even_add, He. done.
  - apply sell_Ok in H as [Hst ->]. cbn. split; [lia|]. split; [done|].
    apply IH2 in Hst. unfold Seat.version in *. rewrite Z.even_add, Hst. done.
  - apply release_Ok in H as [Hst ->]. cbn. split; [lia|]. split; [done|].
    apply IH2 in Hst. unfold Seat.version in *. rewrite Z.even_add, Hst. done.
Qed.

Lemma reachable_version_parity_witness :
  1 ≤ Seat.version Sample.sold_seat
  ∧ (Seat.status Sample.sold_seat = LOCKED ↔ Z.even (Seat.version Sample.sold_seat) = true).
Proof.
  apply (reachable_version_parity Sample.sold_seat), sold_seat_reachable.
Defined.

(* ===================================================================== *)
(** * Further properties of PrismaSeatRepository                         *)
(* ===================================================================== *)

(** Every outcome of [save], with the table it leaves. *)
Lemma prisma_save_cases seat (db db' : Prisma.Database) r :
  PrismaSeatRepository.save seat db = (r, db') →
  (db' = db ∧ ∃ e, r = Err e)
  ∨ (r = Ok seat ∧ Seat.version seat = 1
     ∧ Prisma.seats db !! Seat.id seat = None
     ∧ ¬ Prisma.seat_taken (Seat.eventId seat) (Seat.seatNumber seat) (Prisma.seats db)
     ∧ db' = Prisma.with_seats
               (<[Seat.id seat := columns_of_seat seat]> (Prisma.seats db)) db)
  ∨ (r = Ok seat ∧ Seat.version seat ≠ 1
     ∧ ∃ c, Prisma.seats db !! Seat.id seat = Some c
            ∧ Prisma.c_version c = Seat.version seat - 1
            ∧ db' = Prisma.with_seats
                      (<[Seat.id seat := updated c seat]> (Prisma.seats db)) db).
Proof.
  destruct (decide (Seat.version seat = 1)) as [Hv|Hv].
  - rewrite save_create by done. case_decide as Hfree; [|case_decide].
    + intros [= <- <-]. left. split; [done|by eexists].
    + intros [= <- <-]. right. left. split; [done|]. split; [done|].
      split; [apply eq_None_not_Some; tauto|]. split; [tauto|done].
    + intros [= <- <-]. left. split; [done|by eexists].
  - rewrite save_update by done.
    destruct (Prisma.seats db !! Seat.id seat) as [c|] eqn:Hc.
    + case_decide.
      * intros [= <- <-]. right. right. split; [done|]. split; [done|]. by exists c.
      * intros [= <- <-]. left. split; [done|by eexists].
    + intros [= <- <-]. left. split; [done|by eexists].
Qed.

(** X5.  [save] touches the row of the record's id and no other: whatever
    its outcome, every other row reads as before, and no row is removed. *)
Theorem save_touches_one_row (seat : Seat.t) (db : Prisma.Database) :
  let db' := (PrismaSeatRepository.save seat db).2 in
  (∀ id, id ≠ Seat.id seat → Prisma.seats db' !! id = Prisma.seats db !! id)
  ∧ (∀ id, is_Some (Prisma.seats db !! id) → is_Some (Prisma.seats db' !! id)).
Proof.
  intros db'. subst db'.
  destruct (PrismaSeatRepository.save seat db) as [r db'] eqn:Hsave. cbn.
  apply prisma_save_cases in Hsave
    as [[-> _]|[(_ & _ & _ & _ & ->)|(_ & _ & c & _ & _ & ->)]]; [done| |]; cbn.
  - split.
    + intros id Hne. by rewrite lookup_insert_ne.
    + intros id Hs. destruct (decide (id = Seat.id seat)) as [->|Hne].
      * rewrite lookup_insert_eq. by eexists.
      * by rewrite lookup_insert_ne.
  - split.
    + intros id Hne. by rewrite lookup_insert_ne.
    + intros id Hs. destruct (decide (id = Seat.id seat)) as [->|Hne].
      * rewrite lookup_insert_eq. by eexists.
      * by rewrite lookup_insert_ne.
Qed.

(** X6.  Of two writers that save records of the same id and the same
    version one after the other, the second fails and the table keeps what
    the first wrote: with ConcurrencyError on the expected version for an
    update, with the unique-constraint error for an insert. *)
Theorem save_second_writer_fails (a b : Seat.t) (db db1 : Prisma.Database) saved :
  PrismaSeatRepository.save a db = (Ok saved, db1) →
  Seat.id b = Seat.id a →
  Seat.version b = Seat.version a →
  PrismaSeatRepository.save b db1 =
    (Err (if decide (Seat.version b = 1)
          then PrismaClientKnownRequestError "P2002"
          else ConcurrencyError "Seat" (Seat.id b) (Seat.version b - 1)),
     db1).
Proof.
  intros Ha Hid Hv.
  apply prisma_save_cases in Ha
    as [[_ [e ?]]|[(_ & Hva & _ & _ & ->)|(_ & Hva & c & _ & _ & ->)]]; [done| |].
  - rewrite decide_True by congruence. rewrite save_create by congruence.
    rewrite decide_True; [done|]. left. cbn. rewrite Hid, lookup_insert_eq. by eexists.
  - rewrite decide_False by congruence. rewrite save_update by congruence. cbn.
    rewrite Hid, lookup_insert_eq. cbn. rewrite decide_False; [done|].
    rewrite Hv. lia.
Qed.

Lemma save_second_writer_fails_witness :
  PrismaSeatRepository.save Sample.relabelled_s1
    (PrismaSeatRepository.save Sample.locked_seat Sample.db_available).2 =
    (Err (ConcurrencyError "Seat" "s1" 1),
     (PrismaSeatRepository.save Sample.locked_seat Sample.db_available).2).
Proof.
  apply (save_second_writer_fails Sample.locked_seat Sample.relabelled_s1
           Sample.db_available _ Sample.locked_seat).
  - vm_compute. reflexivity.
  - reflexivity.
  - reflexivity.
Defined.

(** X7.  [save] keeps the two constraints of the table: when no two rows
    share event and seat number and every version is at least 1, the same
    holds of the table [save] leaves, whatever its outcome. *)
Theorem save_keeps_constraints (seat : Seat.t) (db : Prisma.Database) :
  unique_seats (Prisma.seats db) → positive_versions (Prisma.seats db) →
  unique_seats (Prisma.seats (PrismaSeatRepository.save seat db).2)
  ∧ positive_versions (Prisma.seats (PrismaSeatRepository.save seat db).2).
Proof.
  intros Hu Hp.
  destruct (PrismaSeatRepository.save seat db) as [r db'] eqn:Hsave. cbn.
  apply prisma_save_cases in Hsave
    as [[-> _]|[(_ & Hv & Hnone & Hfree & ->)|(_ & Hv & c & Hc & Hcv & ->)]]; [done| |];
    cbn.
  - split.
    + intros id1 id2 c1 c2 H1 H2 He Hn.
      apply lookup_insert_Some in H1 as [[<- <-]|[Hne1 H1]];
        apply lookup_insert_Some in H2 as [[<- <-]|[Hne2 H2]].
      * done.
      * destruct Hfree. exists id2, c2. split; [done|]. cbn in *. by split.
      * destruct Hfree. exists id1, c1. split; [done|]. cbn in *. by split.
      * by eapply Hu.
    + intros id c' [[_ <-]|[_ Hl]]%lookup_insert_Some; [cbn; lia|by eapply Hp].
  - split.
    + intros id1 id2 c1 c2 H1 H2 He Hn.
      apply lookup_insert_Some in H1 as [[<- <-]|[Hne1 H1]];
        apply lookup_insert_Some in H2 as [[<- <-]|[Hne2 H2]].
      * done.
      * by eapply (Hu _ _ c c2).
      * by eapply (Hu _ _ c1 c).
      * by eapply Hu.
    + intros id c' [[_ <-]|[_ Hl]]%lookup_insert_Some; [|by eapply Hp].
      cbn. specialize (Hp _ _ Hc). lia.
Qed.

Lemma unique_seats_singleton id c : unique_seats {[ id := c ]}.
Proof.
  intros id1 id2 c1 c2 [<- _]%lookup_singleton_Some [<- _]%lookup_singleton_Some. done.
Qed.

Lemma save_keeps_constraints_witness :
  unique_seats
    (Prisma.seats (PrismaSeatRepository.save Sample.locked_seat Sample.db_available).2)
  ∧ positive_versions
      (Prisma.seats (PrismaSeatRepository.save Sample.locked_seat Sample.db_available).2).
Proof.
  apply (save_keeps_constraints Sample.locked_seat Sample.db_available).
  - apply unique_seats_singleton.
  - apply positive_versions_singleton. vm_compute. discriminate.
Defined.

(** X8.  A seat inserted by [save] reads back as given: after a successful
    [save] of a record with version 1, [findById] returns that record, and
    [findByEventId] for its event lists it. *)
Theorem created_seat_reads_back (seat : Seat.t) (db db' : Prisma.Database) saved :
  Seat.version seat = 1 →
  PrismaSeatRepository.save seat db = (Ok saved, db') →
  saved = seat
  ∧ PrismaSeatRepository.findById (Seat.id seat) db' = (Ok (Some seat), db')
  ∧ ∃ seats, PrismaSeatRepository.findByEventId (Seat.eventId seat) db' = (Ok seats, db')
             ∧ seat ∈ seats.
Proof.
  intros Hv Hsave.
  apply prisma_save_cases in Hsave
    as [[_ [e ?]]|[([= ->] & _ & _ & _ & ->)|(_ & ? & _)]]; [done| |done].
  split; [done|]. split.
  - rewrite findById_row. cbn. rewrite lookup_insert_eq. cbn.
    by rewrite seat_of_row_columns.
  - eexists. split; [done|]. apply list_elem_of_fmap.
    exists (Prisma.row (Seat.id seat) (columns_of_seat seat)). split.
    + symmetry. apply seat_of_row_columns.
    + apply elem_of_findMany. exists (Seat.id seat), (columns_of_seat seat).
      cbn. by rewrite lookup_insert_eq.
Qed.

Lemma created_seat_reads_back_witness :
  PrismaSeatRepository.findById "s9"
    (PrismaSeatRepository.save (Seat.create "s9" "evt-1" "A-9" 1500) Sample.db_locked).2 =
    (Ok (Some (Seat.create "s9" "evt-1" "A-9" 1500)),
     (PrismaSeatRepository.save (Seat.create "s9" "evt-1" "A-9" 1500) Sample.db_locked).2).
Proof.
  apply (created_seat_reads_back (Seat.create "s9" "evt-1" "A-9" 1500) Sample.db_locked
           _ (Seat.create "s9" "evt-1" "A-9" 1500)).
  - reflexivity.
  - vm_compute. reflexivity.
Defined.

(** X9.  [findByEventId] lists every seat of the event once: no id occurs
    twice in its answer, and an event without rows gets the empty list. *)
Theorem findByEventId_lists_once (eventId : string) (db : Prisma.Database) :
  ∃ seats,
    PrismaSeatRepository.findByEventId eventId db = (Ok seats, db)
    ∧ NoDup (Seat.id <$> seats)
    ∧ ((∀ id c, Prisma.seats db !! id = Some c → Prisma.c_eventId c ≠ eventId) →
       seats = []).
Proof.
  eexists. split; [done|]. split.
  - rewrite <-list_fmap_compose. apply findMany_NoDup.
  - intros Hnone.
    assert (Hnil : Prisma.findMany eventId db = []); [|by rewrite Hnil].
    apply elem_of_nil_inv. intros r (id & c & Hc & He & _)%elem_of_findMany.
    by eapply Hnone.
Qed.

(* ===================================================================== *)
(** * Further properties of CachedSeatRepository                         *)
(* ===================================================================== *)

Section AnyRepositoryMore.
Context {R : Type} `{!ISeatRepository.t R}.
Implicit Types s : CachedSeatRepository.t R CacheContract.t.

(** X10.  A seat found through the cache is cached: asking again gives the
    same seat and changes nothing, the wrapped repository included.  A seat
    not found is not cached. *)
Theorem cached_findById_repeatable (id : string) s :
  match CachedSeatRepository.findById id s with
  | (Ok (Some seat), s1) =>
      CachedSeatRepository.findById id s1 = (Ok (Some seat), s1)
  | (_, s1) => CachedSeatRepository.cache s1 = CachedSeatRepository.cache s
  end.
Proof.
  destruct (CachedSeatRepository.cache s !! CachedSeatRepository.CACHE_KEYS_seat id)
    as [e|] eqn:He; [destruct (ICache.value e) as [p|ps] eqn:Hv|].
  - rewrite (cached_findById_hit id s e p) by done.
    by rewrite (cached_findById_hit id s e p).
  - rewrite cached_findById_miss
      by (intros e0 p H0; rewrite He in H0; injection H0 as <-; congruence).
    destruct (ISeatRepository.findById id (CachedSeatRepository.repository s))
      as [[[seat|]|err] repo']; [|done..].
    erewrite cached_findById_hit; [|by apply lookup_insert_eq|done].
    by rewrite fromPersistence_toJSON_id.
  - rewrite cached_findById_miss by (intros e0 p H0; congruence).
    destruct (ISeatRepository.findById id (CachedSeatRepository.repository s))
      as [[[seat|]|err] repo']; [|done..].
    erewrite cached_findById_hit; [|by apply lookup_insert_eq|done].
    by rewrite fromPersistence_toJSON_id.
Qed.

Lemma cached_findByEventId_hit eventId s e ps :
  CachedSeatRepository.cache s !! CachedSeatRepository.CACHE_KEYS_eventSeats eventId
    = Some e →
  ICache.value e = ICache.SeatListValue ps →
  CachedSeatRepository.findByEventId eventId s = (Ok (Seat.fromPersistence <$> ps), s).
Proof.
  intros He Hv. destruct s as [repo cache ttl].
  unfold CachedSeatRepository.findByEventId, CachedSeatRepository.on_cache, ICache.get.
  run. by rewrite He; cbn; rewrite Hv.
Qed.

Lemma cached_findByEventId_miss eventId s :
  (∀ e ps, CachedSeatRepository.cache s
             !! CachedSeatRepository.CACHE_KEYS_eventSeats eventId = Some e →
           ICache.value e ≠ ICache.SeatListValue ps) →
  CachedSeatRepository.findByEventId eventId s =
    match ISeatRepository.findByEventId eventId (CachedSeatRepository.repository s) with
    | (Ok seats, repo') =>
        (Ok seats,
         CachedSeatRepository.new repo'
           (if decide (0 < Z.of_nat (length seats)) then
              <[CachedSeatRepository.CACHE_KEYS_eventSeats eventId :=
                  ICache.mkEntry (ICache.SeatListValue (Seat.toJSON <$> seats))
                    (CachedSeatRepository.ttlSeconds s)]>
                (CachedSeatRepository.cache s)
            else CachedSeatRepository.cache s)
           (CachedSeatRepository.ttlSeconds s))
    | (Err e, repo') =>
        (Err e,
         CachedSeatRepository.new repo' (CachedSeatRepository.cache s)
           (CachedSeatRepository.ttlSeconds s))
    end.
Proof.
  intros Hmiss. destruct s as [repo cache ttl].
  unfold CachedSeatRepository.findByEventId, CachedSeatRepository.on_cache,
    CachedSeatRepository.on_repository, ICache.get, ICache.set. run.
  destruct (cache !! CachedSeatRepository.CACHE_KEYS_eventSeats eventId) as [e|] eqn:He; cbn.
  - destruct (ICache.value e) as [p|ps] eqn:Hv; [|by destruct (Hmiss e ps)]. cbn.
    destruct (ISeatRepository.findByEventId eventId repo) as [[seats|err] repo']; [|done].
    by case_decide.
  - destruct (ISeatRepository.findByEventId eventId repo) as [[seats|err] repo']; [|done].
    by case_decide.
Qed.

Lemma fromPersistence_toJSON_list (seats : list Seat.t) :
  Seat.fromPersistence <$> (Seat.toJSON <$> seats) = seats.
Proof.
  rewrite <-list_fmap_compose. rewrite <-(list_fmap_id seats) at 2.
  apply list_fmap_ext. intros i x _. apply fromPersistence_toJSON_id.
Qed.

(** X11.  A non-empty seat list read through the cache is cached: asking
    again gives the same list and changes nothing.  An empty list is not
    cached. *)
Theorem cached_findByEventId_repeatable (eventId : string) s :
  match CachedSeatRepository.findByEventId eventId s with
  | (Ok seats, s1) =>
      if decide (seats = []) then
        CachedSeatRepository.cache s1 = CachedSeatRepository.cache s
      else CachedSeatRepository.findByEventId eventId s1 = (Ok seats, s1)
  | (Err _, s1) => CachedSeatRepository.cache s1 = CachedSeatRepository.cache s
  end.
Proof.
  destruct (CachedSeatRepository.cache s
              !! CachedSeatRepository.CACHE_KEYS_eventSeats eventId)
    as [e|] eqn:He; [destruct (ICache.value e) as [p|ps] eqn:Hv|].
  - rewrite cached_findByEventId_miss
      by (intros e0 p0 H0; rewrite He in H0; injection H0 as <-; congruence).
    destruct (ISeatRepository.findByEventId eventId (CachedSeatRepository.repository s))
      as [[seats|err] repo']; [|done].
    destruct seats as [|x seats]; [done|]. rewrite decide_False by done.
    rewrite decide_True by (cbn; lia).
    erewrite cached_findByEventId_hit; [|by apply lookup_insert_eq|done].
    by rewrite fromPersistence_toJSON_list.
  - rewrite (cached_findByEventId_hit eventId s e ps) by done.
    case_decide; [done|]. by rewrite (cached_findByEventId_hit eventId s e ps).
  - rewrite cached_findByEventId_miss by (intros e0 p0 H0; congruence).
    destruct (ISeatRepository.findByEventId eventId (CachedSeatRepository.repository s))
      as [[seats|err] repo']; [|done].
    destruct seats as [|x seats]; [done|]. rewrite decide_False by done.
    rewrite decide_True by (cbn; lia).
    erewrite cached_findByEventId_hit; [|by apply lookup_insert_eq|done].
    by rewrite fromPersistence_toJSON_list.
Qed.

End AnyRepositoryMore.

Section WiredRepositoryMore.
Context {R : Type} `{!ISeatRepository.t R}.
Implicit Types s : CachedSeatRepository.t R RedisService.t.

(** [findByEventId] through the decorator: a list Redis hands over is the
    answer; otherwise the answer is the wrapped repository's, and a list
    that is not empty is offered to Redis under the key of the event's
    list. *)
Lemma wired_findByEventId_outcome eventId s :
  let key := CachedSeatRepository.CACHE_KEYS_eventSeats eventId in
  let got :=
    if decide (serves 0 (redis_replies s))
    then ICache.value <$> redis_entries s !! key else None in
  ∃ s',
    CachedSeatRepository.findByEventId eventId s =
      (match got with
       | Some (ICache.SeatListValue ps) => Ok (Seat.fromPersistence <$> ps)
       | _ => (ISeatRepository.findByEventId eventId
                 (CachedSeatRepository.repository s)).1
       end, s')
    ∧ CachedSeatRepository.repository s' =
        match got with
        | Some (ICache.SeatListValue ps) => CachedSeatRepository.repository s
        | _ => (ISeatRepository.findByEventId eventId
                  (CachedSeatRepository.repository s)).2
        end
    ∧ (redis_entries s' = redis_entries s
       ∨ ∃ e, redis_entries s' = <[key := e]> (redis_entries s)).
Proof.
  intros key got. subst key got.
  destruct s as [repo c ttl]. unfold redis_entries, redis_replies.
  cbn [CachedSeatRepository.cache CachedSeatRepository.repository
       CachedSeatRepository.ttlSeconds].
  destruct (redis_get_outcome (CachedSeatRepository.CACHE_KEYS_eventSeats eventId) c)
    as (c1 & Hget & He1 & Hr1).
  unfold CachedSeatRepository.findByEventId, CachedSeatRepository.on_cache,
    CachedSeatRepository.on_repository. run. rewrite Hget. clear Hget.
  set (got := if decide (serves 0 (RedisService.replies (RedisService.redis c)))
              then _ else None).
  destruct got as [[p|ps]|];
    cbn [fst snd CachedSeatRepository.cache CachedSeatRepository.repository
         CachedSeatRepository.ttlSeconds];
    try (eexists; split; [done|]; split; [done|]; by left);
    (destruct (ISeatRepository.findByEventId eventId repo) as [[seats|err] repo'];
     cbn [fst snd CachedSeatRepository.cache CachedSeatRepository.repository
          CachedSeatRepository.ttlSeconds];
     [|eexists; split; [done|]; split; [done|]; by left]);
    (case_decide;
       cbn [fst snd CachedSeatRepository.cache CachedSeatRepository.repository
            CachedSeatRepository.ttlSeconds];
       [|eexists; split; [done|]; split; [done|]; by left]);
    destruct (redis_set_outcome (CachedSeatRepository.CACHE_KEYS_eventSeats eventId)
                (ICache.SeatListValue (Seat.toJSON <$> seats)) ttl c1)
      as (c2 & -> & He2 & _);
    (eexists; split; [done|]; split; [done|]);
    cbn [CachedSeatRepository.cache]; rewrite He2, He1;
    (case_decide; [right; by eexists|by left]).
Qed.

(** X12.  After a successful [save] through the decorator for which Redis
    has served the deletion of the key of the event's list, Redis holds
    nothing under that key, and the next [findByEventId] for the seat's
    event answers with what the wrapped repository answers, whatever list
    Redis held before and whatever it does with the commands of that
    read. *)
Theorem save_invalidates_event_list seat s saved s' :
  CachedSeatRepository.save seat s = (Ok saved, s') →
  serves 1 (redis_replies s) →
  redis_entries s' !! CachedSeatRepository.CACHE_KEYS_eventSeats (Seat.eventId seat)
    = None
  ∧ (CachedSeatRepository.findByEventId (Seat.eventId seat) s').1 =
      (ISeatRepository.findByEventId (Seat.eventId seat)
         (CachedSeatRepository.repository s')).1.
Proof.
  intros Hsave Hserved.
  pose proof (wired_save_outcome seat s) as Hout.
  destruct (ISeatRepository.save seat (CachedSeatRepository.repository s))
    as [[saved'|err] repo'] eqn:Hwrapped; [|congruence].
  destruct Hout as (s1 & Hsave1 & Hrepo & Hentries & _).
  rewrite Hsave in Hsave1. injection Hsave1 as -> <-.
  cbv zeta in Hentries.
  rewrite (decide_True (P := serves 1 _)) in Hentries by done.
  assert (Hgone : redis_entries s'
                    !! CachedSeatRepository.CACHE_KEYS_eventSeats (Seat.eventId seat)
                  = None) by (rewrite Hentries; apply lookup_delete_eq).
  split; [done|].
  pose proof (wired_findByEventId_outcome (Seat.eventId seat) s') as (s2 & Hfind & _).
  cbv zeta in Hfind. rewrite Hfind. cbn [fst]. rewrite Hgone.
  by destruct (decide (serves 0 (redis_replies s'))).
Qed.

End WiredRepositoryMore.

Lemma save_invalidates_event_list_witness :
  let s := Sample.wired_repository Sample.db_available
             (CachedSeatRepository.cache Sample.cached_before_lock) [] in
  let s' := (CachedSeatRepository.save Sample.locked_seat s).2 in
  redis_entries s' !! CachedSeatRepository.CACHE_KEYS_eventSeats "evt-1" = None
  ∧ (CachedSeatRepository.findByEventId "evt-1" s').1 =
      (ISeatRepository.findByEventId "evt-1" (CachedSeatRepository.repository s')).1.
Proof.
  intros s s'.
  apply (save_invalidates_event_list Sample.locked_seat s Sample.locked_seat s').
  - vm_compute. reflexivity.
  - apply serves_nil.
Defined.

(** X13.  From a coherent state the cache is invisible to [findById]: read
    through the cache, a seat is what the table holds for that id, and the
    read leaves the table as it was and the state coherent. *)
Theorem cached_findById_transparent (id : string)
    (s : CachedSeatRepository.t Prisma.Database CacheContract.t) :
  coherent s →
  (CachedSeatRepository.findById id s).1 =
    (PrismaSeatRepository.findById id (CachedSeatRepository.repository s)).1
  ∧ CachedSeatRepository.repository (CachedSeatRepository.findById id s).2 =
      CachedSeatRepository.repository s
  ∧ coherent (CachedSeatRepository.findById id s).2.
Proof.
  intros Hco. destruct (cached_findById_coherent id s Hco) as (s' & -> & Hdb & Hco').
  by rewrite findById_row.
Qed.

Lemma cached_findById_transparent_witness :
  (CachedSeatRepository.findById "s1" Sample.cached_before_lock).1 =
    (PrismaSeatRepository.findById "s1" Sample.db_available).1.
Proof.
  apply (cached_findById_transparent "s1" Sample.cached_before_lock).
  split.
  - intros id e He.
    destruct (decide (id = "s1")) as [->|Hne].
    + exists Sample.available_s1. split; [reflexivity|].
      vm_compute in He. injection He as <-. reflexivity.
    + exfalso. cbn in He. rewrite lookup_insert_ne in He
        by (intros Hk; apply CACHE_KEYS_seat_inj in Hk; done).
      apply lookup_singleton_Some in He as [Hk _].
      by apply (CACHE_KEYS_disjoint id "evt-1").
  - apply positive_versions_singleton. vm_compute. discriminate.
Defined.

(** Reading a seat keeps the wiring with Redis coherent, whatever Redis
    does with the commands. *)
Lemma wired_findById_coherent id
    (s : CachedSeatRepository.t Prisma.Database RedisService.t) :
  wired_coherent s →
  ∃ found s',
    CachedSeatRepository.findById id s = (Ok found, s')
    ∧ CachedSeatRepository.repository s' = CachedSeatRepository.repository s
    ∧ wired_coherent s'.
Proof.
  intros [Hm Hp].
  pose proof (wired_findById_outcome id s) as Hout. cbv zeta in Hout.
  destruct (if decide (serves 0 (redis_replies s))
            then ICache.value <$> redis_entries s
                   !! CachedSeatRepository.CACHE_KEYS_seat id
            else None) as [[p|ps]|];
    [destruct Hout as (s' & Hfind & Hrepo & He & _); eexists _, s';
     split; [done|]; split; [done|]; unfold wired_coherent; by rewrite Hrepo, He|..];
    rewrite prisma_findById in Hout;
    (destruct (Prisma.seats (CachedSeatRepository.repository s) !! id) as [c|] eqn:Hc;
       cbn in Hout; destruct Hout as (s' & Hfind & Hrepo & He & _);
       eexists _, s'; (split; [done|]); (split; [done|]);
       unfold wired_coherent; rewrite Hrepo, He; [|done]);
    (split; [|done]); (case_decide; [|done]);
    intros id' e' He';
    (destruct (decide (id' = id)) as [->|Hne];
       [rewrite lookup_insert_eq in He'; injection He' as <-; by exists c
       |rewrite lookup_insert_ne in He'
          by (intros Hk; apply CACHE_KEYS_seat_inj in Hk; done);
        by apply Hm]).
Qed.

(** X14.  Coherence of the wiring with Redis (what Redis holds for a seat
    is the row of the table, and versions are 1 or above) is kept by every
    read through the decorator, whatever Redis does with the commands, and
    by every [save] for which Redis serves the deletion of the seat's key or
    holds nothing under it. *)
Theorem coherent_invariant (s : CachedSeatRepository.t Prisma.Database RedisService.t) :
  wired_coherent s →
  (∀ id, wired_coherent (CachedSeatRepository.findById id s).2)
  ∧ (∀ eventId, wired_coherent (CachedSeatRepository.findByEventId eventId s).2)
  ∧ (∀ id v, wired_coherent (CachedSeatRepository.findByIdWithVersion id v s).2)
  ∧ (∀ seat,
       serves 0 (redis_replies s)
       ∨ redis_entries s !! CachedSeatRepository.CACHE_KEYS_seat (Seat.id seat) = None →
       wired_coherent (CachedSeatRepository.save seat s).2).
Proof.
  intros Hco. split; [|split; [|split]].
  - intros id. by destruct (wired_findById_coherent id s Hco) as (found & s' & -> & _ & ?).
  - intros eventId. destruct Hco as [Hm Hp].
    destruct (wired_findByEventId_outcome eventId s) as (s' & -> & Hrepo & He).
    cbn [snd]. unfold wired_coherent.
    assert (Hdb : CachedSeatRepository.repository s' = CachedSeatRepository.repository s).
    { rewrite Hrepo. by repeat case_match. }
    rewrite Hdb. split; [|done]. destruct He as [->|[e ->]]; [done|].
    intros id e' He'.
    rewrite lookup_insert_ne in He' by (symmetry; apply CACHE_KEYS_disjoint).
    by apply Hm.
  - intros id v. destruct s as [db cache ttl].
    unfold CachedSeatRepository.findByIdWithVersion, CachedSeatRepository.on_repository.
    cbn. unfold PrismaSeatRepository.findByIdWithVersion. run.
    by destruct (Prisma.findFirst id v db).
  - intros seat Hkey. destruct Hco as [Hm Hp].
    pose proof (wired_save_outcome seat s) as Hout.
    cbn [ISeatRepository.save PrismaSeatRepository.repository] in Hout.
    destruct (PrismaSeatRepository.save seat (CachedSeatRepository.repository s))
      as [[saved|err] db'] eqn:Hsave.
    + destruct Hout as (s' & -> & Hrepo & He & _). cbn [snd].
      destruct (prisma_save_mirrors _ _ _ _ _ Hm Hp Hsave) as [Hp' Hm'].
      unfold wired_coherent. rewrite Hrepo. split; [|done].
      apply Hm'. intros id e Hheld. rewrite He in Hheld. cbv zeta in Hheld.
      assert (Hin : (if decide (serves 0 (redis_replies s))
                     then delete (CachedSeatRepository.CACHE_KEYS_seat (Seat.id seat))
                            (redis_entries s)
                     else redis_entries s)
                    !! CachedSeatRepository.CACHE_KEYS_seat id = Some e).
      { case_decide as H1; [|done]. by apply lookup_delete_Some in Hheld as [_ ?]. }
      clear Hheld. case_decide as H0.
      * apply lookup_delete_Some in Hin as [Hk Hin]. split; [done|]. congruence.
      * split; [done|]. intros ->. destruct Hkey as [?|Hnone]; [done|congruence].
    + rewrite Hout. cbn [snd]. apply prisma_save_durable in Hsave as ->.
      by destruct s.
Qed.

Lemma coherent_invariant_witness :
  wired_coherent
    (CachedSeatRepository.save Sample.locked_seat
       (Sample.wired_repository Sample.db_available
          (CachedSeatRepository.cache Sample.cached_before_lock) [])).2.
Proof.
  apply (coherent_invariant
           (Sample.wired_repository Sample.db_available
              (CachedSeatRepository.cache Sample.cached_before_lock) [])).
  - split.
    + intros id e He.
      destruct (decide (id = "s1")) as [->|Hne].
      * exists Sample.available_s1. split; [reflexivity|].
        vm_compute in He. injection He as <-. reflexivity.
      * exfalso. cbn in He. rewrite lookup_insert_ne in He
          by (intros Hk; apply CACHE_KEYS_seat_inj in Hk; done).
        apply lookup_singleton_Some in He as [Hk _].
        by apply (CACHE_KEYS_disjoint id "evt-1").
    + apply positive_versions_singleton. vm_compute. discriminate.
  - left. apply serves_nil.
Defined.

(* ===================================================================== *)
(** * Further properties of BookingService                               *)
(* ===================================================================== *)

Section ProductionMore.
Context {P : Type}.
Variable publisher : option (IEventPublisher.t P).
Variable Q : EventQueues.
Implicit Types st : App P.

(** X15.  A release or a sale asked by someone who does not hold the lock
    is refused with UnauthorizedLockError and changes nothing in the table:
    from a coherent state, when the row is LOCKED by another user. *)
Theorem non_holder_refused (tr : Transition) seatId userId st c :
  coherent (BookingService.seatRepository st) →
  durable st !! seatId = Some c →
  Prisma.c_status c = Prisma.P_LOCKED →
  Prisma.c_userId c ≠ Some userId →
  tr ≠ Lock →
  ∃ st',
    request publisher Q tr seatId userId st =
      (Err (UnauthorizedLockError userId seatId), st')
    ∧ durable st' = durable st
    ∧ coherent (BookingService.seatRepository st').
Proof.
  intros Hco Hc Hst Hu Htr.
  destruct (request_coherent publisher Q tr seatId userId st Hco) as (st' & Hco' & Hreq).
  rewrite Hc in Hreq.
  assert (Ha : admits tr userId (seat_of_row seatId c) = false).
  { destruct tr; [done| |]; cbn; unfold Seat.isLockedBy, Seat.userId; cbn;
      rewrite (bool_decide_eq_false_2 (Prisma.c_userId c = Some userId)) by done;
      apply andb_false_r. }
  rewrite Ha in Hreq. destruct Hreq as [Hreq Hdb].
  exists st'. split; [|done]. by destruct tr.
Qed.







(** A request made on a stale read loses: the cache holds a seat that admits
    the transition, at a version the table no longer has. *)
Lemma stale_request_conflicts tr seatId userId st e p :
  cached st !! CachedSeatRepository.CACHE_KEYS_seat seatId = Some e →
  ICache.value e = ICache.SeatValue p →
  admits tr userId (Seat.fromPersistence p) = true →
  SeatProps.version p ≠ 0 →
  (∀ c, durable st !! SeatProps.id p = Some c →
        Prisma.c_version c ≠ SeatProps.version p) →
  ∃ st',
    request publisher Q tr seatId userId st =
      (Err (ConcurrencyError "Seat" (SeatProps.id p) (SeatProps.version p)), st')
    ∧ durable st' = durable st.
Proof.
  intros He Hv Ha Hv0 Hmoved.
  destruct (request_outcome publisher Q tr seatId userId st)
    as (found & repo1 & Hfind & Hdb & Hreq).
  rewrite (cached_findById_hit seatId _ e p He Hv) in Hfind.
  injection Hfind as <- <-. cbv beta iota in Hreq. rewrite Ha in Hreq.
  destruct Hreq as (next & Hnext & Hreq).
  apply transition_fields in Hnext as (Hid & _ & _ & _ & Hver).
  rewrite cached_save_outcome in Hreq.
  cbn [ISeatRepository.save PrismaSeatRepository.repository] in Hreq.
  rewrite save_update in Hreq by (rewrite Hver; unfold Seat.version; cbn; lia).
  rewrite Hid, Hver in Hreq. unfold Seat.id, Seat.version in Hreq. cbn in Hreq.
  replace (SeatProps.version p + 1 - 1) with (SeatProps.version p) in Hreq by lia.
  unfold durable, database in *.
  destruct (Prisma.seats
              (CachedSeatRepository.repository (BookingService.seatRepository st))
              !! SeatProps.id p) as [c|] eqn:Hc.
  - rewrite decide_False in Hreq by (by apply Hmoved).
    eexists. split; [exact Hreq|done].
  - eexists. split; [exact Hreq|done].
Qed.

(** X18.  A request made on a stale read loses.  When the cache still holds
    the seat in a state that admits the request, at version v, and the table
    has moved on (the row is gone or its version is no longer v), the
    request raises ConcurrencyError("Seat", id, v) and the table stays as it
    is. *)
Theorem stale_request_loses tr seatId userId st e p :
  cached st !! CachedSeatRepository.CACHE_KEYS_seat seatId = Some e →
  ICache.value e = ICache.SeatValue p →
  admits tr userId (Seat.fromPersistence p) = true →
  SeatProps.version p ≠ 0 →
  (∀ c, durable st !! SeatProps.id p = Some c →
        Prisma.c_version c ≠ SeatProps.version p) →
  ∃ st',
    request publisher Q tr seatId userId st =
      (Err (ConcurrencyError "Seat" (SeatProps.id p) (SeatProps.version p)), st')
    ∧ durable st' = durable st.
Proof. apply stale_request_conflicts. Qed.

End ProductionMore.

Lemma non_holder_refused_witness :
  ∃ st',
    BookingService.releaseSeat "s1" "u2" (Sample.app Sample.db_locked Sample.amqp_up) =
      (Err (UnauthorizedLockError "u2" "s1"), st')
    ∧ durable st' = Prisma.seats Sample.db_locked.
Proof.
  destruct (non_holder_refused Sample.rabbit Sample.queues Release "s1" "u2"
              (Sample.app Sample.db_locked Sample.amqp_up) Sample.locked_s1)
    as (st' & Hreq & Hdb & _).
  - apply coherent_empty_cache, positive_versions_singleton. vm_compute. discriminate.
  - reflexivity.
  - reflexivity.
  - discriminate.
  - discriminate.
  - exists st'. split; [exact Hreq | exact Hdb].
Defined.



Lemma stale_request_loses_witness :
  ∃ st',
    BookingService.lockSeat Sample.rabbit Sample.queues "s1" "u2" Scenario.stale_app =
      (Err (ConcurrencyError "Seat" "s1" 1), st')
    ∧ durable st' = Prisma.seats Sample.db_locked.
Proof.
  apply (stale_request_loses Sample.rabbit Sample.queues Lock "s1" "u2" Scenario.stale_app
           (ICache.mkEntry
              (ICache.SeatValue (Seat.toJSON (seat_of_row "s1" Sample.available_s1))) 60)
           (Seat.toJSON (seat_of_row "s1" Sample.available_s1))).
  - vm_compute. reflexivity.
  - reflexivity.
  - reflexivity.
  - vm_compute. discriminate.
  - intros c Hc. vm_compute in Hc. injection Hc as <-. vm_compute. discriminate.
Defined.

(* ===================================================================== *)
(** * Further properties of RabbitMQClient                               *)
(* ===================================================================== *)

Ltac run_client :=
  unfold RabbitMQClient.next_attempt, RabbitMQClient.console_log,
    RabbitMQClient.sleep, RabbitMQClient.set_link, RabbitMQClient.set_isConnecting,
    RabbitMQClient.set_amqp, RabbitMQClient.set_assertedQueues in *;
  run.

(** What the retry loop leaves alone, and what holds when it returns. *)
Lemma connect_loop_frame n : ∀ delay lastError (c c' : RabbitMQClient.t) r,
  RabbitMQClient.connect_loop n delay lastError c = (r, c') →
  RabbitMQClient.sent (RabbitMQClient.amqp c') = RabbitMQClient.sent (RabbitMQClient.amqp c)
  ∧ RabbitMQClient.assertQueue_error (RabbitMQClient.amqp c') =
      RabbitMQClient.assertQueue_error (RabbitMQClient.amqp c)
  ∧ RabbitMQClient.sendToQueue_outcome (RabbitMQClient.amqp c') =
      RabbitMQClient.sendToQueue_outcome (RabbitMQClient.amqp c)
  ∧ RabbitMQClient.assertedQueues c' = RabbitMQClient.assertedQueues c
  ∧ RabbitMQClient.retryConfig c' = RabbitMQClient.retryConfig c
  ∧ RabbitMQClient.isConnecting c' = false
  ∧ match r with
    | Ok _ => RabbitMQClient.connection c' = true ∧ RabbitMQClient.channel c' = true
    | Err _ => RabbitMQClient.channel c' = RabbitMQClient.channel c
    end.
Proof.
  induction n as [|k IH]; intros delay lastError c c' r.
  - cbn. run_client. intros [= <- <-]. cbn. done.
  - cbn [RabbitMQClient.connect_loop]. destruct c as [conn chan cfg ing asq a sl con].
    destruct a as [att aqe sto snt].
    run_client. destruct att as [|o att]; cbn.
    + destruct k as [|k'].
      * intros H. apply IH in H. cbn in H. exact H.
      * intros H. apply IH in H. cbn in H. exact H.
    + destruct o as [msg|msg|]; cbn.
      * destruct k as [|k']; intros H; apply IH in H; cbn in H; exact H.
      * destruct k as [|k']; intros H; apply IH in H; cbn in H; exact H.
      * intros [= <- <-]. cbn. done.
Qed.

Lemma ensureConnection_frame (c c' : RabbitMQClient.t) r :
  RabbitMQClient.ensureConnection c = (r, c') →
  RabbitMQClient.sent (RabbitMQClient.amqp c') = RabbitMQClient.sent (RabbitMQClient.amqp c)
  ∧ RabbitMQClient.assertQueue_error (RabbitMQClient.amqp c') =
      RabbitMQClient.assertQueue_error (RabbitMQClient.amqp c)
  ∧ RabbitMQClient.sendToQueue_outcome (RabbitMQClient.amqp c') =
      RabbitMQClient.sendToQueue_outcome (RabbitMQClient.amqp c)
  ∧ RabbitMQClient.assertedQueues c' = RabbitMQClient.assertedQueues c
  ∧ match r with
    | Ok _ => RabbitMQClient.connection c' = true ∧ RabbitMQClient.channel c' = true
    | Err _ => True
    end.
Proof.
  unfold RabbitMQClient.ensureConnection, RabbitMQClient.connect,
    RabbitMQClient.waitForConnection. run.
  destruct (RabbitMQClient.isConnected c) eqn:Hconn; cbn.
  { intros [= <- <-]. by apply andb_true_iff in Hconn. }
  rewrite Hconn. cbn.
  destruct (RabbitMQClient.isConnecting c) eqn:Hing; cbn.
  { rewrite Hconn. cbn. by intros [= <- <-]. }
  intros H. apply connect_loop_frame in H.
  destruct c as [conn chan cfg ing asq a sl con]. cbn in *.
  destruct H as (? & ? & ? & ? & _ & _ & H). repeat (split; [done|]).
  by destruct r.
Qed.

(** Every outcome of [publish] of the client. *)
Lemma client_publish_cases (queue : string) (message : DomainEvent)
    (options : option RabbitMQClient.PublishOptions) (c : RabbitMQClient.t) :
  match RabbitMQClient.publish queue message options c with
  | (Ok published, c') =>
      RabbitMQClient.sendToQueue_outcome (RabbitMQClient.amqp c) = Ok published
      ∧ RabbitMQClient.sent (RabbitMQClient.amqp c') =
          RabbitMQClient.sent (RabbitMQClient.amqp c) ++
            [{| RabbitMQClient.p_queue := queue;
                RabbitMQClient.p_message := message;
                RabbitMQClient.p_persistent :=
                  default true (options ≫= RabbitMQClient.o_persistent);
                RabbitMQClient.p_contentType :=
                  default "application/json" (options ≫= RabbitMQClient.o_contentType);
                RabbitMQClient.p_headers :=
                  default [] (options ≫= RabbitMQClient.o_headers) |}]
      ∧ RabbitMQClient.isConnected c' = true
      ∧ queue ∈ RabbitMQClient.assertedQueues c'
  | (Err _, c') =>
      RabbitMQClient.sent (RabbitMQClient.amqp c') =
        RabbitMQClient.sent (RabbitMQClient.amqp c)
  end.
Proof.
  unfold RabbitMQClient.publish. unfold bind at 1.
  destruct (RabbitMQClient.ensureConnection c) as [[[]|err] c1] eqn:Hens;
    apply ensureConnection_frame in Hens as (Hsent & Haqe & Hsto & Hasq & Hconn);
    [|done].
  destruct Hconn as [Hconn Hchan].
  destruct c1 as [conn chan cfg ing asq a sl con]. cbn in *. subst conn chan.
  destruct a as [att aqe sto snt]. cbn in *. subst.
  unfold RabbitMQClient.assertQueue, RabbitMQClient.sendToQueue. run_client.
  destruct (bool_decide (queue ∈ RabbitMQClient.assertedQueues c)) eqn:Hin; cbn.
  - apply bool_decide_eq_true in Hin.
    destruct (RabbitMQClient.sendToQueue_outcome (RabbitMQClient.amqp c)) as [b|e]; cbn;
      [|done].
    by destruct b.
  - destruct (RabbitMQClient.assertQueue_error (RabbitMQClient.amqp c)); cbn; [done|].
    destruct (RabbitMQClient.sendToQueue_outcome (RabbitMQClient.amqp c)) as [b|e]; cbn;
      [|done].
    destruct b; cbn; (split; [done|]; split; [done|]; split; [done|]; set_solver).
Qed.

(** X19.  What [publish] of the client hands to the broker.  When it
    returns, exactly one message has been handed over, on the queue asked
    for, with the options of the caller laid over the defaults: persistent
    unless the options say otherwise, typed application/json unless the
    options give another content type, and with the headers of the options,
    if any; the client is connected and the queue is among the asserted
    ones.  When it throws, nothing has been handed over. *)
Theorem client_publish_outcome (queue : string) (message : DomainEvent)
    (options : option RabbitMQClient.PublishOptions) (c : RabbitMQClient.t) :
  match RabbitMQClient.publish queue message options c with
  | (Ok published, c') =>
      RabbitMQClient.sendToQueue_outcome (RabbitMQClient.amqp c) = Ok published
      ∧ RabbitMQClient.sent (RabbitMQClient.amqp c') =
          RabbitMQClient.sent (RabbitMQClient.amqp c) ++
            [{| RabbitMQClient.p_queue := queue;
                RabbitMQClient.p_message := message;
                RabbitMQClient.p_persistent :=
                  default true (options ≫= RabbitMQClient.o_persistent);
                RabbitMQClient.p_contentType :=
                  default "application/json" (options ≫= RabbitMQClient.o_contentType);
                RabbitMQClient.p_headers :=
                  default [] (options ≫= RabbitMQClient.o_headers) |}]
      ∧ RabbitMQClient.isConnected c' = true
      ∧ queue ∈ RabbitMQClient.assertedQueues c'
  | (Err _, c') =>
      RabbitMQClient.sent (RabbitMQClient.amqp c') =
        RabbitMQClient.sent (RabbitMQClient.amqp c)
  end.
Proof. apply client_publish_cases. Qed.

(** The loop when no attempt connects. *)
Lemma connect_loop_exhausts n : ∀ delay lastError (c : RabbitMQClient.t),
  Forall (λ o, o ≠ RabbitMQClient.Connects)
    (RabbitMQClient.attempts (RabbitMQClient.amqp c)) →
  ∃ msg c',
    RabbitMQClient.connect_loop n delay lastError c =
      (Err (Error_ ("[RabbitMQ] Failed to connect after "
                      +:+ pretty (RabbitMQClient.maxRetries (RabbitMQClient.retryConfig c))
                      +:+ " attempts: " +:+ msg)), c')
    ∧ RabbitMQClient.slept c' =
        RabbitMQClient.slept c ++ backoff (RabbitMQClient.retryConfig c) (pred n) delay
    ∧ RabbitMQClient.attempts (RabbitMQClient.amqp c') =
        drop n (RabbitMQClient.attempts (RabbitMQClient.amqp c)).
Proof.
  induction n as [|k IH]; intros delay lastError c Hall.
  - eexists _, _. cbn. run_client. split; [done|]. cbn. by rewrite app_nil_r.
  - cbn [RabbitMQClient.connect_loop]. destruct c as [conn chan cfg ing asq a sl con].
    destruct a as [att aqe sto snt]. cbn in Hall.
    run_client. destruct att as [|o att]; cbn.
    + destruct k as [|k'].
      * edestruct (IH delay (Some "connect ECONNREFUSED")) as (msg & c' & -> & Hs & Ha);
          [|eexists _, _; split; [done|]; cbn in *; split; [exact Hs|exact Ha]].
        done.
      * edestruct (IH (Z.min (delay * RabbitMQClient.backoffMultiplier cfg)
                         (RabbitMQClient.maxDelayMs cfg))
                      (Some "connect ECONNREFUSED")) as (msg & c' & -> & Hs & Ha);
          [|eexists _, _; split; [done|]; cbn in *; split; [|exact Ha]].
        { done. }
        by rewrite Hs, <-(assoc_L (++)).
    + apply Forall_cons in Hall as [Ho Hall].
      destruct o as [msg0|msg0|]; [| |done]; cbn.
      * destruct k as [|k'].
        -- edestruct (IH delay (Some msg0)) as (msg & c' & -> & Hs & Ha);
             [|eexists _, _; split; [done|]; cbn in *; split; [exact Hs|exact Ha]].
           done.
        -- edestruct (IH (Z.min (delay * RabbitMQClient.backoffMultiplier cfg)
                            (RabbitMQClient.maxDelayMs cfg))
                         (Some msg0)) as (msg & c' & -> & Hs & Ha);
             [|eexists _, _; split; [done|]; cbn in *; split; [|exact Ha]].
           { done. }
           by rewrite Hs, <-(assoc_L (++)).
      * destruct k as [|k'].
        -- edestruct (IH delay (Some msg0)) as (msg & c' & -> & Hs & Ha);
             [|eexists _, _; split; [done|]; cbn in *; split; [exact Hs|exact Ha]].
           done.
        -- edestruct (IH (Z.min (delay * RabbitMQClient.backoffMultiplier cfg)
                            (RabbitMQClient.maxDelayMs cfg))
                         (Some msg0)) as (msg & c' & -> & Hs & Ha);
             [|eexists _, _; split; [done|]; cbn in *; split; [|exact Ha]].
           { done. }
           by rewrite Hs, <-(assoc_L (++)).
Qed.

Lemma backoff_capped cfg n : ∀ delay,
  Forall (λ d, d ≤ Z.max delay (RabbitMQClient.maxDelayMs cfg)) (backoff cfg n delay).
Proof.
  induction n as [|k IH]; intros delay; cbn; [done|].
  constructor; [lia|].
  eapply Forall_impl; [apply IH|]. cbn. intros d Hd. lia.
Qed.

Lemma backoff_length cfg n : ∀ delay, length (backoff cfg n delay) = n.
Proof. induction n as [|k IH]; intros delay; cbn; [done|]. by rewrite IH. Qed.

(** X20.  [connect] gives up after [maxRetries] attempts.  On a client that
    is not connected, when no attempt connects, it throws the error naming
    the number of attempts, leaves [isConnecting] false, has slept once
    between consecutive attempts (maxRetries - 1 times) with the delays of
    [backoff], none longer than the larger of the initial and the maximum
    delay, and has handed nothing to the broker. *)
Theorem connect_gives_up (c : RabbitMQClient.t) :
  RabbitMQClient.isConnected c = false →
  RabbitMQClient.isConnecting c = false →
  Forall (λ o, o ≠ RabbitMQClient.Connects)
    (RabbitMQClient.attempts (RabbitMQClient.amqp c)) →
  let cfg := RabbitMQClient.retryConfig c in
  let delays :=
    backoff cfg (pred (RabbitMQClient.maxRetries cfg)) (RabbitMQClient.initialDelayMs cfg) in
  ∃ msg c',
    RabbitMQClient.connect c =
      (Err (Error_ ("[RabbitMQ] Failed to connect after "
                      +:+ pretty (RabbitMQClient.maxRetries cfg)
                      +:+ " attempts: " +:+ msg)), c')
    ∧ RabbitMQClient.isConnecting c' = false
    ∧ RabbitMQClient.slept c' = RabbitMQClient.slept c ++ delays
    ∧ length delays = pred (RabbitMQClient.maxRetries cfg)
    ∧ Forall (λ d, d ≤ Z.max (RabbitMQClient.initialDelayMs cfg)
                         (RabbitMQClient.maxDelayMs cfg)) delays
    ∧ RabbitMQClient.sent (RabbitMQClient.amqp c') =
        RabbitMQClient.sent (RabbitMQClient.amqp c).
Proof.
  intros Hconn Hing Hall cfg delays.
  unfold RabbitMQClient.connect. run. rewrite Hconn, Hing. cbn.
  destruct (connect_loop_exhausts (RabbitMQClient.maxRetries (RabbitMQClient.retryConfig c))
              (RabbitMQClient.initialDelayMs (RabbitMQClient.retryConfig c)) None
              (RabbitMQClient.set_isConnecting true c)) as (msg & c' & Hloop & Hs & _).
  { by destruct c. }
  pose proof (connect_loop_frame _ _ _ _ _ _ Hloop) as (Hsent & _ & _ & _ & _ & Hfin & _).
  exists msg, c'. destruct c as [conn chan cfg0 ing asq a sl con]. cbn in *.
  split; [exact Hloop|]. split; [done|]. split; [exact Hs|].
  split; [apply backoff_length|split; [apply backoff_capped|done]].
Qed.

Lemma connect_gives_up_witness :
  ∃ msg c',
    RabbitMQClient.connect (Sample.client Sample.amqp_down) =
      (Err (Error_ ("[RabbitMQ] Failed to connect after 5 attempts: " +:+ msg)), c')
    ∧ RabbitMQClient.slept c' = [1000; 2000; 4000; 8000].
Proof.
  destruct (connect_gives_up (Sample.client Sample.amqp_down))
    as (msg & c' & Hc & _ & Hs & _).
  - reflexivity.
  - reflexivity.
  - constructor.
  - exists msg, c'. split; [exact Hc | exact Hs].
Defined.

(** The loop up to the first attempt that connects. *)
Lemma connect_loop_connects fs : ∀ n delay lastError (c : RabbitMQClient.t) rest,
  RabbitMQClient.attempts (RabbitMQClient.amqp c) = fs ++ RabbitMQClient.Connects :: rest →
  Forall (λ o, o ≠ RabbitMQClient.Connects) fs →
  (length fs < n)%nat →
  ∃ c',
    RabbitMQClient.connect_loop n delay lastError c = (Ok tt, c')
    ∧ RabbitMQClient.slept c' =
        RabbitMQClient.slept c ++ backoff (RabbitMQClient.retryConfig c) (length fs) delay
    ∧ RabbitMQClient.attempts (RabbitMQClient.amqp c') = rest.
Proof.
  induction fs as [|o fs IH]; intros n delay lastError c rest Hatt Hall Hlen.
  - destruct n as [|k]; [cbn in Hlen; lia|].
    cbn [RabbitMQClient.connect_loop]. destruct c as [conn chan cfg ing asq a sl con].
    destruct a as [att aqe sto snt]. cbn in Hatt. subst att.
    run_client. eexists. split; [done|]. cbn. by rewrite app_nil_r.
  - destruct n as [|k]; [cbn in Hlen; lia|].
    apply Forall_cons in Hall as [Ho Hall].
    cbn [RabbitMQClient.connect_loop]. destruct c as [conn chan cfg ing asq a sl con].
    destruct a as [att aqe sto snt]. cbn in Hatt. subst att.
    run_client.
    destruct o as [msg0|msg0|]; [| |done]; cbn.
    + destruct k as [|k']; [cbn in Hlen; lia|].
      edestruct (IH (S k') (Z.min (delay * RabbitMQClient.backoffMultiplier cfg)
                              (RabbitMQClient.maxDelayMs cfg)) (Some msg0))
        as (c' & -> & Hs & Ha); [| |cbn in Hlen; lia|].
      * cbn. reflexivity.
      * done.
      * eexists. split; [done|]. cbn in *. split; [|exact Ha].
        by rewrite Hs, <-(assoc_L (++)).
    + destruct k as [|k']; [cbn in Hlen; lia|].
      edestruct (IH (S k') (Z.min (delay * RabbitMQClient.backoffMultiplier cfg)
                              (RabbitMQClient.maxDelayMs cfg)) (Some msg0))
        as (c' & -> & Hs & Ha); [| |cbn in Hlen; lia|].
      * cbn. reflexivity.
      * done.
      * eexists. split; [done|]. cbn in *. split; [|exact Ha].
        by rewrite Hs, <-(assoc_L (++)).
Qed.

(** X21.  [connect] stops at the first attempt that connects.  On a client
    that is not connected, when the first attempt to connect comes after
    fewer than [maxRetries] failed ones, [connect] returns with the client
    connected and [isConnecting] false, having slept once per failed
    attempt, and leaves the later attempts untouched. *)
Theorem connect_stops_at_first_success (c : RabbitMQClient.t)
    (failed rest : list RabbitMQClient.AttemptOutcome) :
  RabbitMQClient.isConnected c = false →
  RabbitMQClient.isConnecting c = false →
  RabbitMQClient.attempts (RabbitMQClient.amqp c) =
    failed ++ RabbitMQClient.Connects :: rest →
  Forall (λ o, o ≠ RabbitMQClient.Connects) failed →
  (length failed < RabbitMQClient.maxRetries (RabbitMQClient.retryConfig c))%nat →
  ∃ c',
    RabbitMQClient.connect c = (Ok tt, c')
    ∧ RabbitMQClient.isConnected c' = true
    ∧ RabbitMQClient.isConnecting c' = false
    ∧ RabbitMQClient.slept c' =
        RabbitMQClient.slept c ++
          backoff (RabbitMQClient.retryConfig c) (length failed)
            (RabbitMQClient.initialDelayMs (RabbitMQClient.retryConfig c))
    ∧ RabbitMQClient.attempts (RabbitMQClient.amqp c') = rest.
Proof.
  intros Hconn Hing Hatt Hall Hlen.
  unfold RabbitMQClient.connect. run. rewrite Hconn, Hing. cbn.
  destruct (connect_loop_connects failed
              (RabbitMQClient.maxRetries (RabbitMQClient.retryConfig c))
              (RabbitMQClient.initialDelayMs (RabbitMQClient.retryConfig c)) None
              (RabbitMQClient.set_isConnecting true c) rest)
    as (c' & Hloop & Hs & Ha); [by destruct c|done|by destruct c|].
  pose proof (connect_loop_frame _ _ _ _ _ _ Hloop) as (_ & _ & _ & _ & _ & Hfin & Hc & Hch).
  exists c'. destruct c as [conn chan cfg0 ing asq a sl con]. cbn in *.
  split; [exact Hloop|]. split; [unfold RabbitMQClient.isConnected; by rewrite Hc, Hch|].
  done.
Qed.

Lemma connect_stops_at_first_success_witness :
  ∃ c',
    RabbitMQClient.connect
      (Sample.client
         {| RabbitMQClient.attempts :=
              [RabbitMQClient.ConnectFails "ECONNREFUSED";
               RabbitMQClient.CreateChannelFails "channel closed";
               RabbitMQClient.Connects];
            RabbitMQClient.assertQueue_error := None;
            RabbitMQClient.sendToQueue_outcome := Ok true;
            RabbitMQClient.sent := [] |}) = (Ok tt, c')
    ∧ RabbitMQClient.isConnected c' = true
    ∧ RabbitMQClient.slept c' = [1000; 2000].
Proof.
  destruct (connect_stops_at_first_success
              (Sample.client
                 {| RabbitMQClient.attempts :=
                      [RabbitMQClient.ConnectFails "ECONNREFUSED";
                       RabbitMQClient.CreateChannelFails "channel closed";
                       RabbitMQClient.Connects];
                    RabbitMQClient.assertQueue_error := None;
                    RabbitMQClient.sendToQueue_outcome := Ok true;
                    RabbitMQClient.sent := [] |})
              [RabbitMQClient.ConnectFails "ECONNREFUSED";
               RabbitMQClient.CreateChannelFails "channel closed"] [])
    as (c' & Hc & Hconn & _ & Hs & _).
  - reflexivity.
  - reflexivity.
  - reflexivity.
  - repeat constructor; discriminate.
  - cbn. lia.
  - exists c'. split; [exact Hc|]. split; [exact Hconn | exact Hs].
Defined.

(* ===================================================================== *)
(** * Further properties of RabbitMQEventPublisher                       *)
(* ===================================================================== *)

(** What the publisher has handed to the broker after [publish]. *)
Lemma publisher_sent (queue : string) (event : DomainEvent)
    (s : RabbitMQEventPublisher.t) :
  let s' := (RabbitMQEventPublisher.publish queue event s).2 in
  let sent_before :=
    RabbitMQClient.sent (RabbitMQClient.amqp (RabbitMQEventPublisher.client s)) in
  let sent_after :=
    RabbitMQClient.sent (RabbitMQClient.amqp (RabbitMQEventPublisher.client s')) in
  let id :=
    match correlationId event, RabbitMQEventPublisher.requestContext s with
    | Some fromEvent, _ => fromEvent
    | None, Some fromContext => fromContext
    | None, None => RabbitMQEventPublisher.uuidv4 s
    end in
  sent_after = sent_before
  ∨ sent_after =
      sent_before ++
        [{| RabbitMQClient.p_queue := queue;
            RabbitMQClient.p_message := event;
            RabbitMQClient.p_persistent := true;
            RabbitMQClient.p_contentType := "application/json";
            RabbitMQClient.p_headers := [("x-correlation-id", id)] |}].
Proof.
  cbv zeta. rewrite publisher_publish_outcome.
  pose proof (client_publish_cases queue event
    (Some (RabbitMQClient.headers_only
             [("x-correlation-id",
               default (RabbitMQEventPublisher.getCorrelationId s)
                 (correlationId event))]))
    (RabbitMQEventPublisher.client s)) as Hc.
  destruct (RabbitMQClient.publish _ _ _ (RabbitMQEventPublisher.client s))
    as [[b|err] c']; cbn.
  - right. destruct Hc as (_ & -> & _).
    unfold RabbitMQEventPublisher.getCorrelationId.
    by destruct (correlationId event), (RabbitMQEventPublisher.requestContext s).
  - by left.
Qed.

(** X22.  The publisher hands over at most one message per event, and tags
    it for tracing.  After [publish], either nothing more has been handed to
    the broker, or exactly one message has: the event itself, persistent, on
    the queue asked for, whose only header is x-correlation-id, carrying the
    correlation id of the event when it has one, otherwise the id of the
    ambient request context when there is one, otherwise a generated one. *)
Theorem publisher_tags_correlation_id (queue : string) (event : DomainEvent)
    (s : RabbitMQEventPublisher.t) :
  let s' := (RabbitMQEventPublisher.publish queue event s).2 in
  let sent_before :=
    RabbitMQClient.sent (RabbitMQClient.amqp (RabbitMQEventPublisher.client s)) in
  let sent_after :=
    RabbitMQClient.sent (RabbitMQClient.amqp (RabbitMQEventPublisher.client s')) in
  let id :=
    match correlationId event, RabbitMQEventPublisher.requestContext s with
    | Some fromEvent, _ => fromEvent
    | None, Some fromContext => fromContext
    | None, None => RabbitMQEventPublisher.uuidv4 s
    end in
  sent_after = sent_before
  ∨ sent_after =
      sent_before ++
        [{| RabbitMQClient.p_queue := queue;
            RabbitMQClient.p_message := event;
            RabbitMQClient.p_persistent := true;
            RabbitMQClient.p_contentType := "application/json";
            RabbitMQClient.p_headers := [("x-correlation-id", id)] |}].
Proof. apply publisher_sent. Qed.

(* ===================================================================== *)
(** * What the booking service publishes                                 *)
(* ===================================================================== *)

(** The publisher after a request: it has been called once, after a lock or
    a sale that succeeded, and not at all otherwise. *)
Lemma request_publisher_state {P} (publisher : option (IEventPublisher.t P))
    (Q : EventQueues) tr seatId userId (st : App P) :
  match request publisher Q tr seatId userId st with
  | (Ok next, st') =>
      BookingService.eventPublisher st' =
        match publisher, tr with
        | Some pub, Lock =>
            (@IEventPublisher.publish P pub (NOTIFICATION Q)
               (createSeatLockedEvent (Seat.id next) (Seat.eventId next) userId
                  (Seat.seatNumber next) (Seat.price next) None None
                  (BookingService.clock st))
               (BookingService.eventPublisher st)).2
        | Some pub, Sell =>
            (@IEventPublisher.publish P pub (TICKET_GENERATION Q)
               (createSeatSoldEvent (Seat.id next) (Seat.eventId next) userId
                  (Seat.seatNumber next) (Seat.price next) None
                  (BookingService.clock st))
               (BookingService.eventPublisher st)).2
        | _, _ => BookingService.eventPublisher st
        end
  | (Err _, st') => BookingService.eventPublisher st' = BookingService.eventPublisher st
  end.
Proof.
  destruct st as [repo pub clk con].
  destruct (cached_findById_durable seatId repo) as (found & repo1 & Hfind & Hdb).
  destruct tr; cbn;
    unfold BookingService.lockSeat, BookingService.confirmSale,
      BookingService.releaseSeat, BookingService.on_seatRepository,
      BookingService.fire_and_forget; run; rewrite Hfind; cbn;
    (destruct found as [seat|]; [|done]).
  - destruct (Seat.isAvailable seat); cbn; [|done].
    destruct (Seat.lock userId seat) as [next|]; cbn; [|done].
    destruct (CachedSeatRepository.save next repo1) as [[saved|err] repo2]; cbn; [|done].
    destruct publisher as [pub0|]; cbn; [|done].
    match goal with |- context [IEventPublisher.publish ?q ?e ?p] =>
      destruct (IEventPublisher.publish q e p) as [[|] ?] eqn:Hp end;
      (cbn; match goal with |- _ = (?rhs).2 =>
              let H := fresh in assert (H : rhs = _) by exact Hp; by rewrite H end).
  - destruct (Seat.isLockedBy userId seat); cbn; [|done].
    destruct (Seat.sell seat) as [next|]; cbn; [|done].
    destruct (CachedSeatRepository.save next repo1) as [[saved|err] repo2]; cbn; [|done].
    destruct publisher as [pub0|]; cbn; [|done].
    match goal with |- context [IEventPublisher.publish ?q ?e ?p] =>
      destruct (IEventPublisher.publish q e p) as [[|] ?] eqn:Hp end;
      (cbn; match goal with |- _ = (?rhs).2 =>
              let H := fresh in assert (H : rhs = _) by exact Hp; by rewrite H end).
  - destruct (Seat.isLockedBy userId seat); cbn; [|done].
    destruct (Seat.release seat) as [next|]; cbn; [|done].
    destruct (CachedSeatRepository.save next repo1) as [[saved|err] repo2]; cbn; [|done].
    by destruct publisher.
Qed.

(** X23.  Events follow persistence.  With the RabbitMQ publisher, a request
    that fails hands nothing to the broker, and neither does a release.  A
    lock that succeeded hands over at most one message, on the notification
    queue: the SeatLockedEvent of the seat, for the requester, locked at the
    time of the clock and expiring 15 minutes later.  A sale that succeeded
    hands over at most one message, on the ticket queue: the SeatSoldEvent
    of the seat for the buyer. *)
Theorem events_follow_persistence (Q : EventQueues) (tr : Transition)
    (seatId userId : string) (st : App RabbitMQEventPublisher.t) :
  let sent (x : App RabbitMQEventPublisher.t) :=
    RabbitMQClient.sent
      (RabbitMQClient.amqp (RabbitMQEventPublisher.client (BookingService.eventPublisher x))) in
  let id :=
    default (RabbitMQEventPublisher.uuidv4 (BookingService.eventPublisher st))
      (RabbitMQEventPublisher.requestContext (BookingService.eventPublisher st)) in
  let handed queue event :=
    {| RabbitMQClient.p_queue := queue;
       RabbitMQClient.p_message := event;
       RabbitMQClient.p_persistent := true;
       RabbitMQClient.p_contentType := "application/json";
       RabbitMQClient.p_headers := [("x-correlation-id", id)] |} in
  let now := BookingService.clock st in
  match request (Some RabbitMQEventPublisher.publisher) Q tr seatId userId st with
  | (Ok next, st') =>
      match tr with
      | Lock =>
          sent st' = sent st
          ∨ sent st' =
              sent st ++
                [handed (NOTIFICATION Q)
                   (SeatLockedEvent (Seat.id next) (Seat.eventId next) userId
                      (Seat.seatNumber next) (Seat.price next)
                      now (now + 900000) now None)]
      | Sell =>
          sent st' = sent st
          ∨ sent st' =
              sent st ++
                [handed (TICKET_GENERATION Q)
                   (SeatSoldEvent (Seat.id next) (Seat.eventId next) userId
                      (Seat.seatNumber next) (Seat.price next) now now None)]
      | Release => sent st' = sent st
      end
  | (Err _, st') => sent st' = sent st
  end.
Proof.
  cbv zeta.
  pose proof (request_publisher_state (Some RabbitMQEventPublisher.publisher) Q tr
                seatId userId st) as Hpub.
  destruct (request (Some RabbitMQEventPublisher.publisher) Q tr seatId userId st)
    as [[next|err] st']; [|by rewrite Hpub].
  destruct tr; rewrite Hpub; [| |done];
    cbn [IEventPublisher.publish RabbitMQEventPublisher.publisher].
  - pose proof (publisher_sent (NOTIFICATION Q)
      (createSeatLockedEvent (Seat.id next) (Seat.eventId next) userId
         (Seat.seatNumber next) (Seat.price next) None None (BookingService.clock st))
      (BookingService.eventPublisher st)) as H.
    cbv zeta in H. cbn [correlationId createSeatLockedEvent] in H.
    destruct H as [H|H]; [by left|right].
    rewrite H.
    by destruct (RabbitMQEventPublisher.requestContext (BookingService.eventPublisher st)).
  - pose proof (publisher_sent (TICKET_GENERATION Q)
      (createSeatSoldEvent (Seat.id next) (Seat.eventId next) userId
         (Seat.seatNumber next) (Seat.price next) None (BookingService.clock st))
      (BookingService.eventPublisher st)) as H.
    cbv zeta in H. cbn [correlationId createSeatSoldEvent] in H.
    destruct H as [H|H]; [by left|right].
    rewrite H.
    by destruct (RabbitMQEventPublisher.requestContext (BookingService.eventPublisher st)).
Qed.

(* ===================================================================== *)
(** * Further properties of the worker                                   *)
(* ===================================================================== *)

Section WorkerMore.
Variable JSON_parse : string → Result Worker.MessageContent.
Variable uuidv4 : string.
Variable pdf_work email_work : string → string → Result unit.

(** One hand-over, in full. *)
Lemma deliver_outcome (msg : Worker.ConsumeMessage) (rest : list Worker.ConsumeMessage)
    (s : Worker.t) :
  Worker.channel s = {| Worker.ready := msg :: rest; Worker.unacked := None |} →
  ∃ s',
    Worker.deliver JSON_parse uuidv4 pdf_work email_work s = (Ok tt, s')
    ∧ Worker.currentCorrelationId s' = "idle"
    ∧ if processes JSON_parse pdf_work email_work msg then
        Worker.channel s' = {| Worker.ready := rest; Worker.unacked := None |}
        ∧ Worker.settlements s' = Worker.settlements s ++ [Worker.Ack msg]
      else
        Worker.channel s' = {| Worker.ready := msg :: rest; Worker.unacked := None |}
        ∧ Worker.settlements s' = Worker.settlements s ++ [Worker.Nack msg false true].
Proof.
  destruct s as [chan cid setl tsk lines]. cbn. intros ->.
  unfold processes, Worker.deliver, Worker.on_message, Worker.try_finally,
    Worker.processSeatSoldEvent, Worker.generatePDF, Worker.sendEmailNotification,
    Worker.channel_ack, Worker.channel_nack, Worker.set_currentCorrelationId,
    Worker.log, Worker.task_started, Worker.set_channel. run.
  destruct (JSON_parse (Worker.content msg)) as [body|err]; cbn.
  - destruct (pdf_work (Worker.seatId body) (Worker.seatNumber body)) as [[]|err1]; cbn.
    + destruct (email_work (Worker.userId body) (Worker.seatNumber body)) as [[]|err2]; cbn;
        (eexists; split; [done|]; cbn; by rewrite decide_True by done).
    + eexists. split; [done|]. cbn. by rewrite decide_True by done.
  - eexists. split; [done|]. cbn. by rewrite decide_True by done.
Qed.

(** X24.  A message whose processing fails blocks the queue.  However often
    the broker hands over, the queue stays as it was, with the failing
    message at its head and the messages behind it never reached; every
    hand-over ends in one negative acknowledgement with requeue, and nothing
    is ever acknowledged. *)
Theorem failing_message_blocks_queue (msg : Worker.ConsumeMessage)
    (rest : list Worker.ConsumeMessage) (s : Worker.t) (n : nat) :
  Worker.channel s = {| Worker.ready := msg :: rest; Worker.unacked := None |} →
  processes JSON_parse pdf_work email_work msg = false →
  let s' := deliveries JSON_parse uuidv4 pdf_work email_work n s in
  Worker.channel s' = {| Worker.ready := msg :: rest; Worker.unacked := None |}
  ∧ Worker.settlements s' =
      Worker.settlements s ++ replicate n (Worker.Nack msg false true).
Proof.
  intros Hch Hfail. cbv zeta. revert s Hch.
  induction n as [|k IH]; intros s Hch; cbn.
  - split; [done|]. by rewrite app_nil_r.
  - destruct (deliver_outcome msg rest s Hch) as (s1 & Hd & _ & Hout).
    rewrite Hfail in Hout. destruct Hout as [Hch1 Hs1].
    rewrite Hd. cbn. destruct (IH s1 Hch1) as [Hc Hs]. split; [done|].
    by rewrite Hs, Hs1, <-(assoc_L (++)).
Qed.

(** X25.  A queue of messages that all process is drained in order.  After
    as many hand-overs as there are messages waiting, the queue is empty,
    nothing is outstanding, and the settlements sent are the
    acknowledgements of the messages, first come first. *)
Theorem good_messages_drain (msgs : list Worker.ConsumeMessage) (s : Worker.t) :
  Worker.channel s = {| Worker.ready := msgs; Worker.unacked := None |} →
  Forall (λ msg, processes JSON_parse pdf_work email_work msg = true) msgs →
  let s' := deliveries JSON_parse uuidv4 pdf_work email_work (length msgs) s in
  Worker.channel s' = {| Worker.ready := []; Worker.unacked := None |}
  ∧ Worker.settlements s' = Worker.settlements s ++ (Worker.Ack <$> msgs).
Proof.
  cbv zeta. revert s.
  induction msgs as [|msg rest IH]; intros s Hch Hall; cbn.
  - split; [done|]. by rewrite app_nil_r.
  - apply Forall_cons in Hall as [Hok Hall].
    destruct (deliver_outcome msg rest s Hch) as (s1 & Hd & _ & Hout).
    rewrite Hok in Hout. destruct Hout as [Hch1 Hs1].
    rewrite Hd. cbn. destruct (IH s1 Hch1 Hall) as [Hc Hs]. split; [done|].
    by rewrite Hs, Hs1, <-(assoc_L (++)).
Qed.

(** X26.  Between messages the worker's correlation id is "idle": whatever
    message is handed over and however its processing ends, the id is reset
    when the callback returns; and a hand-over while a message is still
    outstanding, or with nothing waiting, changes nothing. *)
Theorem correlation_id_reset (s : Worker.t) :
  let s' := (Worker.deliver JSON_parse uuidv4 pdf_work email_work s).2 in
  match Worker.unacked (Worker.channel s), Worker.ready (Worker.channel s) with
  | None, _ :: _ => Worker.currentCorrelationId s' = "idle"
  | _, _ => s' = s
  end.
Proof.
  cbv zeta. destruct (Worker.unacked (Worker.channel s)) as [m|] eqn:Hu.
  - unfold Worker.deliver. by rewrite Hu.
  - destruct (Worker.ready (Worker.channel s)) as [|msg rest] eqn:Hr.
    + unfold Worker.deliver. by rewrite Hu, Hr.
    + destruct (deliver_outcome msg rest s) as (s1 & -> & Hid & _); [|done].
      destruct s as [[rd un] ? ? ? ?]. cbn in *. by subst.
Qed.

End WorkerMore.

Lemma failing_message_blocks_queue_witness :
  let s := Worker.set_channel
             {| Worker.ready := [Sample.sold_message]; Worker.unacked := None |}
             Sample.idle_worker in
  let failing (_ _ : string) : Result unit := Err (Error_ "SMTP down") in
  let s' := deliveries Sample.parse "generated" Worker.simulated_work failing 3 s in
  Worker.channel s' = {| Worker.ready := [Sample.sold_message]; Worker.unacked := None |}
  ∧ Worker.settlements s' = replicate 3 (Worker.Nack Sample.sold_message false true).
Proof.
  exact (failing_message_blocks_queue Sample.parse "generated" Worker.simulated_work
           (λ _ _, Err (Error_ "SMTP down")) Sample.sold_message []
           (Worker.set_channel
              {| Worker.ready := [Sample.sold_message]; Worker.unacked := None |}
              Sample.idle_worker) 3 eq_refl eq_refl).
Defined.

Lemma good_messages_drain_witness :
  let s := Worker.set_channel
             {| Worker.ready := [Sample.sold_message; Sample.sold_message];
                Worker.unacked := None |}
             Sample.idle_worker in
  let s' := deliveries Sample.parse "generated" Worker.simulated_work
              Worker.simulated_work 2 s in
  Worker.channel s' = {| Worker.ready := []; Worker.unacked := None |}
  ∧ Worker.settlements s' =
      [Worker.Ack Sample.sold_message; Worker.Ack Sample.sold_message].
Proof.
  apply (good_messages_drain Sample.parse "generated" Worker.simulated_work
           Worker.simulated_work [Sample.sold_message; Sample.sold_message]
           (Worker.set_channel
              {| Worker.ready := [Sample.sold_message; Sample.sold_message];
                 Worker.unacked := None |}
              Sample.idle_worker)).
  - reflexivity.
  - repeat constructor.
Defined.

(* ===================================================================== *)
(** * Further properties: the routes                                     *)
(* ===================================================================== *)

Section RoutesMore.
Context {P : Type}.
Variable publisher : option (IEventPublisher.t P).
Variable Q : EventQueues.
Implicit Types st : App P.
Import NextResponse.



(** X29.  A concurrent change surfaces differently on the two routes.  When
    the cache still holds the seat at a version the table no longer has, a
    lock of the seat read as AVAILABLE is answered 409 CONCURRENCY_CONFLICT,
    marked retryable, whereas a confirmation by the user the seat is read as
    LOCKED by is answered 500 INTERNAL_ERROR; neither changes the table. *)
Theorem concurrent_change_answers seatId userId st e p :
  cached st !! CachedSeatRepository.CACHE_KEYS_seat seatId = Some e →
  ICache.value e = ICache.SeatValue p →
  SeatProps.version p ≠ 0 →
  (∀ c, durable st !! SeatProps.id p = Some c →
        Prisma.c_version c ≠ SeatProps.version p) →
  (SeatProps.status p = AVAILABLE →
   let answer := LockRoute.POST publisher Q (NextRequest.Validated seatId userId) st in
   answer.1 =
     json (Failure
             {| code := "CONCURRENCY_CONFLICT";
                error_message :=
                  "The seat was modified by another process. Please retry.";
                details := None; retryable := Some true |}) 409
   ∧ durable answer.2 = durable st)
  ∧ (SeatProps.status p = LOCKED → SeatProps.userId p = Some userId →
     let answer :=
       ConfirmRoute.POST publisher Q (NextRequest.Validated seatId userId) st in
     answer.1 =
       json (Failure {| code := "INTERNAL_ERROR";
                        error_message := "An unexpected error occurred";
                        details := None; retryable := None |}) 500
     ∧ durable answer.2 = durable st).
Proof.
  intros He Hv Hv0 Hmoved. split.
  - intros Hst answer. subst answer.
    destruct (stale_request_conflicts publisher Q Lock seatId userId st e p He Hv) as (st' & Hreq & Hdb);
      [|done|done|].
    { cbn. unfold Seat.isAvailable, Seat.status. cbn. by rewrite bool_decide_eq_true_2. }
    cbn [request] in Hreq. unfold LockRoute.POST. by rewrite Hreq.
  - intros Hst Hu answer. subst answer.
    destruct (stale_request_conflicts publisher Q Sell seatId userId st e p He Hv) as (st' & Hreq & Hdb);
      [|done|done|].
    { cbn. unfold Seat.isLockedBy, Seat.isLocked, Seat.status, Seat.userId. cbn.
      by rewrite !bool_decide_eq_true_2. }
    cbn [request] in Hreq. unfold ConfirmRoute.POST. by rewrite Hreq.
Qed.

End RoutesMore.



Lemma concurrent_change_answers_witness :
  NextResponse.init_status
    (LockRoute.POST Sample.rabbit Sample.queues (NextRequest.Validated "s1" "u2")
       Scenario.stale_app).1 = 409.
Proof.
  destruct (concurrent_change_answers Sample.rabbit Sample.queues "s1" "u2"
              Scenario.stale_app
              (ICache.mkEntry
                 (ICache.SeatValue (Seat.toJSON (seat_of_row "s1" Sample.available_s1))) 60)
              (Seat.toJSON (seat_of_row "s1" Sample.available_s1))) as [H _].
  - vm_compute. reflexivity.
  - reflexivity.
  - vm_compute. discriminate.
  - intros c Hc. vm_compute in Hc. injection Hc as <-. vm_compute. discriminate.
  - destruct (H eq_refl) as [Hr _]. rewrite Hr. reflexivity.
Defined.

(* ===================================================================== *)
(** * Further properties: the seats route                                *)
(* ===================================================================== *)

Section SeatsRouteMore.
Context {R : Type} `{!ISeatRepository.t R}.
Variable localeCompare : string → string → Z.

(** X30.  The seats route.  Without an event id it answers 400 and reads
    nothing.  With one it asks the repository for the seats of the event:
    when the repository returns, the route answers 200 with those seats,
    each once, rearranged so that the comparator [localeCompare] of the
    runtime puts no seat after its successor; when the repository throws,
    the route answers 500.  In both cases it leaves the state the read
    leaves.  The comparator is any one that is never positive both ways. *)
Theorem GET_sorts_by_localeCompare (eventId : string) (s : R) :
  (∀ a b, localeCompare a b ≤ 0 ∨ localeCompare b a ≤ 0) →
  if decide (eventId = "") then
    SeatsRoute.GET localeCompare eventId s =
      (Ok (SeatsRoute.JsonError 400 "Event ID is required"), s)
  else
    match ISeatRepository.findByEventId eventId s with
    | (Ok seats, s') =>
        ∃ sortedSeats,
          SeatsRoute.GET localeCompare eventId s =
            (Ok (SeatsRoute.Json 200 sortedSeats), s')
          ∧ sortedSeats ≡ₚ seats
          ∧ Sorted (SeatsRoute.numeric_asc localeCompare) sortedSeats
    | (Err _, s') =>
        SeatsRoute.GET localeCompare eventId s =
          (Ok (SeatsRoute.JsonError 500 "Internal Server Error"), s')
    end.
Proof.
  intros Htotal. unfold SeatsRoute.GET. case_decide as He.
  - by run.
  - unfold try_catch, bind, ret.
    destruct (ISeatRepository.findByEventId eventId s) as [[seats|err] s']; [|done].
    exists (merge_sort (SeatsRoute.numeric_asc localeCompare) seats).
    split; [done|]. split; [apply merge_sort_Permutation|].
    assert (Total (SeatsRoute.numeric_asc localeCompare))
      by (intros a b; apply Htotal).
    apply (Sorted_merge_sort _).
Qed.

End SeatsRouteMore.

Lemma GET_sorts_by_localeCompare_witness :
  let s := Sample.wired_repository Sample.db_two_seats ∅ [] in
  match ISeatRepository.findByEventId "evt-1" s with
  | (Ok seats, s') =>
      ∃ sortedSeats,
        SeatsRoute.GET Sample.compare_characters "evt-1" s =
          (Ok (SeatsRoute.Json 200 sortedSeats), s')
        ∧ sortedSeats ≡ₚ seats
        ∧ Sorted (SeatsRoute.numeric_asc Sample.compare_characters) sortedSeats
  | (Err _, s') =>
      SeatsRoute.GET Sample.compare_characters "evt-1" s =
        (Ok (SeatsRoute.JsonError 500 "Internal Server Error"), s')
  end.
Proof.
  intros s.
  apply (GET_sorts_by_localeCompare Sample.compare_characters "evt-1" s).
  intros a b. unfold Sample.compare_characters.
  destruct (String.leb_total a b) as [-> | ->].
  - left. destruct (String.leb b a); lia.
  - destruct (String.leb a b); [left|right]; lia.
Defined.
